(** * Bulk batch operations with rollback history

    A shallow embedding of the storefront administration tool's core:

    - [PriceRuleEvaluator]: [calculateNewPrice] of
      src/components/bulk-price-edit-modal.tsx;
    - [History]: the [UniversalHistoryManager] class of
      src/lib/universal-history.ts, on a store of typed entries;
    - [LocalStorage]: the same store as the text under [STORAGE_KEY],
      for [importHistory];
    - [Discount]: the [applyDiscount] callback of
      src/components/bulk-discount-system.tsx;
    - [HistoryMore], [LocalStorageMore], [PriceModal] and [DiscountMore]:
      the queries, the statistics and the helper constructors of the
      history, the export and import of its text, the selection of the
      price modal, and the previews, the selection handlers and
      [rollbackDiscounts] of the discount screen;
    - [RawHistory]: the lookup of [rollbackOperation] on the stored JSON
      value as it is.

    Conventions of the embedding.

    - A JavaScript number is a [number]: a binary64 value, kept as NaN,
      an infinity, the negative zero, or the rational that a finite value
      denotes.  Every arithmetic operation rounds its exact result to the
      nearest binary64 value, ties to even.
    - A JavaScript string is kept as the bytes of its UTF-8 encoding.
    - The wall clock and the random source are oracles indexed by the
      number of reads made so far ([tick]); the remote store answers
      through an oracle, too.
    - Asynchronous code is run in the order of its effects: the calls of
      a group are dispatched in order, and the group is joined once all
      of them are settled.  What is observable is a trace of events.
    - In [History] the store holds entries of the declared type
      [UniversalHistoryEntry], most recent first.
    - Writes to [localStorage] succeed (no quota failure). *)

From Stdlib Require Import List String Ascii Bool Arith ZArith QArith Qround Qabs Qpower.
From Stdlib Require Import Lia Lqa.
From Stdlib Require Import DecimalString.
Import ListNotations.

Close Scope Q_scope.
Local Open Scope string_scope.

(** ** JavaScript runtime helpers *)

Module JS.
Local Open Scope Q_scope.

(** *** Numbers

    The binary64 values.  A finite value is the rational that it denotes;
    [Fin 0] is +0 and [NegZero] is -0. *)
Inductive number : Type :=
| NaN
| Inf (negative : bool)
| NegZero
| Fin (q : Q).

(** [2 ^ e]. *)
Definition pow2 (e : Z) : Q := 2 ^ e.

(** The binary64 values: the integer multiples [n * 2 ^ e] of a power of
    two not below 2^-1074, with less than 53 bits in [n] and a magnitude
    below 2^1024. *)
Definition binary64 (q : Q) : Prop :=
  exists n e : Z,
    q == inject_Z n * pow2 e
    /\ (Z.abs n < 2 ^ 53)%Z
    /\ (-1074 <= e)%Z
    /\ Qabs q < pow2 1024.

Definition valid (a : number) : Prop :=
  match a with
  | Fin q => binary64 q
  | NaN | Inf _ | NegZero => True
  end.

(** [floor (log2 q)], for [0 < q]. *)
Definition ilog2 (q : Q) : Z :=
  let k := (Z.log2 (Qnum q) - Z.log2 (Zpos (Qden q)))%Z in
  if Qle_bool (pow2 k) q then k else (k - 1)%Z.

(** The nearest integer, the even one on a tie. *)
Definition rne (m : Q) : Z :=
  let f := Qfloor m in
  match Qcompare (m - inject_Z f) (1 # 2) with
  | Lt => f
  | Gt => (f + 1)%Z
  | Eq => if Z.even f then f else (f + 1)%Z
  end.

(** The exponent of the last place of the binary64 values around
    [0 < q]; -1074 for the subnormal ones. *)
Definition ulp_exponent (q : Q) : Z := Z.max (ilog2 q - 52) (-1074).

(** The nearest multiple of the last place, for [0 < q]. *)
Definition nearest (q : Q) : Q :=
  inject_Z (rne (q / pow2 (ulp_exponent q))) * pow2 (ulp_exponent q).

(** Rounding of a positive [q]; [None] is an overflow. *)
Definition round_pos (q : Q) : option Q :=
  if Qle_bool (pow2 1024) (nearest q) then None else Some (Qred (nearest q)).

(** The binary64 value of an exact result [q]: round to nearest, ties to
    even.  An exact zero is +0 here; the operations below give a zero its
    sign. *)
Definition round64 (q : Q) : number :=
  match Qcompare q 0 with
  | Eq => Fin 0
  | Gt => match round_pos q with
          | Some v => Fin v
          | None => Inf false
          end
  | Lt => match round_pos (- q) with
          | Some v => if Qeq_bool v 0 then NegZero else Fin (- v)
          | None => Inf true
          end
  end.

(** The sign bit. *)
Definition is_neg (a : number) : bool :=
  match a with
  | NaN => false
  | Inf s => s
  | NegZero => true
  | Fin q => negb (Qle_bool 0 q)
  end.

Definition is_zero (a : number) : bool :=
  match a with
  | NegZero => true
  | Fin q => Qeq_bool q 0
  | NaN | Inf _ => false
  end.

Definition zero (negative : bool) : number :=
  if negative then NegZero else Fin 0.

(** The rational that a finite value denotes. *)
Definition to_Q (a : number) : Q :=
  match a with
  | Fin q => q
  | NaN | Inf _ | NegZero => 0
  end.

Definition is_finite (a : number) : bool :=
  match a with
  | Fin _ | NegZero => true
  | NaN | Inf _ => false
  end.

(** [r <= a] and [a <= r] for a rational [r]; NaN is in no order. *)
Definition at_least (r : Q) (a : number) : Prop :=
  match a with
  | NaN => False
  | Inf s => s = false
  | NegZero => r <= 0
  | Fin v => r <= v
  end.

Definition at_most (r : Q) (a : number) : Prop :=
  match a with
  | NaN => False
  | Inf s => s = true
  | NegZero => 0 <= r
  | Fin v => v <= r
  end.

(** [a + b]. *)
Definition add (a b : number) : number :=
  match a, b with
  | NaN, _ | _, NaN => NaN
  | Inf s, Inf t => if Bool.eqb s t then Inf s else NaN
  | Inf s, _ => Inf s
  | _, Inf t => Inf t
  | NegZero, NegZero => NegZero
  | NegZero, Fin y => Fin y
  | Fin x, NegZero => Fin x
  | Fin x, Fin y => round64 (x + y)
  end.

(** [- a]. *)
Definition neg (a : number) : number :=
  match a with
  | NaN => NaN
  | Inf s => Inf (negb s)
  | NegZero => Fin 0
  | Fin q => if Qeq_bool q 0 then NegZero else Fin (- q)
  end.

(** [a - b]. *)
Definition sub (a b : number) : number := add a (neg b).

(** [a * b]. *)
Definition mul (a b : number) : number :=
  match a, b with
  | NaN, _ | _, NaN => NaN
  | Inf s, _ => if is_zero b then NaN else Inf (xorb s (is_neg b))
  | _, Inf t => if is_zero a then NaN else Inf (xorb (is_neg a) t)
  | _, _ =>
      if is_zero a || is_zero b then zero (xorb (is_neg a) (is_neg b))
      else round64 (to_Q a * to_Q b)
  end.

(** [a / b]. *)
Definition div (a b : number) : number :=
  match a, b with
  | NaN, _ | _, NaN => NaN
  | Inf _, Inf _ => NaN
  | Inf s, _ => Inf (xorb s (is_neg b))
  | _, Inf t => zero (xorb (is_neg a) t)
  | _, _ =>
      if is_zero b
      then if is_zero a then NaN else Inf (xorb (is_neg a) (is_neg b))
      else if is_zero a then zero (xorb (is_neg a) (is_neg b))
      else round64 (to_Q a / to_Q b)
  end.

(** [a < b]; a comparison with NaN is false, and the two zeros are
    equal. *)
Definition lt (a b : number) : bool :=
  match a, b with
  | NaN, _ | _, NaN => false
  | Inf s, Inf t => s && negb t
  | Inf s, _ => s
  | _, Inf t => negb t
  | _, _ => negb (Qle_bool (to_Q b) (to_Q a))
  end.

(** [a <= b]. *)
Definition le (a b : number) : bool :=
  match a, b with
  | NaN, _ | _, NaN => false
  | Inf s, Inf t => s || negb t
  | Inf s, _ => s
  | _, Inf t => negb t
  | _, _ => Qle_bool (to_Q a) (to_Q b)
  end.

Definition isNaN (a : number) : bool :=
  match a with
  | NaN => true
  | _ => false
  end.

(** Truthiness: neither NaN nor a zero. *)
Definition truthy (a : number) : bool :=
  match a with
  | NaN | NegZero => false
  | Inf _ => true
  | Fin q => negb (Qeq_bool q 0)
  end.

(** The number that an integer denotes; exact below 2^53. *)
Definition of_Z (z : Z) : number := round64 (inject_Z z).

(** The value of a decimal literal of the source, such as [0.01]. *)
Definition literal (q : Q) : number := round64 q.

(** [Math.floor]. *)
Definition Math_floor (a : number) : number :=
  match a with
  | Fin x => Fin (inject_Z (Qfloor x))
  | NaN | Inf _ | NegZero => a
  end.

(** [Math.round]: the nearest integer, ties towards plus infinity; -0
    for a negative number not below -0.5. *)
Definition Math_round (a : number) : number :=
  match a with
  | Fin x =>
      let n := Qfloor (x + (1 # 2)) in
      if (n =? 0)%Z && negb (Qle_bool 0 x) then NegZero else Fin (inject_Z n)
  | NaN | Inf _ | NegZero => a
  end.

(** *** Strings of numbers *)

(** Decimal rendering of an integer, as template strings and
    [Number.prototype.toString] print it. *)
Definition string_of_Z (z : Z) : string :=
  NilZero.string_of_int (Z.to_int z).

Definition string_of_nat (n : nat) : string := string_of_Z (Z.of_nat n).

(** The number of hundredths [n] that [toFixed(2)] picks for a
    non-negative [x]: [n / 100 - x] as close to zero as possible, the
    larger [n] on a tie. *)
Definition hundredths (x : Q) : Z := Qfloor (x * 100 + (1 # 2)).

Definition two_digits (z : Z) : string :=
  if (z <? 10)%Z then "0" ++ string_of_Z z else string_of_Z z.

(** [c] hundredths printed with two decimals, [c >= 0]. *)
Definition render_fixed2 (c : Z) : string :=
  string_of_Z (c / 100) ++ "." ++ two_digits (c mod 100).

(** Whether the decimal [s * 10 ^ t] reads as the number [x]. *)
Definition reads_as (x : Q) (s t : Z) : bool :=
  match round64 (inject_Z s * 10 ^ t) with
  | Fin v => Qeq_bool v x
  | NaN | Inf _ | NegZero => false
  end.

(** The digits [s] and the exponent [t] of the shortest decimal
    [s * 10 ^ t] that reads as [x], for an integer [x] of [d] digits:
    with [k] digits, the candidates are the two neighbours of
    [x / 10 ^ (d - k)]; of two that do, the closer one, the even one on a
    tie.  The search starts at [k] and gives up after [fuel] lengths with
    the digits of [x] itself; 17 digits always do. *)
Fixpoint shortest (fuel : nat) (k : Z) (x : Q) (d : Z) : Z * Z :=
  match fuel with
  | O => (Qfloor x, 0%Z)
  | S fuel' =>
      let t := (d - k)%Z in
      let lo := Qfloor (x / 10 ^ t) in
      let hi := (lo + 1)%Z in
      let ok_lo := reads_as x lo t in
      let ok_hi := (hi <? 10 ^ k)%Z && reads_as x hi t in
      if ok_lo && ok_hi then
        match Qcompare (x / 10 ^ t - inject_Z lo) (1 # 2) with
        | Lt => (lo, t)
        | Gt => (hi, t)
        | Eq => if Z.even lo then (lo, t) else (hi, t)
        end
      else if ok_lo then (lo, t)
      else if ok_hi then (hi, t)
      else shortest fuel' (k + 1)%Z x d
  end.

(** [Number::toString] of a finite [x] not below 10^21: the exponential
    form of the shortest decimal that reads as [x]. *)
Definition toString_large (x : Q) : string :=
  let d := Z.of_nat (String.length (string_of_Z (Qfloor x))) in
  let '(s, t) := if reads_as x 1 d then (1%Z, d) else shortest 17 1 x d in
  let digits := string_of_Z s in
  let n := (t + Z.of_nat (String.length digits))%Z in
  match digits with
  | String c EmptyString => String c EmptyString ++ "e+" ++ string_of_Z (n - 1)
  | String c rest => String c EmptyString ++ "." ++ rest ++ "e+" ++ string_of_Z (n - 1)
  | EmptyString => "0"
  end.

(** [x.toFixed(2)]. *)
Definition toFixed2 (a : number) : string :=
  match a with
  | NaN => "NaN"
  | Inf false => "Infinity"
  | Inf true => "-Infinity"
  | NegZero => render_fixed2 (hundredths 0)
  | Fin x =>
      let sign := if negb (Qle_bool 0 x) then "-" else "" in
      let x := Qabs x in
      if Qle_bool (10 ^ 21) x then sign ++ toString_large x
      else sign ++ render_fixed2 (hundredths x)
  end.

(** *** [Number.parseFloat]

    Leading white space is dropped; then the longest prefix that is a
    decimal literal is read: a sign, then [Infinity], or digits with an
    optional fraction and an optional exponent; anything after it is
    ignored; no such prefix gives [NaN].  The value is the binary64 value
    nearest to the literal's. *)

Definition code (c : ascii) : nat := nat_of_ascii c.

Definition is_ascii_space (c : ascii) : bool :=
  let n := code c in
  ((9 <=? n) && (n <=? 13) || (n =? 32))%nat.

(** Whether the bytes [c d] encode U+00A0. *)
Definition is_space2 (c d : ascii) : bool :=
  ((code c =? 194) && (code d =? 160))%nat.

(** Whether the bytes [c d e] encode one of U+1680, U+2000 to U+200A,
    U+2028, U+2029, U+202F, U+205F, U+3000 and U+FEFF. *)
Definition is_space3 (c d e : ascii) : bool :=
  let '(c, d, e) := (code c, code d, code e) in
  ((c =? 225) && (d =? 154) && (e =? 128)
   || (c =? 226) && (d =? 128)
      && ((128 <=? e) && (e <=? 138) || (e =? 168) || (e =? 169) || (e =? 175))
   || (c =? 226) && (d =? 129) && (e =? 159)
   || (c =? 227) && (d =? 128) && (e =? 128)
   || (c =? 239) && (d =? 187) && (e =? 191))%nat.

(** [TrimString(s, start)]. *)
Fixpoint trimStart (s : string) : string :=
  match s with
  | EmptyString => s
  | String c rest =>
      if is_ascii_space c then trimStart rest
      else
        match rest with
        | String d rest2 =>
            if is_space2 c d then trimStart rest2
            else
              match rest2 with
              | String e rest3 =>
                  if is_space3 c d e then trimStart rest3 else s
              | EmptyString => s
              end
        | EmptyString => s
        end
  end.

Definition digit_of (c : ascii) : option Z :=
  let n := nat_of_ascii c in
  if ((48 <=? n) && (n <=? 57))%nat then Some (Z.of_nat (n - 48)) else None.

(** Reads digits, accumulating [acc * 10 + d]; returns the value, the
    number of digits read and the rest. *)
Fixpoint read_digits (s : string) (acc : Z) (count : nat) : Z * nat * string :=
  match s with
  | EmptyString => (acc, count, s)
  | String c rest =>
      match digit_of c with
      | Some d => read_digits rest (acc * 10 + d)%Z (S count)
      | None => (acc, count, s)
      end
  end.

(** The exponent part at the head of [s], 0 when there is none: [e] or
    [E], an optional sign, and at least one digit. *)
Definition read_exponent (s : string) : Z :=
  match s with
  | String c rest =>
      if ((code c =? 101) || (code c =? 69))%nat then
        match rest with
        | String "-"%char rest' =>
            let '(e, n, _) := read_digits rest' 0%Z 0%nat in
            if (n =? 0)%nat then 0%Z else (- e)%Z
        | String "+"%char rest' =>
            let '(e, _, _) := read_digits rest' 0%Z 0%nat in e
        | _ =>
            let '(e, _, _) := read_digits rest 0%Z 0%nat in e
        end
      else 0%Z
  | EmptyString => 0%Z
  end.

(** The exact value of the unsigned literal at the head of [s]. *)
Definition parse_unsigned (s : string) : option Q :=
  let '(ip, ni, rest) := read_digits s 0%Z 0%nat in
  match rest with
  | String "."%char rest' =>
      let '(m, nf, rest'') := read_digits rest' ip 0%nat in
      if ((ni + nf) =? 0)%nat then None
      else Some (inject_Z m * 10 ^ (read_exponent rest'' - Z.of_nat nf))
  | _ =>
      if (ni =? 0)%nat then None
      else Some (inject_Z ip * 10 ^ read_exponent rest)
  end.

Definition parse_signed (negative : bool) (s : string) : number :=
  if prefix "Infinity" s then Inf negative
  else
    match parse_unsigned s with
    | Some q =>
        if Qeq_bool q 0 then zero negative
        else round64 (if negative then - q else q)
    | None => NaN
    end.

Definition parseFloat (s : string) : number :=
  match trimStart s with
  | String "-"%char rest => parse_signed true rest
  | String "+"%char rest => parse_signed false rest
  | t => parse_signed false t
  end.

End JS.

(** ** PriceRuleEvaluator (bulk-price-edit-modal.tsx) *)

Module PriceRuleEvaluator.
Import JS.
Local Open Scope Q_scope.

Inductive RuleType := percentage | fixed | absolute.
Inductive ApplyTo := applyPrice | applyCompareAtPrice | applyBoth.
Inductive RoundingRule := none | nearest_99 | nearest_00 | nearest_95.
Inductive Action := increase | decrease.

(** [interface PriceRule]; the optional [minPrice], [maxPrice] and
    [maintainMargin] are never read by [calculateNewPrice]. *)
Record PriceRule := {
  type : RuleType;
  value : number;
  applyTo : ApplyTo;
  roundingRule : option RoundingRule
}.

(** The decimal literals of the source: [0.01], [0.99] and [0.95]. *)
Definition num (a b : Z) : number := literal (a # Z.to_pos b).

(** The value of [newPrice] after the rule and before the business rule. *)
Definition applyRule (price : number) (rule : PriceRule) (action : Action) : number :=
  match type rule with
  | percentage =>
      let multiplier :=
        match action with
        | increase => add (of_Z 1) (div (value rule) (of_Z 100))
        | decrease => sub (of_Z 1) (div (value rule) (of_Z 100))
        end in
      mul price multiplier
  | fixed =>
      match action with
      | increase => add price (value rule)
      | decrease => sub price (value rule)
      end
  | absolute => value rule
  end.

(** "Apply minimum price rule only". *)
Definition applyMinimum (newPrice : number) : number :=
  if lt newPrice (num 1 100) then num 1 100 else newPrice.

(** "Apply rounding rules". *)
Definition applyRounding (rule : PriceRule) (newPrice : number) : number :=
  match roundingRule rule with
  | Some nearest_99 => add (Math_floor newPrice) (num 99 100)
  | Some nearest_00 => Math_round newPrice
  | Some nearest_95 => add (Math_floor newPrice) (num 95 100)
  | _ => newPrice
  end.

(** The value of [newPrice] when [calculateNewPrice] returns. *)
Definition finalPrice (currentPrice : string) (rule : PriceRule)
    (action : Action) : number :=
  let price := parseFloat currentPrice in
  let newPrice := applyRule price rule action in
  let newPrice := applyMinimum newPrice in
  let newPrice := applyRounding rule newPrice in
  newPrice.

Definition calculateNewPrice (currentPrice : string) (rule : PriceRule)
    (action : Action) : string :=
  toFixed2 (finalPrice currentPrice rule action).

(** A rule on the sale price, with an integer value. *)
Definition mkRule (t : RuleType) (v : Z) (r : RoundingRule) : PriceRule :=
  {| type := t; value := of_Z v; applyTo := applyPrice; roundingRule := Some r |}.

End PriceRuleEvaluator.

(** ** JSON values: the payloads typed [any] and [Record<string, any>] *)

Module Json.

#[warnings="-register-all"]
Inductive value : Type :=
| JNull
| JBool (b : bool)
| JNum (n : JS.number)
| JStr (s : string)
| JArr (elems : list value)
| JObj (fields : list (string * value)).

(** [obj[k] = v]: an existing key keeps its place, a new key goes last. *)
Fixpoint set_key (k : string) (v : value) (fields : list (string * value))
  : list (string * value) :=
  match fields with
  | [] => [(k, v)]
  | (k', v') :: rest =>
      if String.eqb k k' then (k, v) :: rest else (k', v') :: set_key k v rest
  end.

Fixpoint indexed {A : Type} (i : nat) (l : list A) : list (string * A) :=
  match l with
  | [] => []
  | x :: rest => (JS.string_of_nat i, x) :: indexed (S i) rest
  end.

Fixpoint chars (s : string) : list value :=
  match s with
  | EmptyString => []
  | String c rest => JStr (String c EmptyString) :: chars rest
  end.

(** The own enumerable properties that [{...v}] copies. *)
Definition own_properties (v : value) : list (string * value) :=
  match v with
  | JObj fields => fields
  | JArr elems => indexed 0 elems
  | JStr s => indexed 0 (chars s)
  | JNull | JBool _ | JNum _ => []
  end.

(** Truthiness of a value, as the conditional operator tests it. *)
Definition truthy_value (v : value) : bool :=
  match v with
  | JNull => false
  | JBool b => b
  | JNum n => JS.truthy n
  | JStr s => negb (String.eqb s "")
  | JArr _ | JObj _ => true
  end.

(** [{ ...base, ...v }]. *)
Definition spread (base : list (string * value)) (v : option value)
  : list (string * value) :=
  match v with
  | Some v => fold_left (fun acc kv => set_key (fst kv) (snd kv) acc)
                        (own_properties v) base
  | None => base
  end.

End Json.

(** ** The history manager (universal-history.ts) *)

Module History.
Import Json.

(** *** The data model *)

Inductive OperationType :=
| product_create | product_update | product_delete | bulk_upload
| bulk_price_update | bulk_discount | image_upload | collection_update.

Inductive Category := product | pricing | images | bulk | collections.

Inductive Status := success | error | warning | pending.

Inductive RollbackType := api_call | batch_operation | file_restore.

Definition OperationType_string (t : OperationType) : string :=
  match t with
  | product_create => "product_create"
  | product_update => "product_update"
  | product_delete => "product_delete"
  | bulk_upload => "bulk_upload"
  | bulk_price_update => "bulk_price_update"
  | bulk_discount => "bulk_discount"
  | image_upload => "image_upload"
  | collection_update => "collection_update"
  end.

Definition Category_string (c : Category) : string :=
  match c with
  | product => "product"
  | pricing => "pricing"
  | images => "images"
  | bulk => "bulk"
  | collections => "collections"
  end.

Definition Status_string (s : Status) : string :=
  match s with
  | success => "success"
  | error => "error"
  | warning => "warning"
  | pending => "pending"
  end.

Record OperationData := {
  action : string;
  oldValues : option value;
  newValues : option value;
  affectedCount : option nat;
  batchId : option string;
  parentBatchId : option string
}.

Record RollbackData := {
  canRollback : bool;
  rollbackType : RollbackType;
  rollbackPayload : option value;
  dependencies : option (list string)
}.

Record BulkOperationSummary := {
  totalItems : nat;
  successfulItems : nat;
  failedItems : nat;
  summaryOperationType : string
}.

(** [originalEntryId] is not in the interface; the rollback entry's
    object literal adds it. *)
Record Metadata := {
  duration : option JS.number;
  errorDetails : option string;
  affectedProducts : option (list string);
  affectedVariants : option (list string);
  fileNames : option (list string);
  imageUrls : option (list string);
  bulkOperationSummary : option BulkOperationSummary;
  originalEntryId : option string
}.

Definition emptyMetadata : Metadata :=
  {| duration := None; errorDetails := None; affectedProducts := None;
     affectedVariants := None; fileNames := None; imageUrls := None;
     bulkOperationSummary := None; originalEntryId := None |}.

(** [Omit<UniversalHistoryEntry, "id" | "timestamp">]. *)
Record EntryInput := {
  operationType : OperationType;
  category : Category;
  productId : option string;
  productTitle : option string;
  variantId : option string;
  variantTitle : option string;
  sku : option string;
  collectionId : option string;
  collectionTitle : option string;
  description : string;
  status : Status;
  operationData : OperationData;
  rollbackData : option RollbackData;
  userAgent : option string;
  ipAddress : option string;
  sessionId : option string;
  metadata : option Metadata
}.

(** [UniversalHistoryEntry]: [{ id, timestamp, ...entry }].  The
    timestamp is kept as the instant (milliseconds) that the ISO string
    denotes. *)
Record UniversalHistoryEntry := {
  id : string;
  timestamp : Z;
  input : EntryInput
}.

Coercion input : UniversalHistoryEntry >-> EntryInput.

Record DateRange := {
  range_start : option Z;   (* [new Date(start)]; [None] is an invalid date *)
  range_end : option Z
}.

Record HistoryFilter := {
  f_category : option string;
  f_operationType : option string;
  f_status : option string;
  f_dateRange : option DateRange;
  f_productId : option string;
  f_searchTerm : option string;
  f_batchId : option string
}.

Record RollbackResult := {
  r_success : bool;
  message : string;
  affectedEntries : list string;
  errors : option (list string)
}.

(** [affectedItems] elements of [createBulkOperation]. *)
Record AffectedItem := {
  i_productId : string;
  i_productTitle : string;
  i_variantId : option string;
  i_variantTitle : option string;
  i_sku : option string;
  i_oldValues : option value;
  i_newValues : option value
}.

(** *** Truthiness and string helpers *)

Definition truthy (s : option string) : bool :=
  match s with
  | Some s => negb (String.eqb s "")
  | None => false
  end.

(** [a === b] for an optional property and a string. *)
Definition same (a : option string) (b : string) : bool :=
  match a with
  | Some a => String.eqb a b
  | None => false
  end.

(** [a || b] on strings. *)
Definition or_else (a : option string) (b : string) : string :=
  match a with
  | Some a => if String.eqb a "" then b else a
  | None => b
  end.

Definition lower (c : ascii) : ascii :=
  let n := nat_of_ascii c in
  if ((65 <=? n) && (n <=? 90))%nat then ascii_of_nat (n + 32) else c.

(** [toLowerCase] on ASCII letters. *)
Fixpoint toLowerCase (s : string) : string :=
  match s with
  | EmptyString => EmptyString
  | String c rest => String (lower c) (toLowerCase rest)
  end.

(** [s.includes(term)]. *)
Fixpoint includes (term s : string) : bool :=
  String.prefix term s ||
  match s with
  | EmptyString => false
  | String _ rest => includes term rest
  end.

Definition list_includes (l : option (list string)) (x : string) : bool :=
  match l with
  | Some l => existsb (String.eqb x) l
  | None => false
  end.

(** *** The environment and the state *)

(** What is thrown: an [Error] object with its name and message, or
    something else with its string form. *)
Inductive Thrown :=
| ErrorObj (name msg : string)
| NonError (text : string).

Definition thrown_string (t : Thrown) : string :=
  match t with
  | ErrorObj name msg => name ++ ": " ++ msg
  | NonError text => text
  end.

Inductive Outcome (A : Type) :=
| Returned (a : A)
| Threw (t : Thrown).
Arguments Returned {A} a.
Arguments Threw {A} t.

(** A settled [fetch]: rejected, or a response with its [ok] flag. *)
Inductive FetchResult :=
| Rejected (t : Thrown)
| Response (ok : bool).

(** The oracles, indexed by the number of reads made so far. *)
Record Env := {
  Date_now : nat -> Z;
  random_suffix : nat -> string;  (* [Math.random().toString(36).substr(2, 9)] *)
  remote : nat -> string -> string -> option value -> FetchResult
}.

(** The entries under [STORAGE_KEY], most recent first, and the number of
    oracle reads. *)
Record World := {
  storage : list UniversalHistoryEntry;
  tick : nat
}.

Definition M (A : Type) : Type := World -> A * World.

Definition ret {A : Type} (a : A) : M A := fun w => (a, w).

Definition bind {A B : Type} (m : M A) (k : A -> M B) : M B :=
  fun w => let (a, w') := m w in k a w'.

Declare Scope hist_scope.
Delimit Scope hist_scope with hist.
Notation "x <- m ;; k" := (bind m (fun x => k))
  (at level 61, m at next level, right associativity) : hist_scope.
Notation "m ;; k" := (bind m (fun _ => k))
  (at level 61, right associativity) : hist_scope.
Local Open Scope hist_scope.

Definition MAX_ENTRIES : nat := 50 * 100.

Section Manager.

Context (env : Env).

Definition now : M Z :=
  fun w => (Date_now env (tick w), {| storage := storage w; tick := S (tick w) |}).

Definition random : M string :=
  fun w => (random_suffix env (tick w),
            {| storage := storage w; tick := S (tick w) |}).

Definition fetch (url method : string) (body : option value) : M FetchResult :=
  fun w => (remote env (tick w) url method body,
            {| storage := storage w; tick := S (tick w) |}).

Definition getAllEntries : M (list UniversalHistoryEntry) :=
  fun w => (storage w, w).

Definition setItem (entries : list UniversalHistoryEntry) : M unit :=
  fun w => (tt, {| storage := entries; tick := tick w |}).

(** [saveEntry]: put first, keep the [MAX_ENTRIES] most recent. *)
Definition saveEntry (entry : UniversalHistoryEntry) : M unit :=
  entries <- getAllEntries ;;
  let entries := entry :: entries in
  let trimmedEntries := firstn MAX_ENTRIES entries in
  setItem trimmedEntries.

Definition createEntry (entry : EntryInput) : M UniversalHistoryEntry :=
  ms <- now ;;
  suffix <- random ;;
  stamp <- now ;;
  let historyEntry :=
    {| id := "hist_" ++ JS.string_of_Z ms ++ "_" ++ suffix;
       timestamp := stamp;
       input := entry |} in
  saveEntry historyEntry ;;
  ret historyEntry.

(** [for (const x of l) body], threading an accumulator. *)
Fixpoint forEach {A S : Type} (l : list A) (body : S -> A -> M S) (s : S) : M S :=
  match l with
  | [] => ret s
  | x :: rest => s' <- body s x ;; forEach rest body s'
  end.

Definition filter_Boolean (l : list (option string)) : list string :=
  flat_map (fun o => match o with
                     | Some s => if String.eqb s "" then [] else [s]
                     | None => []
                     end) l.

Definition mainEntryInput (opType : OperationType) (cat : Category)
    (descr : string) (affectedItems : list AffectedItem)
    (payload : option value) (batch : string) : EntryInput :=
  {| operationType := opType;
     category := cat;
     productId := None; productTitle := None; variantId := None;
     variantTitle := None; sku := None;
     collectionId := None; collectionTitle := None;
     description :=
       descr ++ " (" ++ JS.string_of_nat (List.length affectedItems) ++ " items)";
     status := success;
     operationData :=
       {| action := "bulk_operation";
          oldValues := None; newValues := None;
          affectedCount := Some (List.length affectedItems);
          batchId := Some batch;
          parentBatchId := None |};
     rollbackData :=
       match payload with
       | Some p =>
           if truthy_value p
           then Some {| canRollback := true;
                        rollbackType := batch_operation;
                        rollbackPayload := Some p;
                        dependencies := None |}
           else None
       | None => None
       end;
     userAgent := None; ipAddress := None; sessionId := None;
     metadata :=
       Some {| duration := None; errorDetails := None;
               affectedProducts := Some (map i_productId affectedItems);
               affectedVariants :=
                 Some (filter_Boolean (map i_variantId affectedItems));
               fileNames := None; imageUrls := None;
               bulkOperationSummary :=
                 Some {| totalItems := List.length affectedItems;
                         successfulItems := List.length affectedItems;
                         failedItems := 0;
                         summaryOperationType := OperationType_string opType |};
               originalEntryId := None |} |}.

Definition individualEntryInput (opType : OperationType) (cat : Category)
    (descr : string) (batch : string) (item : AffectedItem) : EntryInput :=
  {| operationType := opType;
     category := cat;
     productId := Some (i_productId item);
     productTitle := Some (i_productTitle item);
     variantId := i_variantId item;
     variantTitle := i_variantTitle item;
     sku := i_sku item;
     collectionId := None; collectionTitle := None;
     description :=
       descr ++ ": " ++ i_productTitle item ++
       (if truthy (i_variantTitle item)
        then " - " ++ or_else (i_variantTitle item) ""
        else "");
     status := success;
     operationData :=
       {| action := "individual_item_in_bulk";
          oldValues := i_oldValues item;
          newValues := i_newValues item;
          affectedCount := None;
          batchId := Some batch;
          parentBatchId := Some batch |};
     rollbackData :=
       Some {| canRollback := true;
               rollbackType := api_call;
               rollbackPayload :=
                 Some (JObj (spread
                   [("id", JStr (or_else (i_variantId item) (i_productId item)))]
                   (i_oldValues item)));
               dependencies := None |};
     userAgent := None; ipAddress := None; sessionId := None;
     metadata := None |}.

Definition createBulkOperation (opType : OperationType) (cat : Category)
    (descr : string) (affectedItems : list AffectedItem)
    (payload : option value)
  : M (string * list UniversalHistoryEntry) :=
  ms <- now ;;
  suffix <- random ;;
  let batch := "batch_" ++ JS.string_of_Z ms ++ "_" ++ suffix in
  mainEntry <- createEntry (mainEntryInput opType cat descr affectedItems payload batch) ;;
  let entries := [mainEntry] in
  entries <- forEach affectedItems
               (fun entries item =>
                  individualEntry <-
                    createEntry (individualEntryInput opType cat descr batch item) ;;
                  ret (entries ++ [individualEntry])%list)
               entries ;;
  ret (batch, entries).

(** *** Queries *)

Definition in_range (range : DateRange) (entry : UniversalHistoryEntry) : bool :=
  match range_start range, range_end range with
  | Some s, Some e => (s <=? timestamp entry)%Z && (timestamp entry <=? e)%Z
  | _, _ => false
  end.

Definition matches_product (p : string) (entry : UniversalHistoryEntry) : bool :=
  same (productId entry) p ||
  match metadata entry with
  | Some m => list_includes (affectedProducts m) p
  | None => false
  end.

Definition matches_batch (b : string) (entry : UniversalHistoryEntry) : bool :=
  same (batchId (operationData entry)) b ||
  same (parentBatchId (operationData entry)) b.

Definition matches_term (term : string) (entry : UniversalHistoryEntry) : bool :=
  includes term (toLowerCase (description entry)) ||
  match productTitle entry with
  | Some t => includes term (toLowerCase t)
  | None => false
  end ||
  match sku entry with
  | Some s => includes term (toLowerCase s)
  | None => false
  end.

(** [if (filter.x) entries = entries.filter(p)]. *)
Definition when {A : Type} (f : option string) (p : string -> A -> bool)
    (entries : list A) : list A :=
  match f with
  | Some x => if truthy f then filter (p x) entries else entries
  | None => entries
  end.

Definition getFilteredEntries (f : HistoryFilter) : M (list UniversalHistoryEntry) :=
  entries <- getAllEntries ;;
  let entries :=
    when (f_category f)
         (fun c (entry : UniversalHistoryEntry) => String.eqb (Category_string (category entry)) c) entries in
  let entries :=
    when (f_operationType f)
         (fun t (entry : UniversalHistoryEntry) => String.eqb (OperationType_string (operationType entry)) t)
         entries in
  let entries :=
    when (f_status f)
         (fun s (entry : UniversalHistoryEntry) => String.eqb (Status_string (status entry)) s) entries in
  let entries := when (f_productId f) matches_product entries in
  let entries := when (f_batchId f) matches_batch entries in
  let entries :=
    when (f_searchTerm f) (fun t => matches_term (toLowerCase t)) entries in
  let entries :=
    match f_dateRange f with
    | Some range => filter (in_range range) entries
    | None => entries
    end in
  ret entries.

Definition getProductHistory (p : string) : M (list UniversalHistoryEntry) :=
  entries <- getAllEntries ;; ret (filter (matches_product p) entries).

Definition getBatchHistory (b : string) : M (list UniversalHistoryEntry) :=
  entries <- getAllEntries ;; ret (filter (matches_batch b) entries).

Definition getBulkOperations : M (list UniversalHistoryEntry) :=
  entries <- getAllEntries ;;
  ret (filter (fun entry : UniversalHistoryEntry => String.eqb (action (operationData entry)) "bulk_operation")
              entries).

Definition getBulkOperationItems (b : string) : M (list UniversalHistoryEntry) :=
  entries <- getAllEntries ;;
  ret (filter (fun entry : UniversalHistoryEntry => same (parentBatchId (operationData entry)) b) entries).

(** *** What the oracles make of a call

    The entry that [createEntry] builds when it starts at tick [t], the
    batch id that [createBulkOperation] draws at tick [t], and the entries
    that consecutive [createEntry] calls build from tick [t] on. *)

Definition entryAt (t : nat) (entry : EntryInput) : UniversalHistoryEntry :=
  {| id := "hist_" ++ JS.string_of_Z (Date_now env t) ++ "_"
           ++ random_suffix env (S t);
     timestamp := Date_now env (S (S t));
     input := entry |}.

Definition batchIdAt (t : nat) : string :=
  "batch_" ++ JS.string_of_Z (Date_now env t) ++ "_" ++ random_suffix env (S t).

Fixpoint entriesFrom (t : nat) (inputs : list EntryInput)
  : list UniversalHistoryEntry :=
  match inputs with
  | [] => []
  | entry :: rest => entryAt t entry :: entriesFrom (3 + t) rest
  end.

(** [{ batchId: b }]. *)
Definition batchFilter (b : string) : HistoryFilter :=
  {| f_category := None; f_operationType := None; f_status := None;
     f_dateRange := None; f_productId := None; f_searchTerm := None;
     f_batchId := Some b |}.

Definition isAggregate (entry : UniversalHistoryEntry) : bool :=
  String.eqb (action (operationData entry)) "bulk_operation".

Definition isChild (entry : UniversalHistoryEntry) : bool :=
  String.eqb (action (operationData entry)) "individual_item_in_bulk".

(** What every child entry of a batch looks like. *)
Definition childShape (batch : string) (e : UniversalHistoryEntry) : Prop :=
  action (operationData e) = "individual_item_in_bulk"
  /\ batchId (operationData e) = Some batch
  /\ parentBatchId (operationData e) = Some batch
  /\ status e = success
  /\ metadata e = None.

(** *** Rollback *)

(** [try { body } catch (error) { handler }]. *)
Definition try_catch {A : Type} (body : M (Outcome A))
    (handler : Thrown -> M (Outcome A)) : M (Outcome A) :=
  r <- body ;;
  match r with
  | Returned a => ret (Returned a)
  | Threw t => handler t
  end.

(** Sequencing of computations that may throw. *)
Definition and_then {A B : Type} (m : M (Outcome A)) (k : A -> M (Outcome B))
  : M (Outcome B) :=
  r <- m ;;
  match r with
  | Returned a => k a
  | Threw t => ret (Threw t)
  end.

(** [await fetch(url, { method, body })] followed by the test of
    [response.ok]. *)
Definition rollbackCall (entry : UniversalHistoryEntry) (url method : string)
    (payload : option value) (done failed : string) : M (Outcome RollbackResult) :=
  response <- fetch url method payload ;;
  match response with
  | Rejected t => ret (Threw t)
  | Response true =>
      ret (Returned {| r_success := true; message := done;
                       affectedEntries := [id entry]; errors := None |})
  | Response false => ret (Threw (ErrorObj "Error" failed))
  end.

Definition executeApiRollback (entry : UniversalHistoryEntry)
  : M (Outcome RollbackResult) :=
  match rollbackData entry with
  | None =>
      (* destructuring [entry.rollbackData!] when it is undefined *)
      ret (Threw (ErrorObj "TypeError" "Cannot destructure property 'rollbackPayload'"))
  | Some data =>
      let payload := rollbackPayload data in
      match operationType entry with
      | product_update =>
          rollbackCall entry "/api/products" "PUT" payload
            "Product successfully rolled back" "Failed to rollback product"
      | bulk_price_update =>
          rollbackCall entry "/api/bulk-price-rollback" "POST" payload
            "Bulk price update successfully rolled back"
            "Failed to rollback bulk price update"
      | bulk_discount =>
          rollbackCall entry "/api/rollback-discount-enhanced" "POST" payload
            "Bulk discount successfully rolled back"
            "Failed to rollback bulk discount"
      | other =>
          ret (Threw (ErrorObj "Error"
                 ("Rollback not implemented for " ++ OperationType_string other)))
      end
  end.

(** [getBulkOperationItems(entry.operationData.batchId!)]: with no batch id
    the comparison is [parentBatchId === undefined]. *)
Definition batchItemsOf (entry : UniversalHistoryEntry)
  : M (list UniversalHistoryEntry) :=
  match batchId (operationData entry) with
  | Some b => getBulkOperationItems b
  | None =>
      entries <- getAllEntries ;;
      ret (filter (fun e : UniversalHistoryEntry =>
                     match parentBatchId (operationData e) with
                     | None => true
                     | Some _ => false
                     end) entries)
  end.

Definition executeBatchRollback (entry : UniversalHistoryEntry)
  : M (Outcome RollbackResult) :=
  batchEntries <- batchItemsOf entry ;;
  acc <- forEach batchEntries
           (fun (acc : list string * list string) batchEntry =>
              let (results, errs) := acc in
              r <- executeApiRollback batchEntry ;;
              match r with
              | Returned result =>
                  if r_success result
                  then ret ((results ++ affectedEntries result)%list, errs)
                  else ret (results,
                            (errs ++ [("Failed to rollback " ++ id batchEntry ++ ": "
                                       ++ message result)%string])%list)
              | Threw t =>
                  ret (results,
                       (errs ++ [("Error rolling back " ++ id batchEntry ++ ": "
                                  ++ thrown_string t)%string])%list)
              end)
           ([], []) ;;
  let (results, errs) := acc in
  ret (Returned
         {| r_success := (List.length errs =? 0)%nat;
            message :=
              "Rolled back " ++ JS.string_of_nat (List.length results) ++ " operations"
              ++ (if (0 <? List.length errs)%nat
                  then " with " ++ JS.string_of_nat (List.length errs) ++ " errors"
                  else "");
            affectedEntries := results;
            errors := if (0 <? List.length errs)%nat then Some errs else None |}).

Definition executeFileRollback (entry : UniversalHistoryEntry)
  : M (Outcome RollbackResult) :=
  ret (Threw (ErrorObj "Error" "File rollback not yet implemented")).

Definition executeRollback (entry : UniversalHistoryEntry)
  : M (Outcome RollbackResult) :=
  match rollbackData entry with
  | Some data =>
      match rollbackType data with
      | api_call => executeApiRollback entry
      | batch_operation => executeBatchRollback entry
      | file_restore => executeFileRollback entry
      end
  | None => ret (Threw (ErrorObj "Error" "Unknown rollback type"))
  end.

(** The entry that records a rollback of [entry]. *)
Definition rollbackEntryInput (entry : UniversalHistoryEntry) (entryId : string)
  : EntryInput :=
  {| operationType := operationType entry;
     category := category entry;
     productId := productId entry;
     productTitle := productTitle entry;
     variantId := variantId entry;
     variantTitle := variantTitle entry;
     sku := sku entry;
     collectionId := None; collectionTitle := None;
     description := "Rolled back: " ++ description entry;
     status := success;
     operationData :=
       {| action := "rollback";
          oldValues := newValues (operationData entry);
          newValues := oldValues (operationData entry);
          affectedCount := None;
          batchId := batchId (operationData entry);
          parentBatchId := None |};
     rollbackData :=
       Some {| canRollback := false; rollbackType := api_call;
               rollbackPayload := None; dependencies := None |};
     userAgent := None; ipAddress := None; sessionId := None;
     metadata :=
       let m := match metadata entry with
                | Some m => m
                | None => emptyMetadata
                end in
       Some {| duration := duration m; errorDetails := errorDetails m;
               affectedProducts := affectedProducts m;
               affectedVariants := affectedVariants m;
               fileNames := fileNames m; imageUrls := imageUrls m;
               bulkOperationSummary := bulkOperationSummary m;
               originalEntryId := Some entryId |} |}.

Definition failure (msg : string) : RollbackResult :=
  {| r_success := false; message := msg; affectedEntries := []; errors := None |}.

(** [entry.rollbackData?.canRollback]. *)
Definition mayRollback (entry : UniversalHistoryEntry) : bool :=
  match rollbackData entry with
  | Some data => canRollback data
  | None => false
  end.

(** The entry looked up by [rollbackOperation]. *)
Definition lookup (entryId : string) (w : World) : option UniversalHistoryEntry :=
  find (fun e : UniversalHistoryEntry => String.eqb (id e) entryId) (storage w).

Definition rollbackOperation (entryId : string) : M (Outcome RollbackResult) :=
  entries <- getAllEntries ;;
  match find (fun e => String.eqb (id e) entryId) entries with
  | None => ret (Returned (failure "History entry not found"))
  | Some entry =>
      if negb (mayRollback entry)
      then ret (Returned (failure "This operation cannot be rolled back"))
      else
        try_catch
          (and_then (executeRollback entry)
             (fun result =>
                (if r_success result
                 then createEntry (rollbackEntryInput entry entryId) ;; ret tt
                 else ret tt) ;;
                ret (Returned result)))
          (fun error =>
             ret (Returned (failure match error with
                                    | ErrorObj _ msg => msg
                                    | NonError _ => "Rollback failed"
                                    end)))
  end.

End Manager.

End History.

(** ** The storage slot as text (universal-history.ts)

    [History.World] keeps the array that the text under [STORAGE_KEY]
    denotes.  This module is the same store one level down: the slot holds
    a string, and [JSON.parse] and [JSON.stringify] are the runtime's. *)

Module LocalStorage.
Import Json.

Section Codec.

(** [JSON.parse]: [None] when it throws a SyntaxError. *)
Context (JSON_parse : string -> option value).
Context (JSON_stringify : value -> string).

(** [localStorage.getItem(STORAGE_KEY)]: [None] is JavaScript's null. *)
Definition Slot : Type := option string.

(** [stored ? JSON.parse(stored) : []], and [[]] when the parse throws. *)
Definition getAllEntries (slot : Slot) : value :=
  match slot with
  | Some stored =>
      if String.eqb stored "" then JArr []
      else match JSON_parse stored with
           | Some entries => entries
           | None => JArr []
           end
  | None => JArr []
  end.

(** [saveEntry]; [unshift] on a value that is not an array throws. *)
Definition saveEntry (entry : value) (slot : Slot) : History.Outcome Slot :=
  match getAllEntries slot with
  | JArr entries =>
      let entries := entry :: entries in
      let trimmedEntries := firstn History.MAX_ENTRIES entries in
      History.Returned (Some (JSON_stringify (JArr trimmedEntries)))
  | _ =>
      History.Threw (History.ErrorObj "TypeError" "entries.unshift is not a function")
  end.

Definition clearHistory (slot : Slot) : Slot := None.

Definition importHistory (jsonData : string) (slot : Slot) : bool * Slot :=
  match JSON_parse jsonData with
  | Some (JArr _) => (true, Some jsonData)
  | Some _ => (false, slot)
  | None => (false, slot)
  end.

(** The typed store of [History.World] is the array in the slot, each
    entry seen through its JSON object [encode entry]. *)
Definition denotes (encode : History.UniversalHistoryEntry -> value)
    (slot : Slot) (entries : list History.UniversalHistoryEntry) : Prop :=
  getAllEntries slot = JArr (map encode entries).

End Codec.

(** A parser that knows three texts; enough to run [importHistory]. *)
Definition sample_parse (s : string) : option value :=
  if String.eqb s "[]" then Some (JArr [])
  else if String.eqb s "[1,null]" then Some (JArr [JNum (JS.of_Z 1); JNull])
  else if String.eqb s "{}" then Some (JObj [])
  else None.

Definition sample_stringify (v : value) : string :=
  match v with
  | JArr [] => "[]"
  | JArr [JNum _; JNull] => "[1,null]"
  | _ => "{}"
  end.

End LocalStorage.

(** ** Applying a bulk discount (bulk-discount-system.tsx) *)

Module Discount.
Import Json History.

(** The fields of an element of [allVariants] that [applyDiscount] reads. *)
Record Variant := {
  v_id : string;
  v_title : string;
  v_price : string;
  v_compareAtPrice : option string;
  v_sku : string;
  v_productId : string;
  v_productTitle : string
}.

Record DiscountResult := {
  variantId : string;
  productTitle : string;
  variantTitle : string;
  success : bool;
  error : option string;
  originalPrice : string;
  newPrice : string;
  compareAtPrice : string
}.

(** The body posted to [/api/apply-discount].  The percentage is kept as
    the whole number that the form asks for ("between 1 and 99"). *)
Record Request := {
  variantIds : list string;
  req_discountPercentage : Z;
  req_expiryDate : option string
}.

(** What [fetch] followed by [response.json()] gives: a throw, or the
    [ok] flag with the [results] and [error] members of the body. *)
Inductive ApiOutcome :=
| ApiThrew (t : Thrown)
| ApiReplied (ok : bool) (results : option (list DiscountResult))
             (err : option string).

Record Env := {
  history_env : History.Env;
  apply_discount : nat -> Request -> ApiOutcome;
  Date_parse : string -> option Z    (* [new Date(s)]; [None] is an invalid date *)
}.

Inductive MessageType := msg_success | msg_error | msg_info.

(** The observable steps of a run.  Texts are without the leading emoji,
    and the success message is without its locale-formatted expiry. *)
Inductive Event :=
| SetIsApplying (b : bool)
| SetIsProcessing (b : bool)
| SetMessage (m : option (MessageType * string))
| SetResults (results : list DiscountResult)
| SetProgress (total completed successful failed : nat) (current : string)
| SetCurrent (current : string)
| Dispatch (batchIndex : nat) (variant : string)
| Joined (batchIndex : nat)
| Sleep (ms : Z)
| FetchUpdatedProducts
| SetSelectedVariants (ids : list string).

Record State := {
  world : History.World;
  trace : list Event
}.

Definition D (A : Type) : Type := State -> A * State.

Definition dret {A : Type} (a : A) : D A := fun s => (a, s).

Definition dbind {A B : Type} (m : D A) (k : A -> D B) : D B :=
  fun s => let (a, s') := m s in k a s'.

Declare Scope discount_scope.
Delimit Scope discount_scope with discount.
Notation "x <- m ;; k" := (dbind m (fun x => k))
  (at level 61, m at next level, right associativity) : discount_scope.
Notation "m ;; k" := (dbind m (fun _ => k))
  (at level 61, right associativity) : discount_scope.
Local Open Scope discount_scope.

Definition emit (e : Event) : D unit :=
  fun s => (tt, {| world := world s; trace := (trace s ++ [e])%list |}).

Definition lift {A : Type} (m : History.M A) : D A :=
  fun s => let (a, w) := m (world s) in (a, {| world := w; trace := trace s |}).

(** [for (const x of l) body], threading an accumulator. *)
Fixpoint dforEach {A S : Type} (l : list A) (body : S -> A -> D S) (s : S) : D S :=
  match l with
  | [] => dret s
  | x :: rest => s' <- body s x ;; dforEach rest body s'
  end.

(** [l.map(f)] for an effectful [f], left to right. *)
Fixpoint dmap {A B : Type} (f : A -> D B) (l : list A) : D (list B) :=
  match l with
  | [] => dret []
  | x :: rest => y <- f x ;; ys <- dmap f rest ;; dret (y :: ys)
  end.

(** [l.slice(a, b)] for [0 <= a]. *)
Definition slice {A : Type} (a b : nat) (l : list A) : list A :=
  firstn (b - a) (skipn a l).

(** [for (let i = start; i < l.length; i += batchSize)
      batches.push(l.slice(i, i + batchSize))];
    [None] when the fuel runs out. *)
Fixpoint makeBatches {A : Type} (fuel : nat) (batchSize : nat) (l : list A)
    (i : nat) (batches : list (list A)) : option (list (list A)) :=
  if (i <? List.length l)%nat then
    match fuel with
    | O => None
    | S fuel' =>
        makeBatches fuel' batchSize l (i + batchSize)
                    (batches ++ [slice i (i + batchSize) l])%list
    end
  else Some batches.

Record ItemOutcome := {
  result : DiscountResult;
  o_success : bool;
  displayName : string
}.

Record Tally := {
  allResults : list DiscountResult;
  completed : nat;
  successful : nat;
  failed : nat
}.

(** How [applyDiscount] ends. *)
Inductive Ending :=
| Refused            (* a validation message, nothing started *)
| Finished (t : Tally)
| OutOfFuel.

Section Apply.

Context (env : Env).
Context (selectedVariants : list string).
Context (discountPercentage : Z).
Context (expiryDate : string).
Context (allVariants : list Variant).

(** The two constants of [applyDiscount]: [const batchSize = 2] and the
    1100 of [setTimeout(resolve, 1100)]. *)
Context (batchSize : nat).
Context (pauseMs : Z).

Definition callApi (r : Request) : D ApiOutcome :=
  fun s =>
    (apply_discount env (tick (world s)) r,
     {| world := {| storage := storage (world s); tick := S (tick (world s)) |};
        trace := trace s |}).

Definition findVariant (variant : string) : option Variant :=
  find (fun v => String.eqb (v_id v) variant) allVariants.

Definition nonEmpty (s fallback : string) : string :=
  if String.eqb s "" then fallback else s.

Definition failedResult (variant : string) (found : option Variant)
    (err : string) : DiscountResult :=
  {| variantId := variant;
     productTitle :=
       match found with
       | Some v => nonEmpty (v_productTitle v) "Unknown Product"
       | None => "Unknown Product"
       end;
     variantTitle :=
       match found with
       | Some v => nonEmpty (v_title v) "Unknown Variant"
       | None => "Unknown Variant"
       end;
     success := false;
     error := Some err;
     originalPrice :=
       match found with
       | Some v => nonEmpty (v_price v) "0.00"
       | None => "0.00"
       end;
     newPrice := "0.00";
     compareAtPrice := "0.00" |}.

Definition requestFor (variant : string) : Request :=
  {| variantIds := [variant];
     req_discountPercentage := discountPercentage;
     req_expiryDate := if String.eqb expiryDate "" then None else Some expiryDate |}.

(** What the callback of [batch.map] returns for a settled call. *)
Definition settle (variant : string) (reply : ApiOutcome) : ItemOutcome :=
  let found := findVariant variant in
  let name :=
    match found with
    | Some v => v_productTitle v ++ " - " ++ v_title v
    | None => "Variant"
    end in
  match reply with
  | ApiReplied true (Some (r :: _)) _ =>
      {| result := r; o_success := success r; displayName := name |}
  | ApiReplied _ _ err =>
      {| result := failedResult variant found (or_else err "API request failed");
         o_success := false; displayName := name |}
  | ApiThrew t =>
      {| result := failedResult variant found
                     match t with
                     | ErrorObj _ msg => msg
                     | NonError _ => "Processing failed"
                     end;
         o_success := false; displayName := name |}
  end.

(** The [async (variantId) => ...] callback of [batch.map]. *)
Definition processVariant (batchIndex : nat) (variant : string) : D ItemOutcome :=
  emit (Dispatch batchIndex variant) ;;
  reply <- callApi (requestFor variant) ;;
  dret (settle variant reply).

(** The counters after one more outcome. *)
Definition count (t : Tally) (o : ItemOutcome) : Tally :=
  {| allResults := (allResults t ++ [result o])%list;
     completed := S (completed t);
     successful := if o_success o then S (successful t) else successful t;
     failed := if o_success o then failed t else S (failed t) |}.

(** The body of [batchResults.forEach]. *)
Definition recordOutcome (t : Tally) (o : ItemOutcome) : D Tally :=
  let t' := count t o in
  emit (SetProgress (List.length selectedVariants) (completed t') (successful t')
                    (failed t') ("Completed: " ++ displayName o)) ;;
  emit (SetResults (allResults t')) ;;
  dret t'.

(** One turn of [for (let batchIndex = 0; batchIndex < batches.length;
    batchIndex++)]; [count] is [batches.length]. *)
Definition processBatch (count batchIndex : nat) (batch : list string)
    (t : Tally) : D Tally :=
  emit (SetCurrent ("Processing batch " ++ JS.string_of_nat (batchIndex + 1) ++ "/"
                    ++ JS.string_of_nat count ++ " ("
                    ++ JS.string_of_nat (List.length batch) ++ " items)...")) ;;
  batchResults <- dmap (processVariant batchIndex) batch ;;
  emit (Joined batchIndex) ;;
  t' <- dforEach batchResults recordOutcome t ;;
  (if (batchIndex <? count - 1)%nat then emit (Sleep pauseMs) else dret tt) ;;
  dret t'.

(** The loop over [batches], at index [batchIndex] with [rest] still to
    run. *)
Fixpoint processBatches (count batchIndex : nat) (rest : list (list string))
    (t : Tally) : D Tally :=
  match rest with
  | [] => dret t
  | batch :: rest' =>
      t' <- processBatch count batchIndex batch t ;;
      processBatches count (S batchIndex) rest' t'
  end.

Definition opt_string (s : option string) : value :=
  match s with
  | Some s => if String.eqb s "" then JNull else JStr s
  | None => JNull
  end.

Definition affectedItem (r : DiscountResult) : AffectedItem :=
  let found := findVariant (variantId r) in
  {| i_productId := match found with Some v => v_productId v | None => "" end;
     i_productTitle := productTitle r;
     i_variantId := Some (variantId r);
     i_variantTitle := Some (variantTitle r);
     i_sku := Some (match found with Some v => v_sku v | None => "" end);
     i_oldValues :=
       Some (JObj [("price", JStr (originalPrice r));
                   ("compareAtPrice",
                    opt_string match found with
                               | Some v => v_compareAtPrice v
                               | None => None
                               end)]);
     i_newValues :=
       Some (JObj [("price", JStr (newPrice r));
                   ("compareAtPrice", JStr (compareAtPrice r));
                   ("discountPercentage", JNum (JS.of_Z discountPercentage))]) |}.

Definition rollbackPayloadOf : value :=
  JObj [("variantIds", JArr (map JStr selectedVariants));
        ("originalDiscountPercentage", JNum (JS.of_Z discountPercentage));
        ("expiryDate", opt_string (Some expiryDate))].

Definition finalMessage (t : Tally) : MessageType * string :=
  if (failed t =? 0)%nat then
    (msg_success,
     "Successfully applied " ++ JS.string_of_Z discountPercentage
     ++ "% discount to all " ++ JS.string_of_nat (successful t) ++ " variants!")
  else if (0 <? successful t)%nat then
    (msg_info,
     "Applied discount to " ++ JS.string_of_nat (successful t) ++ " variants. "
     ++ JS.string_of_nat (failed t)
     ++ " failed - see failed products below for details.")
  else
    (msg_error,
     "All " ++ JS.string_of_nat (failed t)
     ++ " variants failed to update. Check failed products below for details.").

(** [expiryDate && new Date(expiryDate) <= new Date()]. *)
Definition expired : D bool :=
  if String.eqb expiryDate "" then dret false
  else
    current <- lift (History.now (history_env env)) ;;
    match Date_parse env expiryDate with
    | Some t => dret (t <=? current)%Z
    | None => dret false
    end.

Definition applyDiscountWith : D Ending :=
  if (List.length selectedVariants =? 0)%nat then
    emit (SetMessage (Some (msg_error,
            "Please select at least one variant to apply discount."))) ;;
    dret Refused
  else if ((discountPercentage <=? 0) || (100 <=? discountPercentage))%Z then
    emit (SetMessage (Some (msg_error,
            "Please enter a valid discount percentage between 1 and 99."))) ;;
    dret Refused
  else
    late <- expired ;;
    if late then
      emit (SetMessage (Some (msg_error, "Expiry date must be in the future."))) ;;
      dret Refused
    else
      emit (SetIsApplying true) ;;
      emit (SetIsProcessing true) ;;
      emit (SetMessage None) ;;
      emit (SetResults []) ;;
      emit (SetProgress (List.length selectedVariants) 0 0 0
                        "Starting parallel processing...") ;;
      match makeBatches (List.length selectedVariants) batchSize selectedVariants 0 [] with
      | None => dret OutOfFuel
      | Some batches =>
          t <- processBatches (List.length batches) 0 batches
                 {| allResults := []; completed := 0; successful := 0; failed := 0 |} ;;
          emit (SetProgress (List.length selectedVariants)
                  (List.length selectedVariants) (successful t) (failed t)
                  ("All " ++ JS.string_of_nat (List.length selectedVariants)
                   ++ " items processed! " ++ JS.string_of_nat (successful t)
                   ++ " successful, " ++ JS.string_of_nat (failed t) ++ " failed")) ;;
          let affectedItems :=
            map affectedItem (filter success (allResults t)) in
          (if (0 <? List.length affectedItems)%nat
           then
             lift (History.createBulkOperation (history_env env)
                     bulk_discount pricing
                     ("Bulk Discount Applied: " ++ JS.string_of_Z discountPercentage
                      ++ "% off")
                     affectedItems (Some rollbackPayloadOf)) ;;
             dret tt
           else dret tt) ;;
          emit (SetMessage (Some (finalMessage t))) ;;
          emit FetchUpdatedProducts ;;
          emit (SetSelectedVariants []) ;;
          emit (SetIsApplying false) ;;   (* [finally]; its timer is not modelled *)
          dret (Finished t)
      end.

(** *** What the oracles make of a run *)

(** The outcome of the call dispatched at tick [t]. *)
Definition outcomeAt (t : nat) (variant : string) : ItemOutcome :=
  settle variant (apply_discount env t (requestFor variant)).

Fixpoint outcomesFrom (t : nat) (variants : list string) : list ItemOutcome :=
  match variants with
  | [] => []
  | v :: rest => outcomeAt t v :: outcomesFrom (S t) rest
  end.

Definition startTally : Tally :=
  {| allResults := []; completed := 0; successful := 0; failed := 0 |}.

Fixpoint progressEvents (t : Tally) (outcomes : list ItemOutcome) : list Event :=
  match outcomes with
  | [] => []
  | o :: rest =>
      let t' := count t o in
      SetProgress (List.length selectedVariants) (completed t') (successful t')
                  (failed t') ("Completed: " ++ displayName o)
      :: SetResults (allResults t')
      :: progressEvents t' rest
  end.

(** The events of one group, started at tick [tk] with the tally [t]. *)
Definition batchEvents (total batchIndex : nat) (batch : list string)
    (tk : nat) (t : Tally) : list Event :=
  (SetCurrent ("Processing batch " ++ JS.string_of_nat (batchIndex + 1) ++ "/"
               ++ JS.string_of_nat total ++ " ("
               ++ JS.string_of_nat (List.length batch) ++ " items)...")
   :: map (Dispatch batchIndex) batch
   ++ Joined batchIndex
   :: progressEvents t (outcomesFrom tk batch)
   ++ (if (batchIndex <? total - 1)%nat then [Sleep pauseMs] else []))%list.

Fixpoint batchesEvents (total batchIndex : nat) (rest : list (list string))
    (tk : nat) (t : Tally) : list Event :=
  match rest with
  | [] => []
  | batch :: rest' =>
      (batchEvents total batchIndex batch tk t
       ++ batchesEvents total (S batchIndex) rest' (List.length batch + tk)
            (fold_left count (outcomesFrom tk batch) t))%list
  end.

End Apply.

(** [applyDiscount], with its constants. *)
Definition applyDiscount (env : Env) (selectedVariants : list string)
    (discountPercentage : Z) (expiryDate : string) (allVariants : list Variant)
  : D Ending :=
  applyDiscountWith env selectedVariants discountPercentage expiryDate
                    allVariants 2 1100.

(** *** The schedule of a run, in the specification's words

    Groups are taken in order; the items of a group are dispatched, then
    the whole group is awaited; after every group but the last there is a
    pause of [pause] milliseconds. *)

Definition isSchedule (e : Event) : bool :=
  match e with
  | Dispatch _ _ | Joined _ | Sleep _ => true
  | _ => false
  end.

Definition isSleep (e : Event) : bool :=
  match e with
  | Sleep _ => true
  | _ => false
  end.

Definition isDispatch (e : Event) : bool :=
  match e with
  | Dispatch _ _ => true
  | _ => false
  end.

(** The variants whose calls were dispatched, in order. *)
Definition dispatched (evs : list Event) : list string :=
  flat_map (fun e => match e with
                     | Dispatch _ v => [v]
                     | _ => []
                     end) evs.

Fixpoint expectedSchedule (pause : Z) (k : nat) (groups : list (list string))
  : list Event :=
  match groups with
  | [] => []
  | g :: rest =>
      (map (Dispatch k) g ++ Joined k ::
       match rest with
       | [] => []
       | _ :: _ => Sleep pause :: expectedSchedule pause (S k) rest
       end)%list
  end.

(** Every group has [size] items, except that the last may have fewer
    (and at least one). *)
Fixpoint fullButLast {A : Type} (size : nat) (groups : list (list A)) : Prop :=
  match groups with
  | [] => True
  | g :: rest =>
      match rest with
      | [] => 1 <= List.length g <= size
      | _ :: _ => List.length g = size /\ fullButLast size rest
      end
  end.

(** [ceil(n / size)]. *)
Definition ceilDiv (n size : nat) : nat := (n + size - 1) / size.

End Discount.

(** ** Sample environments and stores *)

Module Samples.
Import Json History.

(** A remote store that accepts every call. *)
Definition sampleEnv : Env :=
  {| Date_now := fun t => (1700000000000 + Z.of_nat t)%Z;
     random_suffix := fun t => "k3j9x2m1" ++ JS.string_of_nat t;
     remote := fun _ _ _ _ => Response true |}.

Definition emptyWorld : World := {| storage := []; tick := 0 |}.

Definition item (n : string) : AffectedItem :=
  {| i_productId := "p" ++ n;
     i_productTitle := "Ring " ++ n;
     i_variantId := Some ("v" ++ n);
     i_variantTitle := Some "Gold";
     i_sku := Some ("SKU-" ++ n);
     i_oldValues := Some (JObj [("price", JStr "100.00")]);
     i_newValues := Some (JObj [("price", JStr "80.00")]) |}.

(** The entry that [createProductHistoryEntry] records. *)
Definition productEntry (entryId : string) : UniversalHistoryEntry :=
  {| id := entryId;
     timestamp := 1699999999000;
     input :=
       {| operationType := product_update;
          category := product;
          productId := Some "p1"; productTitle := Some "Ring 1";
          variantId := None; variantTitle := None; sku := None;
          collectionId := None; collectionTitle := None;
          description := "Update: Ring 1";
          status := success;
          operationData :=
            {| action := "Update";
               oldValues := Some (JObj [("title", JStr "Ring")]);
               newValues := Some (JObj [("title", JStr "Ring 1")]);
               affectedCount := None; batchId := None; parentBatchId := None |};
          rollbackData :=
            Some {| canRollback := true; rollbackType := api_call;
                    rollbackPayload :=
                      Some (JObj [("id", JStr "p1"); ("title", JStr "Ring")]);
                    dependencies := None |};
          userAgent := None; ipAddress := None; sessionId := None;
          metadata := None |} |}.

(** The entry that [createImageHistoryEntry] records. *)
Definition imageEntry (entryId : string) (may : bool) : UniversalHistoryEntry :=
  {| id := entryId;
     timestamp := 1699999998000;
     input :=
       {| operationType := image_upload;
          category := images;
          productId := Some "p1"; productTitle := Some "Ring 1";
          variantId := None; variantTitle := None; sku := None;
          collectionId := None; collectionTitle := None;
          description := "Upload: 1 images for Ring 1";
          status := success;
          operationData :=
            {| action := "Upload";
               oldValues := None; newValues := None;
               affectedCount := Some 1; batchId := None; parentBatchId := None |};
          rollbackData :=
            Some {| canRollback := may; rollbackType := file_restore;
                    rollbackPayload := None; dependencies := None |};
          userAgent := None; ipAddress := None; sessionId := None;
          metadata :=
            Some {| duration := None; errorDetails := None;
                    affectedProducts := None; affectedVariants := None;
                    fileNames := None; imageUrls := Some ["https://cdn/x.png"];
                    bulkOperationSummary := None; originalEntryId := None |} |} |}.


Definition smallWorld : World :=
  {| storage := [imageEntry "hist_b" true; productEntry "hist_a";
                 imageEntry "hist_c" false];
     tick := 0 |}.

End Samples.

Module DiscountSamples.
Import Json History Discount Samples.

Definition okResult (v : string) : DiscountResult :=
  {| variantId := v; productTitle := "Ring"; variantTitle := "Gold";
     success := true; error := None;
     originalPrice := "100.00"; newPrice := "80.00"; compareAtPrice := "100.00" |}.

(** A remote store where the variant "v3" always fails. *)
Definition thirdFails : Discount.Env :=
  {| history_env := sampleEnv;
     apply_discount :=
       fun _ r =>
         match variantIds r with
         | [v] => if String.eqb v "v3"
                  then ApiReplied false None (Some "Too many requests")
                  else ApiReplied true (Some [okResult v]) None
         | _ => ApiReplied false None None
         end;
     Date_parse := fun _ => None |}.

Definition fiveVariants : list string := ["v1"; "v2"; "v3"; "v4"; "v5"].

Definition startState : State := {| world := emptyWorld; trace := [] |}.

Definition hasStatus (st : Status) (e : UniversalHistoryEntry) : bool :=
  String.eqb (Status_string (status e)) (Status_string st).

End DiscountSamples.

(** ** More of the history manager (universal-history.ts)

    The helper constructors, the statistics, and the notions used to
    state how the queries and the rollback behave. *)

Module HistoryMore.
Import Json History.
Local Open Scope hist_scope.

(** [obj[k]]; [None] is undefined. *)
Fixpoint get_key (k : string) (fields : list (string * value)) : option value :=
  match fields with
  | [] => None
  | (k', v) :: rest => if String.eqb k k' then Some v else get_key k rest
  end.

(** One test of [getFilteredEntries]: [if (filter.x) ... filter(p)]. *)
Definition active {A : Type} (f : option string) (p : string -> A -> bool)
    (entry : A) : bool :=
  match f with
  | Some x => if truthy f then p x entry else true
  | None => true
  end.

(** All the tests of a filter, as one conjunction. *)
Definition matchesFilter (f : HistoryFilter) (entry : UniversalHistoryEntry)
  : bool :=
  active (f_category f)
         (fun c (e : UniversalHistoryEntry) =>
            String.eqb (Category_string (category e)) c) entry
  && active (f_operationType f)
            (fun t (e : UniversalHistoryEntry) =>
               String.eqb (OperationType_string (operationType e)) t) entry
  && active (f_status f)
            (fun s (e : UniversalHistoryEntry) =>
               String.eqb (Status_string (status e)) s) entry
  && active (f_productId f) matches_product entry
  && active (f_batchId f) matches_batch entry
  && active (f_searchTerm f) (fun t => matches_term (toLowerCase t)) entry
  && match f_dateRange f with
     | Some range => in_range range entry
     | None => true
     end.

(** The operation types that [executeApiRollback] has a case for. *)
Definition supported (t : OperationType) : bool :=
  match t with
  | product_update | bulk_price_update | bulk_discount => true
  | _ => false
  end.

(** The endpoint and the method of [executeApiRollback] for a supported
    type. *)
Definition endpoint (t : OperationType) : string * string :=
  match t with
  | product_update => ("/api/products", "PUT")
  | bulk_price_update => ("/api/bulk-price-rollback", "POST")
  | _ => ("/api/rollback-discount-enhanced", "POST")
  end.

(** An entry that [executeApiRollback] can send: a supported type and
    rollback data. *)
Definition sendable (entry : UniversalHistoryEntry) : bool :=
  supported (operationType entry) &&
  match rollbackData entry with
  | Some _ => true
  | None => false
  end.

Definition errorCount (r : RollbackResult) : nat :=
  match errors r with
  | Some es => List.length es
  | None => 0
  end.

Section Helpers.

Context (env : Env).

(** [createProductHistoryEntry]; [st] is the optional last argument. *)
Definition createProductHistoryEntry (act pid title : string)
    (oldV newV : option value) (st : option Status) : M UniversalHistoryEntry :=
  createEntry env
    {| operationType := product_update;
       category := product;
       productId := Some pid;
       productTitle := Some title;
       variantId := None; variantTitle := None; sku := None;
       collectionId := None; collectionTitle := None;
       description := act ++ ": " ++ title;
       status := match st with Some s => s | None => success end;
       operationData :=
         {| action := act; oldValues := oldV; newValues := newV;
            affectedCount := None; batchId := None; parentBatchId := None |};
       rollbackData :=
         Some {| canRollback := true;
                 rollbackType := api_call;
                 rollbackPayload := Some (JObj (spread [("id", JStr pid)] oldV));
                 dependencies := None |};
       userAgent := None; ipAddress := None; sessionId := None;
       metadata := None |}.

(** [createImageHistoryEntry]. *)
Definition createImageHistoryEntry (act pid title : string)
    (urls : list string) (st : option Status) : M UniversalHistoryEntry :=
  createEntry env
    {| operationType := image_upload;
       category := images;
       productId := Some pid;
       productTitle := Some title;
       variantId := None; variantTitle := None; sku := None;
       collectionId := None; collectionTitle := None;
       description :=
         act ++ ": " ++ JS.string_of_nat (List.length urls) ++ " images for " ++ title;
       status := match st with Some s => s | None => success end;
       operationData :=
         {| action := act; oldValues := None; newValues := None;
            affectedCount := Some (List.length urls);
            batchId := None; parentBatchId := None |};
       rollbackData :=
         Some {| canRollback := false;
                 rollbackType := file_restore;
                 rollbackPayload := None;
                 dependencies := None |};
       userAgent := None; ipAddress := None; sessionId := None;
       metadata :=
         Some {| duration := None; errorDetails := None;
                 affectedProducts := None; affectedVariants := None;
                 fileNames := None; imageUrls := Some urls;
                 bulkOperationSummary := None; originalEntryId := None |} |}.

(** [createBulkHistoryEntry]. *)
Definition createBulkHistoryEntry := createBulkOperation env.

End Helpers.

(** *** Statistics *)

Record CategoryCounts := {
  c_product : nat; c_pricing : nat; c_images : nat; c_bulk : nat;
  c_collections : nat
}.

Record StatusCounts := {
  s_success : nat; s_error : nat; s_warning : nat; s_pending : nat
}.

Record Statistics := {
  total : nat;
  today : nat;
  thisWeek : nat;
  thisMonth : nat;
  byCategory : CategoryCounts;
  byStatus : StatusCounts;
  bulkOperations : nat
}.

Definition countWhere {A : Type} (p : A -> bool) (l : list A) : nat :=
  List.length (filter p l).

Definition isCategory (c : Category) (e : UniversalHistoryEntry) : bool :=
  String.eqb (Category_string (category e)) (Category_string c).

Definition isStatus (s : Status) (e : UniversalHistoryEntry) : bool :=
  String.eqb (Status_string (status e)) (Status_string s).

Definition since (start : Z) (e : UniversalHistoryEntry) : bool :=
  (start <=? timestamp e)%Z.

Section Stats.

Context (env : Env).

(** The local calendar: the instant at which the day, and the month, of
    an instant starts ([new Date(y, m, d)] and [new Date(y, m, 1)]). *)
Context (startOfDay startOfMonth : Z -> Z).

Definition getStatistics : M Statistics :=
  entries <- getAllEntries ;;
  current <- now env ;;
  let todayStart := startOfDay current in
  let weekStart := (todayStart - 7 * 24 * 60 * 60 * 1000)%Z in
  let monthStart := startOfMonth current in
  ret {| total := List.length entries;
         today := countWhere (since todayStart) entries;
         thisWeek := countWhere (since weekStart) entries;
         thisMonth := countWhere (since monthStart) entries;
         byCategory :=
           {| c_product := countWhere (isCategory product) entries;
              c_pricing := countWhere (isCategory pricing) entries;
              c_images := countWhere (isCategory images) entries;
              c_bulk := countWhere (isCategory bulk) entries;
              c_collections := countWhere (isCategory collections) entries |};
         byStatus :=
           {| s_success := countWhere (isStatus success) entries;
              s_error := countWhere (isStatus error) entries;
              s_warning := countWhere (isStatus warning) entries;
              s_pending := countWhere (isStatus pending) entries |};
         bulkOperations := countWhere isAggregate entries |}.

End Stats.

End HistoryMore.

(** ** Export and clear (universal-history.ts) *)

Module LocalStorageMore.
Import Json LocalStorage.

Section Exporting.

Context (JSON_parse : string -> option value).

(** [JSON.stringify(entries, null, 2)]: the indented printing. *)
Context (JSON_stringify_pretty : value -> string).

Definition exportHistory (slot : Slot) : string :=
  let entries := getAllEntries JSON_parse slot in
  JSON_stringify_pretty entries.

End Exporting.

End LocalStorageMore.

(** ** The selection of the price editor (bulk-price-edit-modal.tsx) *)

Module PriceModal.
Import JS PriceRuleEvaluator.

(** An element of [product.variants]. *)
Record Variant := {
  v_id : string;
  v_title : string;
  v_price : string;
  v_compareAtPrice : option string;
  v_sku : string;
  v_inventoryQuantity : Z;
  v_availableForSale : bool
}.

(** The fields of [Product] that the selection reads. *)
Record Product := {
  p_id : string;
  p_title : string;
  p_variants : list Variant
}.

(** The two pieces of state: [selectedProducts] and [selectedVariants]. *)
Record Selection := {
  selectedProducts : list Product;
  selectedVariants : list string
}.

(** An element of [variantsData]. *)
Record Row := {
  productId : string;
  productTitle : string;
  variantId : string;
  variantTitle : string;
  sku : string;
  currentPrice : string;
  currentCompareAtPrice : option string;
  newPrice : string;
  newCompareAtPrice : option string;
  inventoryQuantity : Z;
  availableForSale : bool
}.

(** [array.includes(x)] on strings. *)
Definition includes (l : list string) (x : string) : bool :=
  existsb (String.eqb x) l.

(** Truthiness of an optional string. *)
Definition present (s : option string) : bool :=
  match s with
  | Some s => negb (String.eqb s "")
  | None => false
  end.

Definition appliesToPrice (rule : PriceRule) : bool :=
  match applyTo rule with
  | applyPrice | applyBoth => true
  | applyCompareAtPrice => false
  end.

Definition appliesToCompareAtPrice (rule : PriceRule) : bool :=
  match applyTo rule with
  | applyCompareAtPrice | applyBoth => true
  | applyPrice => false
  end.

Definition rowOf (priceRule : PriceRule) (priceAction : Action)
    (product : Product) (variant : Variant) : Row :=
  let newPrice :=
    if appliesToPrice priceRule
    then calculateNewPrice (v_price variant) priceRule priceAction
    else v_price variant in
  let newCompareAtPrice :=
    if appliesToCompareAtPrice priceRule && present (v_compareAtPrice variant)
    then match v_compareAtPrice variant with
         | Some c => Some (calculateNewPrice c priceRule priceAction)
         | None => None
         end
    else v_compareAtPrice variant in
  {| productId := p_id product;
     productTitle := p_title product;
     variantId := v_id variant;
     variantTitle := v_title variant;
     sku := v_sku variant;
     currentPrice := v_price variant;
     currentCompareAtPrice := v_compareAtPrice variant;
     newPrice := newPrice;
     newCompareAtPrice := newCompareAtPrice;
     inventoryQuantity := v_inventoryQuantity variant;
     availableForSale := v_availableForSale variant |}.

(** [getSelectedVariantsData]: the two nested [for ... of] loops. *)
Definition getSelectedVariantsData (sel : Selection) (priceRule : PriceRule)
    (priceAction : Action) : list Row :=
  flat_map
    (fun product =>
       flat_map
         (fun variant =>
            if includes (selectedVariants sel) (v_id variant)
            then [rowOf priceRule priceAction product variant]
            else [])
         (p_variants product))
    (selectedProducts sel).

Definition handleProductSelect (product : Product) (selected : bool)
    (sel : Selection) : Selection :=
  let variantIds := map v_id (p_variants product) in
  if selected then
    {| selectedProducts := selectedProducts sel ++ [product];
       selectedVariants := selectedVariants sel ++ variantIds |}
  else
    {| selectedProducts :=
         filter (fun p => negb (String.eqb (p_id p) (p_id product)))
                (selectedProducts sel);
       selectedVariants :=
         filter (fun i => negb (includes variantIds i)) (selectedVariants sel) |}.

Definition handleVariantSelect (variant : string) (selected : bool)
    (sel : Selection) : Selection :=
  if selected then
    {| selectedProducts := selectedProducts sel;
       selectedVariants := selectedVariants sel ++ [variant] |}
  else
    {| selectedProducts := selectedProducts sel;
       selectedVariants :=
         filter (fun i => negb (String.eqb i variant)) (selectedVariants sel) |}.

Definition handleSelectAll (filteredProducts : list Product) : Selection :=
  {| selectedProducts := filteredProducts;
     selectedVariants :=
       flat_map (fun p => map v_id (p_variants p)) filteredProducts |}.

Definition handleClearAll : Selection :=
  {| selectedProducts := []; selectedVariants := [] |}.

End PriceModal.

(** ** More of the discount screen (bulk-discount-system.tsx) *)

Module DiscountMore.
Import Json History Discount.

(** *** [calculateCurrentDiscount] *)

Definition calculateCurrentDiscount (price : string)
    (compareAtPrice : option string) : JS.number :=
  match compareAtPrice with
  | None => JS.of_Z 0
  | Some compareAt =>
      if String.eqb compareAt "" || String.eqb price "" then JS.of_Z 0
      else
        let priceNum := JS.parseFloat price in
        let compareNum := JS.parseFloat compareAt in
        if JS.isNaN priceNum || JS.isNaN compareNum
           || JS.le compareNum priceNum
        then JS.of_Z 0
        else
          JS.Math_round
            (JS.mul (JS.div (JS.sub compareNum priceNum) compareNum)
                    (JS.of_Z 100))
  end.

(** *** [calculatePreviewPrice] *)

Record Preview := {
  pv_newPrice : string;
  pv_newCompareAtPrice : string;
  pv_type : string
}.

(** [1 - discount / 100]. *)
Definition keep (discount : JS.number) : JS.number :=
  JS.sub (JS.of_Z 1) (JS.div discount (JS.of_Z 100)).

Definition calculatePreviewPrice (currentPrice : string)
    (compareAtPrice : option string) (discount : JS.number) : Preview :=
  let price := JS.parseFloat currentPrice in
  let comparePrice :=
    match compareAtPrice with
    | Some c => if String.eqb c "" then None else Some (JS.parseFloat c)
    | None => None
    end in
  match comparePrice with
  | Some compare =>
      if JS.truthy compare && JS.lt price compare
      then
        let newPrice := JS.mul compare (keep discount) in
        {| pv_newPrice := JS.toFixed2 newPrice;
           pv_newCompareAtPrice := JS.toFixed2 compare;
           pv_type := "Type 2: Already has discount" |}
      else
        let newPrice := JS.mul price (keep discount) in
        {| pv_newPrice := JS.toFixed2 newPrice;
           pv_newCompareAtPrice := JS.toFixed2 price;
           pv_type := "Type 1: Original price" |}
  | None =>
      let newPrice := JS.mul price (keep discount) in
      {| pv_newPrice := JS.toFixed2 newPrice;
         pv_newCompareAtPrice := JS.toFixed2 price;
         pv_type := "Type 1: Original price" |}
  end.

(** *** The selection handlers: each maps the previous state to the next *)

Definition handleVariantSelect (variant : string) (checked : bool)
    (prev : list string) : list string :=
  if checked then prev ++ [variant]
  else filter (fun i => negb (String.eqb i variant)) prev.

Definition handleSelectAll (allVariants : list Variant) (checked : bool)
  : list string :=
  if checked then map v_id allVariants else [].

Section Tags.

(** [String.prototype.toLowerCase], the engine's. *)
Context (toLowerCase : string -> string).

(** [a.toLowerCase() === b.toLowerCase()]. *)
Definition sameTag (a b : string) : bool :=
  String.eqb (toLowerCase a) (toLowerCase b).

Definition handleTagSelect (tag : string) (checked : bool)
    (prev : list string) : list string :=
  if checked then
    if negb (existsb (fun t => sameTag t tag) prev) then prev ++ [tag] else prev
  else filter (fun t => negb (sameTag t tag)) prev.

(** No two tags that [toLowerCase] makes equal. *)
Definition distinctTags (tags : list string) : Prop :=
  NoDup (map toLowerCase tags).

End Tags.

(** What a [SetProgress] event must satisfy in a run over [n] items. *)
Definition progressOk (n : nat) (e : Event) : Prop :=
  match e with
  | SetProgress total completed successful failed _ =>
      total = n /\ completed = successful + failed /\ completed <= n
  | _ => True
  end.

(** The [completed] counts that a trace reports, in order. *)
Definition completedCounts (evs : list Event) : list nat :=
  flat_map (fun e => match e with
                     | SetProgress _ completed _ _ _ => [completed]
                     | _ => []
                     end) evs.

(** [failedResults] and [successfulResults]. *)
Definition failedResults (results : list DiscountResult) : list DiscountResult :=
  filter (fun r => negb (success r)) results.

Definition successfulResults (results : list DiscountResult)
  : list DiscountResult :=
  filter success results.

(** *** [rollbackDiscounts] *)

(** What [fetch("/api/rollback-discount")] followed by [response.json()]
    gives: a rejected call, or a response with its [ok] flag and whether
    its body can be read. *)
Inductive RollbackReply :=
| RbRejected
| RbResponse (ok : bool) (readable : bool).

Record RollbackOutcome := {
  rb_success : bool;
  rb_displayName : string
}.

(** [completed], [successful] and [failed]. *)
Record Counters := {
  n_completed : nat;
  n_successful : nat;
  n_failed : nat
}.

Inductive RollbackEnding :=
| RbRefused
| RbFinished (c : Counters)
| RbOutOfFuel.

Section Rollback.
Local Open Scope discount_scope.

Context (env : Env).
Context (rollback_discount : nat -> list string -> RollbackReply).
Context (selectedVariants : list string).
Context (allVariants : list Variant).

Definition callRollback (ids : list string) : D RollbackReply :=
  fun s =>
    (rollback_discount (tick (world s)) ids,
     {| world := {| storage := storage (world s); tick := S (tick (world s)) |};
        trace := trace s |}).

(** What the callback of [batch.map] returns for a settled call. *)
Definition settleRollback (variant : string) (reply : RollbackReply)
  : RollbackOutcome :=
  {| rb_success :=
       match reply with
       | RbResponse ok true => ok
       | RbResponse _ false => false
       | RbRejected => false
       end;
     rb_displayName :=
       match findVariant allVariants variant with
       | Some v => v_productTitle v ++ " - " ++ v_title v
       | None => "Variant"
       end |}.

Definition rollbackVariant (batchIndex : nat) (variant : string)
  : D RollbackOutcome :=
  emit (Dispatch batchIndex variant) ;;
  reply <- callRollback [variant] ;;
  dret (settleRollback variant reply).

Definition tallyOutcome (c : Counters) (o : RollbackOutcome) : Counters :=
  {| n_completed := S (n_completed c);
     n_successful := if rb_success o then S (n_successful c) else n_successful c;
     n_failed := if rb_success o then n_failed c else S (n_failed c) |}.

(** The body of [batchResults.forEach]. *)
Definition recordRollback (c : Counters) (o : RollbackOutcome) : D Counters :=
  let c' := tallyOutcome c o in
  emit (SetProgress (List.length selectedVariants) (n_completed c')
                    (n_successful c') (n_failed c')
                    ("Rolled back: " ++ rb_displayName o)) ;;
  dret c'.

Definition rollbackBatch (count batchIndex : nat) (batch : list string)
    (c : Counters) : D Counters :=
  emit (SetCurrent ("Rolling back batch " ++ JS.string_of_nat (batchIndex + 1)
                    ++ "/" ++ JS.string_of_nat count ++ " ("
                    ++ JS.string_of_nat (List.length batch) ++ " items)...")) ;;
  batchResults <- dmap (rollbackVariant batchIndex) batch ;;
  emit (Joined batchIndex) ;;
  c' <- dforEach batchResults recordRollback c ;;
  (if (batchIndex <? count - 1)%nat then emit (Sleep 1100) else dret tt) ;;
  dret c'.

Fixpoint rollbackBatches (count batchIndex : nat) (rest : list (list string))
    (c : Counters) : D Counters :=
  match rest with
  | [] => dret c
  | batch :: rest' =>
      c' <- rollbackBatch count batchIndex batch c ;;
      rollbackBatches count (S batchIndex) rest' c'
  end.

(** The element of [affectedItems] for a selected variant. *)
Definition rollbackItem (variant : string) : AffectedItem :=
  let found := findVariant allVariants variant in
  let price := match found with Some v => v_price v | None => "" end in
  {| i_productId := match found with Some v => v_productId v | None => "" end;
     i_productTitle :=
       match found with Some v => v_productTitle v | None => "" end;
     i_variantId := Some variant;
     i_variantTitle := Some (match found with Some v => v_title v | None => "" end);
     i_sku := Some (match found with Some v => v_sku v | None => "" end);
     i_oldValues :=
       Some (JObj [("price", JStr price);
                   ("compareAtPrice",
                    opt_string match found with
                               | Some v => v_compareAtPrice v
                               | None => None
                               end)]);
     i_newValues :=
       Some (JObj [("price", JStr price); ("compareAtPrice", JNull)]) |}.

Definition rollbackMessage (c : Counters) : MessageType * string :=
  (msg_success,
   "Successfully rolled back discounts for " ++ JS.string_of_nat (n_successful c)
   ++ " variants!").

Definition rollbackDiscounts : D RollbackEnding :=
  if (List.length selectedVariants =? 0)%nat then
    emit (SetMessage (Some (msg_error, "Please select variants to rollback."))) ;;
    dret RbRefused
  else
    emit (SetIsApplying true) ;;
    emit (SetIsProcessing true) ;;
    emit (SetMessage None) ;;
    emit (SetProgress (List.length selectedVariants) 0 0 0
                      "Starting parallel rollback...") ;;
    match makeBatches (List.length selectedVariants) 2 selectedVariants 0 [] with
    | None => dret RbOutOfFuel
    | Some batches =>
        c <- rollbackBatches (List.length batches) 0 batches
               {| n_completed := 0; n_successful := 0; n_failed := 0 |} ;;
        emit (SetProgress (List.length selectedVariants)
                (List.length selectedVariants) (n_successful c) (n_failed c)
                ("Rollback completed! " ++ JS.string_of_nat (n_successful c)
                 ++ " successful, " ++ JS.string_of_nat (n_failed c))) ;;
        lift (HistoryMore.createBulkHistoryEntry (history_env env)
                bulk_discount pricing "Bulk Discount Rollback"
                (map rollbackItem selectedVariants) None) ;;
        emit (SetMessage (Some (rollbackMessage c))) ;;
        emit (SetResults []) ;;
        emit FetchUpdatedProducts ;;
        emit (SetSelectedVariants []) ;;
        emit (SetIsApplying false) ;;   (* [finally]; its timer is not modelled *)
        dret (RbFinished c)
    end.

(** The outcome of the call dispatched at tick [t]. *)
Definition rollbackOutcomeAt (t : nat) (variant : string) : RollbackOutcome :=
  settleRollback variant (rollback_discount t [variant]).

Fixpoint rollbackOutcomesFrom (t : nat) (variants : list string)
  : list RollbackOutcome :=
  match variants with
  | [] => []
  | v :: rest => rollbackOutcomeAt t v :: rollbackOutcomesFrom (S t) rest
  end.

Definition noCounts : Counters :=
  {| n_completed := 0; n_successful := 0; n_failed := 0 |}.

End Rollback.

End DiscountMore.

(** ** The rollback lookup on the stored array as it is (universal-history.ts)

    [History.World] holds entries of the declared type.  What
    [getAllEntries] returns is whatever [JSON.parse] makes of the stored
    text; [importHistory] only asks that it be an array.  This module
    follows [rollbackOperation] on that value, up to the call of
    [executeApiRollback] or [executeBatchRollback]. *)

Module RawHistory.
Import Json History HistoryMore.

Section Raw.

Context (JSON_parse : string -> option value).

(** The message of the TypeError that the engine throws for a use of the
    property [k] of [v]. *)
Context (TypeError_text : value -> string -> string).

Definition typeError (v : value) (k : string) : Thrown :=
  ErrorObj "TypeError" (TypeError_text v k).

(** [v.k] for the names read below ([id], [rollbackData], [canRollback],
    [rollbackType]), which no prototype defines: the own property of an
    object, [undefined] ([None]) for another value, a TypeError for
    [null]. *)
Definition member (v : value) (k : string) : Outcome (option value) :=
  match v with
  | JNull => Threw (typeError v k)
  | JObj fields => Returned (get_key k fields)
  | JBool _ | JNum _ | JStr _ | JArr _ => Returned None
  end.

(** [v?.k], for a [v] that may be [undefined]. *)
Definition optional_member (v : option value) (k : string) : option value :=
  match v with
  | Some (JObj fields) => get_key k fields
  | _ => None
  end.

(** [x === s], for a string [s]. *)
Definition is_string (x : option value) (s : string) : bool :=
  match x with
  | Some (JStr t) => String.eqb t s
  | _ => false
  end.

(** Truthiness of a value that may be [undefined]. *)
Definition truthy_opt (x : option value) : bool :=
  match x with
  | Some v => truthy_value v
  | None => false
  end.

(** [e.id === entryId], when reading [e.id] does not throw. *)
Definition has_id (entryId : string) (e : value) : bool :=
  match member e "id" with
  | Returned x => is_string x entryId
  | Threw _ => false
  end.

(** [entries.find((e) => e.id === entryId)]. *)
Fixpoint find_by_id (entryId : string) (entries : list value)
  : Outcome (option value) :=
  match entries with
  | [] => Returned None
  | e :: rest =>
      match member e "id" with
      | Threw t => Threw t
      | Returned x =>
          if is_string x entryId then Returned (Some e)
          else find_by_id entryId rest
      end
  end.

(** The part of the try block that is not followed here, for the
    rollback types [api_call] and [batch_operation]: [executeRollback]
    and, when it reports success, [createEntry]. *)
Context (attempt : value -> LocalStorage.Slot
                   -> Outcome RollbackResult * LocalStorage.Slot).

Definition rollbackOperation (entryId : string) (slot : LocalStorage.Slot)
  : Outcome RollbackResult * LocalStorage.Slot :=
  match LocalStorage.getAllEntries JSON_parse slot with
  | JArr entries =>
      match find_by_id entryId entries with
      | Threw t => (Threw t, slot)
      | Returned None => (Returned (failure "History entry not found"), slot)
      | Returned (Some entry) =>
          match member entry "rollbackData" with
          | Threw t => (Threw t, slot)
          | Returned rollbackData =>
              if negb (truthy_opt (optional_member rollbackData "canRollback"))
              then (Returned (failure "This operation cannot be rolled back"),
                    slot)
              else
                let rollbackType := optional_member rollbackData "rollbackType" in
                let tried :=
                  if is_string rollbackType "api_call"
                     || is_string rollbackType "batch_operation"
                  then attempt entry slot
                  else if is_string rollbackType "file_restore"
                  then (Threw (ErrorObj "Error" "File rollback not yet implemented"),
                        slot)
                  else (Threw (ErrorObj "Error" "Unknown rollback type"), slot) in
                match tried with
                | (Returned result, slot') => (Returned result, slot')
                | (Threw t, slot') =>
                    (Returned (failure match t with
                                       | ErrorObj _ msg => msg
                                       | NonError _ => "Rollback failed"
                                       end), slot')
                end
          end
      end
  | entries => (Threw (typeError entries "find"), slot)
  end.

(** The elements that the lookup reads without finding [entryId]: none
    of them is [null] and none has the id. *)
Definition passed (entryId : string) (e : value) : Prop :=
  e <> JNull /\ has_id entryId e = false.

(** Why a stored entry is not rolled back: its [rollbackData.canRollback]
    is absent or falsy, or its rollback type is [file_restore]. *)
Definition ineligible (entry : value) : Prop :=
  exists rollbackData,
    member entry "rollbackData" = Returned rollbackData
    /\ (truthy_opt (optional_member rollbackData "canRollback") = false
        \/ is_string (optional_member rollbackData "rollbackType") "file_restore"
           = true).

End Raw.

End RawHistory.

(** ** More sample environments and stores *)

Module SamplesMore.
Import Json History Samples.

(** A remote store that answers every call with a status outside 2xx. *)
Definition refusingEnv : Env :=
  {| Date_now := Date_now sampleEnv;
     random_suffix := random_suffix sampleEnv;
     remote := fun _ _ _ _ => Response false |}.

(** A collection update that carries rollback data. *)
Definition collectionEntry (entryId : string) : UniversalHistoryEntry :=
  {| id := entryId;
     timestamp := 1699999997000;
     input :=
       {| operationType := collection_update;
          category := collections;
          productId := None; productTitle := None;
          variantId := None; variantTitle := None; sku := None;
          collectionId := Some "c1"; collectionTitle := Some "Rings";
          description := "Rename: Rings";
          status := success;
          operationData :=
            {| action := "Rename";
               oldValues := Some (JObj [("title", JStr "Ring")]);
               newValues := Some (JObj [("title", JStr "Rings")]);
               affectedCount := None; batchId := None; parentBatchId := None |};
          rollbackData :=
            Some {| canRollback := true; rollbackType := api_call;
                    rollbackPayload :=
                      Some (JObj [("id", JStr "c1"); ("title", JStr "Ring")]);
                    dependencies := None |};
          userAgent := None; ipAddress := None; sessionId := None;
          metadata := None |} |}.

Definition collectionWorld : World :=
  {| storage := [collectionEntry "hist_d"; productEntry "hist_a"];
     tick := 0 |}.

(** The payload that the discount screen stores with a bulk operation. *)
Definition discountPayload : value :=
  JObj [("variantIds", JArr [JStr "v1"; JStr "v2"]);
        ("originalDiscountPercentage", JNum (JS.of_Z 20));
        ("expiryDate", JNull)].

(** A rollback route that fails for the variant "v3": its call is
    rejected. *)
Definition rollbackThirdFails (t : nat) (ids : list string)
  : DiscountMore.RollbackReply :=
  match ids with
  | [v] => if String.eqb v "v3" then DiscountMore.RbRejected
           else DiscountMore.RbResponse true true
  | _ => DiscountMore.RbResponse false true
  end.

(** A stored text of two elements, the number 1 and an entry that has
    only an id, and a parser that knows it and the text of an array with
    a null element. *)
Definition quoted (s : string) : string :=
  String "034" (s ++ String "034" EmptyString).

Definition storedText : string :=
  "[1,{" ++ quoted "id" ++ ":" ++ quoted "hist_a" ++ "}]".

Definition history_parse (s : string) : option value :=
  if String.eqb s storedText
  then Some (JArr [JNum (JS.of_Z 1); JObj [("id", JStr "hist_a")]])
  else LocalStorage.sample_parse s.

(** The wording of one engine. *)
Definition engineText (v : value) (k : string) : string :=
  match v with
  | JNull => "Cannot read properties of null (reading '" ++ k ++ "')"
  | _ => "this.getAllEntries(...)." ++ k ++ " is not a function"
  end.

(** A try block that reports success and stores nothing. *)
Definition idleAttempt (entry : value) (slot : LocalStorage.Slot)
  : Outcome RollbackResult * LocalStorage.Slot :=
  (Returned {| r_success := true; message := "done";
               affectedEntries := []; errors := None |}, slot).

End SamplesMore.

(** * Theorems *)

(** ** Properties of the binary64 rounding *)

Module JSFacts.
Import JS.
Local Open Scope Q_scope.

(** *** Powers of two *)

Lemma pow2_pos (e : Z) : 0 < pow2 e.
Proof. apply Qpower_0_lt. reflexivity. Qed.

Lemma pow2_add (a b : Z) : pow2 (a + b) == pow2 a * pow2 b.
Proof. apply Qpower_plus. discriminate. Qed.

Lemma pow2_le (a b : Z) : (a <= b)%Z -> pow2 a <= pow2 b.
Proof. intros H. apply Qpower_le_compat_l; [exact H | discriminate]. Qed.

Lemma pow2_lt (a b : Z) : (a < b)%Z -> pow2 a < pow2 b.
Proof. intros H. apply Qpower_lt_compat_l; [exact H | reflexivity]. Qed.

Lemma pow2_lt_inv (a b : Z) : pow2 a < pow2 b -> (a < b)%Z.
Proof. intros H. eapply Qpower_lt_compat_l_inv; [exact H | reflexivity]. Qed.

Lemma pow2_Z (e : Z) : (0 <= e)%Z -> pow2 e == inject_Z (2 ^ e).
Proof. intros H. unfold pow2. now rewrite Zpower_Qpower. Qed.

Lemma pow2_div (a b : Z) : pow2 a / pow2 b == pow2 (a - b).
Proof.
  assert (H : pow2 a == pow2 (a - b) * pow2 b)
    by (rewrite <- pow2_add; now replace (a - b + b)%Z with a by lia).
  rewrite H. field. pose proof (pow2_pos b). lra.
Qed.

(** *** The integer logarithm *)

Lemma ilog2_spec (q : Q) :
  0 < q -> pow2 (ilog2 q) <= q /\ q < pow2 (ilog2 q + 1).
Proof.
  intros Hq. destruct q as [a b].
  assert (Ha : (0 < a)%Z).
  { unfold Qlt in Hq. cbn in Hq. lia. }
  unfold ilog2. cbn [Qnum Qden].
  set (la := Z.log2 a). set (lb := Z.log2 (Zpos b)).
  destruct (Z.log2_spec a Ha) as [Ha1 Ha2]. fold la in Ha1, Ha2.
  destruct (Z.log2_spec (Zpos b) eq_refl) as [Hb1 Hb2]. fold lb in Hb1, Hb2.
  assert (Hla : (0 <= la)%Z) by apply Z.log2_nonneg.
  assert (Hlb : (0 <= lb)%Z) by apply Z.log2_nonneg.
  set (A := inject_Z a). set (B := inject_Z (Zpos b)).
  assert (HA1 : pow2 la <= A)
    by (rewrite pow2_Z by lia; unfold A; now rewrite <- Zle_Qle).
  assert (HA2 : A < pow2 (la + 1))
    by (rewrite pow2_Z by lia; unfold A; rewrite <- Zlt_Qlt;
        now rewrite <- Z.add_1_r in Ha2).
  assert (HB1 : pow2 lb <= B)
    by (rewrite pow2_Z by lia; unfold B; now rewrite <- Zle_Qle).
  assert (HB2 : B < pow2 (lb + 1))
    by (rewrite pow2_Z by lia; unfold B; rewrite <- Zlt_Qlt;
        now rewrite <- Z.add_1_r in Hb2).
  assert (HB : 0 < B) by (unfold B; reflexivity).
  assert (Hq' : a # b == A / B) by apply Qmake_Qdiv.
  assert (Hlow : pow2 (la - lb - 1) < a # b).
  { rewrite Hq'. apply Qlt_shift_div_l; [exact HB |].
    apply Qlt_le_trans with (pow2 (la - lb - 1) * pow2 (lb + 1)).
    - apply Qmult_lt_l; [apply pow2_pos | exact HB2].
    - rewrite <- pow2_add.
      now replace (la - lb - 1 + (lb + 1))%Z with la by lia. }
  assert (Hhigh : a # b < pow2 (la - lb + 1)).
  { rewrite Hq'. apply Qlt_shift_div_r; [exact HB |].
    apply Qlt_le_trans with (pow2 (la - lb + 1) * pow2 lb).
    - rewrite <- pow2_add.
      now replace (la - lb + 1 + lb)%Z with (la + 1)%Z by lia.
    - apply Qmult_le_l; [apply pow2_pos | exact HB1]. }
  destruct (Qle_bool (pow2 (la - lb)) (a # b)) eqn:E.
  - apply Qle_bool_iff in E. split; assumption.
  - assert (Hlt : a # b < pow2 (la - lb)).
    { apply Qnot_le_lt. intros H. apply Qle_bool_iff in H. congruence. }
    split; [now apply Qlt_le_weak |].
    now replace (la - lb - 1 + 1)%Z with (la - lb)%Z by lia.
Qed.

Lemma ilog2_unique (q : Q) (k : Z) :
  pow2 k <= q -> q < pow2 (k + 1) -> ilog2 q = k.
Proof.
  intros H1 H2.
  assert (Hq : 0 < q) by (pose proof (pow2_pos k); lra).
  destruct (ilog2_spec q Hq) as [H3 H4].
  assert ((ilog2 q < k + 1)%Z) by (apply pow2_lt_inv; lra).
  assert ((k < ilog2 q + 1)%Z) by (apply pow2_lt_inv; lra).
  lia.
Qed.

Lemma ilog2_mono (q1 q2 : Q) :
  0 < q1 -> q1 <= q2 -> (ilog2 q1 <= ilog2 q2)%Z.
Proof.
  intros H1 H12.
  destruct (ilog2_spec q1 H1) as [Ha _].
  destruct (ilog2_spec q2 ltac:(lra)) as [_ Hb].
  assert ((ilog2 q1 < ilog2 q2 + 1)%Z) by (apply pow2_lt_inv; lra).
  lia.
Qed.

(** *** Rounding to the nearest integer *)

Lemma rne_cases (m : Q) :
  rne m = Qfloor m \/ rne m = (Qfloor m + 1)%Z.
Proof.
  unfold rne. destruct (Qcompare _ _); [| now left | now right].
  destruct (Z.even _); [now left | now right].
Qed.

Lemma rne_mono (m1 m2 : Q) : m1 <= m2 -> (rne m1 <= rne m2)%Z.
Proof.
  intros H. pose proof (Qfloor_resp_le m1 m2 H) as Hf.
  destruct (Z.eq_dec (Qfloor m1) (Qfloor m2)) as [E | N].
  - unfold rne. rewrite E. set (f := Qfloor m2).
    destruct (Qcompare_spec (m1 - inject_Z f) (1 # 2)) as [C1 | C1 | C1];
      destruct (Qcompare_spec (m2 - inject_Z f) (1 # 2)) as [C2 | C2 | C2];
      try (destruct (Z.even f)); try lia; exfalso; lra.
  - destruct (rne_cases m1) as [-> | ->]; destruct (rne_cases m2) as [-> | ->];
      lia.
Qed.

Lemma rne_Z (m : Q) (z : Z) : m == inject_Z z -> rne m = z.
Proof.
  intros H. unfold rne.
  assert (Hf : Qfloor m = z) by (rewrite H; apply Qfloor_Z).
  rewrite Hf.
  assert (C : Qcompare (m - inject_Z z) (1 # 2) = Lt).
  { rewrite <- Qlt_alt. rewrite H. unfold Qminus. rewrite Qplus_opp_r.
    reflexivity. }
  now rewrite C.
Qed.

Lemma rne_le (m : Q) (z : Z) : m <= inject_Z z -> (rne m <= z)%Z.
Proof.
  intros H. rewrite <- (rne_Z (inject_Z z) z) by reflexivity.
  now apply rne_mono.
Qed.

Lemma rne_ge (m : Q) (z : Z) : inject_Z z <= m -> (z <= rne m)%Z.
Proof.
  intros H. rewrite <- (rne_Z (inject_Z z) z) at 1 by reflexivity.
  now apply rne_mono.
Qed.

(** *** The nearest multiple of the last place *)

Lemma ulp_exponent_mono (q1 q2 : Q) :
  0 < q1 -> q1 <= q2 -> (ulp_exponent q1 <= ulp_exponent q2)%Z.
Proof.
  intros H1 H12. unfold ulp_exponent.
  pose proof (ilog2_mono q1 q2 H1 H12). lia.
Qed.

(** The scaled value has less than 54 bits. *)
Lemma scaled_lt (q : Q) :
  0 < q -> q / pow2 (ulp_exponent q) < pow2 53.
Proof.
  intros Hq. apply Qlt_shift_div_r; [apply pow2_pos |].
  rewrite <- pow2_add.
  destruct (ilog2_spec q Hq) as [_ H].
  apply Qlt_le_trans with (1 := H). apply pow2_le.
  unfold ulp_exponent. lia.
Qed.

(** Above the subnormal range it has 53 bits. *)
Lemma scaled_ge (q : Q) :
  0 < q -> (-1074 < ulp_exponent q)%Z ->
  pow2 52 <= q / pow2 (ulp_exponent q).
Proof.
  intros Hq He. apply Qle_shift_div_l; [apply pow2_pos |].
  rewrite <- pow2_add.
  destruct (ilog2_spec q Hq) as [H _].
  apply Qle_trans with (2 := H). apply pow2_le.
  unfold ulp_exponent in *. lia.
Qed.

Lemma nearest_nonneg (q : Q) : 0 < q -> 0 <= nearest q.
Proof.
  intros Hq. unfold nearest.
  apply Qmult_le_0_compat; [| apply Qlt_le_weak, pow2_pos].
  change 0 with (inject_Z 0). rewrite <- Zle_Qle. apply rne_ge.
  apply Qle_shift_div_l; [apply pow2_pos |].
  change (inject_Z 0) with 0. rewrite Qmult_0_l. lra.
Qed.

Lemma nearest_le_top (q : Q) :
  0 < q -> nearest q <= pow2 (ulp_exponent q + 53).
Proof.
  intros Hq. unfold nearest. rewrite pow2_add, (Qmult_comm (pow2 _) (pow2 53)).
  apply Qmult_le_compat_r; [| apply Qlt_le_weak, pow2_pos].
  rewrite (pow2_Z 53) by lia. rewrite <- Zle_Qle. apply rne_le.
  rewrite <- pow2_Z by lia. apply Qlt_le_weak, scaled_lt, Hq.
Qed.

Lemma nearest_ge_bottom (q : Q) :
  0 < q -> (-1074 < ulp_exponent q)%Z ->
  pow2 (ulp_exponent q + 52) <= nearest q.
Proof.
  intros Hq He. unfold nearest.
  rewrite pow2_add, (Qmult_comm (pow2 _) (pow2 52)).
  apply Qmult_le_compat_r; [| apply Qlt_le_weak, pow2_pos].
  rewrite (pow2_Z 52) by lia. rewrite <- Zle_Qle. apply rne_ge.
  rewrite <- pow2_Z by lia. apply scaled_ge; assumption.
Qed.

Lemma nearest_mono (q1 q2 : Q) :
  0 < q1 -> q1 <= q2 -> nearest q1 <= nearest q2.
Proof.
  intros H1 H12.
  assert (H2 : 0 < q2) by lra.
  pose proof (ulp_exponent_mono q1 q2 H1 H12) as He.
  destruct (Z.eq_dec (ulp_exponent q1) (ulp_exponent q2)) as [E | N].
  - unfold nearest. rewrite E.
    apply Qmult_le_compat_r; [| apply Qlt_le_weak, pow2_pos].
    rewrite <- Zle_Qle. apply rne_mono.
    apply Qmult_le_compat_r; [exact H12 |].
    apply Qlt_le_weak, Qinv_lt_0_compat, pow2_pos.
  - apply Qle_trans with (pow2 (ulp_exponent q1 + 53));
      [now apply nearest_le_top |].
    apply Qle_trans with (pow2 (ulp_exponent q2 + 52)).
    + apply pow2_le. lia.
    + apply nearest_ge_bottom; [exact H2 |].
      unfold ulp_exponent in *. lia.
Qed.

(** A binary64 value is its own nearest value. *)
Lemma nearest_fix (q : Q) : 0 < q -> binary64 q -> nearest q == q.
Proof.
  intros Hq (n & e & Hn & Hbits & He & _).
  assert (Hnpos : (0 < n)%Z).
  { destruct (Z.lt_trichotomy n 0) as [Hlt | [-> | Hgt]]; [| | exact Hgt].
    - exfalso. assert (inject_Z n < 0) by (change 0 with (inject_Z 0);
        now rewrite <- Zlt_Qlt).
      pose proof (pow2_pos e). rewrite Hn in Hq. nra.
    - exfalso. rewrite Hn in Hq. change (inject_Z 0) with 0 in Hq.
      rewrite Qmult_0_l in Hq. lra. }
  assert (Hlt : q < pow2 (e + 53)).
  { rewrite Hn, pow2_add, (Qmult_comm (pow2 e)).
    apply Qmult_lt_compat_r; [apply pow2_pos |].
    rewrite (pow2_Z 53) by lia. rewrite <- Zlt_Qlt. lia. }
  assert (Hlog : (ilog2 q < e + 53)%Z).
  { destruct (ilog2_spec q Hq) as [H _]. apply pow2_lt_inv. lra. }
  set (e' := ulp_exponent q).
  assert (He' : (e' <= e)%Z) by (unfold e', ulp_exponent; lia).
  assert (Hscaled : q / pow2 e' == inject_Z (n * 2 ^ (e - e'))).
  { rewrite inject_Z_mult, <- pow2_Z by lia. rewrite <- pow2_div, Hn.
    field. pose proof (pow2_pos e'). lra. }
  unfold nearest. fold e'. rewrite (rne_Z _ _ Hscaled).
  rewrite <- Hscaled. field. pose proof (pow2_pos e'). lra.
Qed.

(** What [nearest] gives is a binary64 value, unless it overflows. *)
Lemma nearest_binary64 (q : Q) :
  0 < q -> nearest q < pow2 1024 -> binary64 (nearest q).
Proof.
  intros Hq Hover.
  pose proof (nearest_nonneg q Hq) as Hnn.
  set (e := ulp_exponent q) in *.
  set (n := rne (q / pow2 e)).
  assert (Hn0 : (0 <= n)%Z).
  { apply rne_ge. apply Qle_shift_div_l; [apply pow2_pos |].
    change (inject_Z 0) with 0. rewrite Qmult_0_l. lra. }
  assert (Hn53 : (n <= 2 ^ 53)%Z).
  { apply rne_le. rewrite <- pow2_Z by lia.
    apply Qlt_le_weak, scaled_lt, Hq. }
  assert (He : (-1074 <= e)%Z) by (unfold e, ulp_exponent; lia).
  assert (Habs : Qabs (nearest q) < pow2 1024)
    by (rewrite Qabs_pos; assumption).
  destruct (Z.eq_dec n (2 ^ 53)) as [E | N].
  - exists (2 ^ 52)%Z, (e + 1)%Z. split; [| split; [| split]].
    + unfold nearest. fold e. fold n. rewrite E, pow2_add.
      rewrite <- !pow2_Z by lia.
      change (pow2 53) with (pow2 (52 + 1)). rewrite pow2_add. ring.
    + rewrite Z.abs_eq by lia. lia.
    + lia.
    + exact Habs.
  - exists n, e. split; [reflexivity |]. split; [| split].
    + rewrite Z.abs_eq by lia. lia.
    + exact He.
    + exact Habs.
Qed.

(** *** The binary64 values *)

Lemma binary64_comp (q q' : Q) : q == q' -> binary64 q -> binary64 q'.
Proof.
  intros E (n & e & Hn & Hb & He & Ha). exists n, e.
  rewrite <- E. repeat split; assumption.
Qed.

Lemma binary64_opp (q : Q) : binary64 q -> binary64 (- q).
Proof.
  intros (n & e & Hn & Hb & He & Ha). exists (- n)%Z, e.
  split; [rewrite Hn, inject_Z_opp; ring |].
  split; [now rewrite Z.abs_opp |].
  split; [exact He | now rewrite Qabs_opp].
Qed.

Lemma binary64_Z (z : Z) : (Z.abs z < 2 ^ 53)%Z -> binary64 (inject_Z z).
Proof.
  intros H. exists z, 0%Z. split; [unfold pow2; cbn; ring |].
  split; [exact H |]. split; [lia |].
  apply Qlt_trans with (pow2 53); [| now apply pow2_lt].
  rewrite (pow2_Z 53) by lia.
  change (Qabs (inject_Z z)) with (inject_Z (Z.abs z)).
  rewrite <- Zlt_Qlt. exact H.
Qed.

Lemma binary64_0 : binary64 0.
Proof. apply (binary64_Z 0). reflexivity. Qed.

Lemma binary64_bound (q : Q) : binary64 q -> - pow2 1024 < q < pow2 1024.
Proof.
  intros (_ & _ & _ & _ & _ & Ha).
  apply Qabs_Qlt_condition in Ha. exact Ha.
Qed.

(** *** Rounding *)

Lemma round_pos_spec (q : Q) :
  match round_pos q with
  | Some v => v == nearest q /\ nearest q < pow2 1024
  | None => pow2 1024 <= nearest q
  end.
Proof.
  unfold round_pos. destruct (Qle_bool (pow2 1024) (nearest q)) eqn:E.
  - now apply Qle_bool_iff.
  - split; [apply Qred_correct |].
    apply Qnot_le_lt. intros H. apply Qle_bool_iff in H. congruence.
Qed.

Lemma round64_valid (q : Q) : valid (round64 q).
Proof.
  unfold round64.
  destruct (Qcompare_spec q 0) as [E | L | G]; [apply binary64_0 | |].
  - pose proof (round_pos_spec (- q)) as H.
    destruct (round_pos (- q)) as [v |]; [| exact I].
    destruct (Qeq_bool v 0); [exact I |]. destruct H as [Hv Hn].
    apply binary64_opp, binary64_comp with (nearest (- q));
      [now symmetry |].
    apply nearest_binary64; [lra | exact Hn].
  - pose proof (round_pos_spec q) as H.
    destruct (round_pos q) as [v |]; [| exact I].
    destruct H as [Hv Hn].
    apply binary64_comp with (nearest q); [now symmetry |].
    apply nearest_binary64; [lra | exact Hn].
Qed.

Lemma round64_not_NaN (q : Q) : round64 q <> NaN.
Proof.
  unfold round64. destruct (Qcompare q 0); [discriminate | |].
  - destruct (round_pos (- q)); [destruct (Qeq_bool q0 0) |]; discriminate.
  - destruct (round_pos q); discriminate.
Qed.

(** What is at least a binary64 value rounds to at least that value. *)
Lemma round64_at_least (r q : Q) :
  binary64 r -> r <= q -> at_least r (round64 q).
Proof.
  intros Hr Hle. pose proof (binary64_bound r Hr) as Hb. unfold round64.
  destruct (Qcompare_spec q 0) as [E | L | G].
  - cbn. lra.
  - pose proof (round_pos_spec (- q)) as H.
    assert (Hfix : nearest (- r) == - r)
      by (apply nearest_fix; [lra | now apply binary64_opp]).
    assert (Hmono : nearest (- q) <= nearest (- r))
      by (apply nearest_mono; lra).
    destruct (round_pos (- q)) as [v |].
    + destruct H as [Hv _]. destruct (Qeq_bool v 0); cbn; lra.
    + exfalso. lra.
  - pose proof (round_pos_spec q) as H.
    destruct (round_pos q) as [v |]; [| reflexivity].
    destruct H as [Hv _]. cbn.
    destruct (Qlt_le_dec 0 r) as [Hpos | Hneg].
    + assert (Hfix : nearest r == r) by (now apply nearest_fix).
      assert (Hmono : nearest r <= nearest q) by (now apply nearest_mono).
      lra.
    + pose proof (nearest_nonneg q G). lra.
Qed.

(** What is at most a binary64 value rounds to at most that value. *)
Lemma round64_at_most (r q : Q) :
  binary64 r -> q <= r -> at_most r (round64 q).
Proof.
  intros Hr Hle. pose proof (binary64_bound r Hr) as Hb. unfold round64.
  destruct (Qcompare_spec q 0) as [E | L | G].
  - cbn. lra.
  - pose proof (round_pos_spec (- q)) as H.
    destruct (round_pos (- q)) as [v |]; [| reflexivity].
    destruct H as [Hv _].
    destruct (Qlt_le_dec r 0) as [Hneg | Hpos].
    + assert (Hfix : nearest (- r) == - r)
        by (apply nearest_fix; [lra | now apply binary64_opp]).
      assert (Hmono : nearest (- r) <= nearest (- q))
        by (apply nearest_mono; lra).
      destruct (Qeq_bool v 0) eqn:Ez; cbn; [| lra].
      apply Qeq_bool_iff in Ez. lra.
    + pose proof (nearest_nonneg (- q) ltac:(lra)).
      destruct (Qeq_bool v 0); cbn; lra.
  - pose proof (round_pos_spec q) as H.
    assert (Hfix : nearest r == r) by (apply nearest_fix; [lra | exact Hr]).
    assert (Hmono : nearest q <= nearest r) by (now apply nearest_mono).
    destruct (round_pos q) as [v |].
    + destruct H as [Hv _]. cbn. lra.
    + exfalso. lra.
Qed.

(** A binary64 value rounds to itself. *)
Lemma round64_fix (q : Q) : binary64 q -> round64 q = Fin (Qred q).
Proof.
  intros Hq. pose proof (binary64_bound q Hq) as Hb. unfold round64.
  destruct (Qcompare_spec q 0) as [E | L | G].
  - f_equal. symmetry. now apply (Qred_complete q 0).
  - pose proof (round_pos_spec (- q)) as H.
    assert (Hfix : nearest (- q) == - q)
      by (apply nearest_fix; [lra | now apply binary64_opp]).
    unfold round_pos in *.
    destruct (Qle_bool (pow2 1024) (nearest (- q))); [exfalso; lra |].
    destruct (Qeq_bool (Qred (nearest (- q))) 0) eqn:Ez.
    + apply Qeq_bool_iff in Ez. rewrite Qred_correct in Ez. lra.
    + f_equal. rewrite (Qred_complete _ _ Hfix), Qred_opp.
      destruct (Qred q) as [a b]. unfold Qopp. cbn. now rewrite Z.opp_involutive.
  - pose proof (round_pos_spec q) as H.
    assert (Hfix : nearest q == q) by (apply nearest_fix; [lra | exact Hq]).
    unfold round_pos in *.
    destruct (Qle_bool (pow2 1024) (nearest q)); [exfalso; lra |].
    f_equal. now apply Qred_complete.
Qed.

Lemma at_least_trans (r r' : Q) (a : number) :
  r' <= r -> at_least r a -> at_least r' a.
Proof. destruct a; cbn; intros; try assumption; lra. Qed.

Lemma at_most_trans (r r' : Q) (a : number) :
  r <= r' -> at_most r a -> at_most r' a.
Proof. destruct a; cbn; intros; try assumption; lra. Qed.

(** A number between two rationals is finite. *)
Lemma bounded_finite (r r' : Q) (a : number) :
  at_least r a -> at_most r' a -> is_finite a = true.
Proof.
  destruct a; cbn; intros H1 H2; try reflexivity; try contradiction.
  congruence.
Qed.

(** Between two binary64 values that are not negative, the result is
    finite. *)
Lemma round64_between (lo hi q : Q) :
  binary64 lo -> binary64 hi -> 0 <= lo -> lo <= q -> q <= hi ->
  exists v, round64 q = Fin v /\ lo <= v /\ v <= hi /\ binary64 v.
Proof.
  intros Hlo Hhi H0 H1 H2.
  pose proof (round64_at_least lo q Hlo H1) as Ha.
  pose proof (round64_at_most hi q Hhi H2) as Hb.
  pose proof (round64_valid q) as Hv.
  destruct (round64 q) as [| s | | v] eqn:E; cbn in Ha, Hb, Hv.
  - contradiction.
  - congruence.
  - exfalso. unfold round64 in E.
    destruct (Qcompare_spec q 0) as [C | C | C]; [discriminate | lra |].
    destruct (round_pos q); discriminate.
  - exists v. repeat split; assumption.
Qed.

(** *** The operations *)

Lemma is_neg_nonneg (q : Q) : 0 <= q -> is_neg (Fin q) = false.
Proof. intros H. cbn. apply Qle_bool_iff in H. now rewrite H. Qed.

Lemma Qeq_bool_false (q : Q) : ~ q == 0 -> Qeq_bool q 0 = false.
Proof.
  intros H. destruct (Qeq_bool q 0) eqn:E; [| reflexivity].
  apply Qeq_bool_iff in E. contradiction.
Qed.

(** [r + b] for [b] not below zero. *)
Lemma add_at_least (r : Q) (b : number) :
  binary64 r -> at_least 0 b -> at_least r (add (Fin r) b).
Proof.
  intros Hr Hb. destruct b as [| s | | y]; cbn in Hb; try contradiction.
  - subst s. reflexivity.
  - cbn. lra.
  - cbn [add]. apply round64_at_least; [exact Hr | lra].
Qed.

(** [r - b] for [b] not below zero. *)
Lemma sub_at_most (r : Q) (b : number) :
  binary64 r -> at_least 0 b -> at_most r (sub (Fin r) b).
Proof.
  intros Hr Hb. unfold sub.
  destruct b as [| s | | y]; cbn in Hb; try contradiction.
  - subst s. reflexivity.
  - cbn [neg add]. apply round64_at_most; [exact Hr | lra].
  - cbn [neg]. destruct (Qeq_bool y 0); cbn [add].
    + cbn. lra.
    + apply round64_at_most; [exact Hr | lra].
Qed.

(** [b / 100] for [b] not below zero. *)
Lemma div_100_at_least (b : number) :
  at_least 0 b -> at_least 0 (div b (Fin 100)).
Proof.
  intros Hb. destruct b as [| s | | y]; cbn in Hb; try contradiction.
  - subst s. reflexivity.
  - vm_compute. discriminate.
  - unfold div. change (is_zero (Fin 100)) with false. cbv iota.
    cbn [is_zero]. destruct (Qeq_bool y 0).
    + rewrite (is_neg_nonneg y Hb). cbn. lra.
    + apply round64_at_least; [apply binary64_0 |].
      cbn [to_Q]. apply Qle_shift_div_l; lra.
Qed.

(** [p * k] for a positive [p] and [k] not above one. *)
Lemma mul_at_most (p : Q) (k : number) :
  binary64 p -> 0 < p -> at_most 1 k -> at_most p (mul (Fin p) k).
Proof.
  intros Hp Hpos Hk.
  assert (Hz : Qeq_bool p 0 = false) by (apply Qeq_bool_false; lra).
  assert (Hn : is_neg (Fin p) = false) by (apply is_neg_nonneg; lra).
  destruct k as [| s | | y]; cbn in Hk; try contradiction.
  - subst s. unfold mul. cbn [is_zero]. rewrite Hz, Hn. reflexivity.
  - unfold mul. cbn [is_zero]. rewrite Hz, Hn. cbn. lra.
  - unfold mul. cbn [is_zero]. rewrite Hz. cbn [orb].
    destruct (Qeq_bool y 0) eqn:Ey.
    + rewrite Hn. cbn [xorb]. destruct (is_neg (Fin y)); cbn; lra.
    + cbn [to_Q]. apply round64_at_most; [exact Hp | nra].
Qed.

(** [p * k] for a positive [p] and [k] not below one. *)
Lemma mul_at_least (p : Q) (k : number) :
  binary64 p -> 0 < p -> at_least 1 k -> at_least p (mul (Fin p) k).
Proof.
  intros Hp Hpos Hk.
  assert (Hz : Qeq_bool p 0 = false) by (apply Qeq_bool_false; lra).
  assert (Hn : is_neg (Fin p) = false) by (apply is_neg_nonneg; lra).
  destruct k as [| s | | y]; cbn in Hk; try contradiction.
  - subst s. unfold mul. cbn [is_zero]. rewrite Hz, Hn. reflexivity.
  - unfold mul. cbn [is_zero]. rewrite Hz. cbn [orb].
    rewrite (Qeq_bool_false y) by lra.
    cbn [to_Q]. apply round64_at_least; [exact Hp | nra].
Qed.

(** What is at least [r] is not below any [r' <= r]. *)
Lemma at_least_not_lt (a : number) (r r' : Q) :
  at_least r a -> r' <= r -> lt a (Fin r') = false.
Proof.
  intros Ha Hr. destruct a as [| s | | y]; cbn in *; try contradiction.
  - now subst s.
  - apply negb_false_iff, Qle_bool_iff. lra.
  - apply negb_false_iff, Qle_bool_iff. lra.
Qed.

(** *** What [parseFloat] returns is a binary64 value *)

Lemma zero_valid (s : bool) : valid (zero s).
Proof. destruct s; [exact I | apply binary64_0]. Qed.

Lemma parseFloat_valid (s : string) : valid (parseFloat s).
Proof.
  assert (H : forall b t, valid (parse_signed b t)).
  { intros b t. unfold parse_signed.
    destruct (prefix "Infinity" t); [exact I |].
    destruct (parse_unsigned t) as [q |]; [| exact I].
    destruct (Qeq_bool q 0); [apply zero_valid | apply round64_valid]. }
  unfold parseFloat. destruct (trimStart s) as [| c rest]; [apply H |].
  destruct c as [[] [] [] [] [] [] [] []]; apply H.
Qed.

Lemma binary64_1 : binary64 1.
Proof. apply (binary64_Z 1). reflexivity. Qed.

Lemma binary64_100 : binary64 100.
Proof. apply (binary64_Z 100). reflexivity. Qed.

End JSFacts.

(** ** Properties of the price rule evaluator *)

Module PriceRuleFacts.
Import JS JSFacts PriceRuleEvaluator.
Local Open Scope Q_scope.

Lemma lt_Fin_true x y : lt (Fin x) (Fin y) = true <-> x < y.
Proof.
  unfold lt, to_Q. destruct (Qle_bool y x) eqn:E; simpl.
  - apply Qle_bool_iff in E. split; [discriminate | intros H; lra].
  - split; [intros _ | reflexivity].
    destruct (Qlt_le_dec x y) as [H | H]; [exact H |].
    apply Qle_bool_iff in H. congruence.
Qed.

Lemma lt_Fin_false x y : lt (Fin x) (Fin y) = false <-> y <= x.
Proof.
  unfold lt, to_Q. destruct (Qle_bool y x) eqn:E; simpl.
  - apply Qle_bool_iff in E. tauto.
  - split; [discriminate |]. intros H. apply Qle_bool_iff in H. congruence.
Qed.

(** What is not below a finite number is at least its value. *)
Lemma lt_false_at_least (a : number) (r : Q) :
  a <> NaN -> lt a (Fin r) = false -> at_least r a.
Proof.
  destruct a as [| [] | | q]; cbn; intros Hn H; try congruence.
  - apply negb_false_iff, Qle_bool_iff in H. exact H.
  - apply negb_false_iff, Qle_bool_iff in H. exact H.
Qed.

(** The literals of [calculateNewPrice]. *)
Lemma literal_1 : of_Z 1 = Fin 1.
Proof. vm_compute. reflexivity. Qed.

Lemma literal_100 : of_Z 100 = Fin 100.
Proof. vm_compute. reflexivity. Qed.

Lemma literal_001 :
  exists d, num 1 100 = Fin d /\ (1 # 100) <= d /\ d <= (3 # 256).
Proof. eexists. split; [vm_compute; reflexivity |]. split; discriminate. Qed.

Lemma literal_099 :
  exists d, num 99 100 = Fin d /\ (253 # 256) <= d /\ d <= (254 # 256).
Proof. eexists. split; [vm_compute; reflexivity |]. split; discriminate. Qed.

Lemma literal_095 :
  exists d, num 95 100 = Fin d /\ (243 # 256) <= d /\ d <= (244 # 256).
Proof. eexists. split; [vm_compute; reflexivity |]. split; discriminate. Qed.

Lemma literal_valid (a b : Z) : valid (num a b).
Proof. apply round64_valid. Qed.

(** *** No operation of the rule makes a NaN of a positive price *)

Lemma add_not_NaN (a b : number) :
  a <> NaN -> b <> NaN -> is_finite a = true \/ is_finite b = true ->
  add a b <> NaN.
Proof.
  intros Ha Hb Hfin.
  destruct a as [| s | | x]; destruct b as [| t | | y];
    try congruence; try discriminate; try apply round64_not_NaN.
  destruct Hfin; discriminate.
Qed.

Lemma neg_not_NaN (a : number) : a <> NaN -> neg a <> NaN.
Proof.
  intros Ha. destruct a as [| s | | x]; [congruence | discriminate.. |].
  cbn. destruct (Qeq_bool x 0); discriminate.
Qed.

Lemma neg_finite (a : number) : is_finite (neg a) = is_finite a.
Proof.
  destruct a as [| s | | x]; try reflexivity. cbn.
  now destruct (Qeq_bool x 0).
Qed.

Lemma sub_not_NaN (a b : number) :
  a <> NaN -> b <> NaN -> is_finite a = true \/ is_finite b = true ->
  sub a b <> NaN.
Proof.
  intros Ha Hb Hfin. unfold sub. apply add_not_NaN; [exact Ha | |].
  - now apply neg_not_NaN.
  - now rewrite neg_finite.
Qed.

Lemma div_100_not_NaN (a : number) : a <> NaN -> div a (Fin 100) <> NaN.
Proof.
  intros Ha. destruct a as [| s | | x]; [congruence | discriminate | |].
  - vm_compute. discriminate.
  - unfold div. change (is_zero (Fin 100)) with false. cbv iota.
    destruct (is_zero (Fin x)); [| apply round64_not_NaN].
    unfold zero. destruct (xorb _ _); discriminate.
Qed.

Lemma mul_not_NaN (p : Q) (b : number) :
  ~ p == 0 -> b <> NaN -> mul (Fin p) b <> NaN.
Proof.
  intros Hp Hb.
  assert (Hz : Qeq_bool p 0 = false).
  { destruct (Qeq_bool p 0) eqn:E; [| reflexivity].
    apply Qeq_bool_iff in E. contradiction. }
  destruct b as [| t | | y]; [congruence | | |].
  - unfold mul, is_zero. rewrite Hz. discriminate.
  - unfold mul, is_zero. rewrite Hz. cbn [orb]. unfold zero.
    destruct (xorb _ _); discriminate.
  - unfold mul. cbn [is_zero]. rewrite Hz. cbn [orb].
    destruct (Qeq_bool y 0); [| apply round64_not_NaN].
    unfold zero. destruct (xorb _ _); discriminate.
Qed.

Lemma applyRule_not_NaN (p : Q) (rule : PriceRule) (action : Action) :
  0 < p -> value rule <> NaN -> applyRule (Fin p) rule action <> NaN.
Proof.
  intros Hp Hv. unfold applyRule.
  destruct (type rule).
  - apply mul_not_NaN; [lra |]. rewrite literal_1, literal_100.
    destruct action.
    + apply add_not_NaN; [discriminate | now apply div_100_not_NaN | now left].
    + apply sub_not_NaN; [discriminate | now apply div_100_not_NaN | now left].
  - destruct action;
      [apply add_not_NaN | apply sub_not_NaN];
      try discriminate; try assumption; now left.
  - exact Hv.
Qed.

(** The business rule: a lower bound of one hundredth, and nothing else. *)
Lemma applyMinimum_spec (pre : number) :
  pre <> NaN ->
  (lt pre (num 1 100) = true -> applyMinimum pre = num 1 100)
  /\ (lt pre (num 1 100) = false -> applyMinimum pre = pre)
  /\ at_least (1 # 100) (applyMinimum pre).
Proof.
  intros Hpre. unfold applyMinimum.
  destruct literal_001 as (d & Hd & Hlow & _).
  destruct (lt pre (num 1 100)) eqn:E.
  - split; [reflexivity |]. split; [discriminate |]. rewrite Hd. exact Hlow.
  - split; [discriminate |]. split; [reflexivity |].
    rewrite Hd in E. apply at_least_trans with d; [exact Hlow |].
    now apply lt_false_at_least.
Qed.

Lemma Qfloor_nonneg x : 0 <= x -> (0 <= Qfloor x)%Z.
Proof.
  intros H. pose proof (Qfloor_resp_le 0 x H) as L.
  change 0 with (inject_Z 0) in L. rewrite Qfloor_Z in L. exact L.
Qed.

Lemma inject_Z_nonneg z : (0 <= z)%Z -> 0 <= inject_Z z.
Proof. intros H. change 0 with (inject_Z 0). rewrite <- Zle_Qle. exact H. Qed.

(** [Math.floor(m) + d] for a literal [d] between 0.01 and 1. *)
Lemma floor_plus_at_least (m : number) (a b : Z) (d : Q) :
  at_least (1 # 100) m ->
  num a b = Fin d -> (1 # 100) <= d ->
  at_least (1 # 100) (add (Math_floor m) (num a b)).
Proof.
  intros Hm Hd Hlow. rewrite Hd.
  destruct m as [| s | | q]; unfold at_least in Hm; try contradiction.
  - subst s. reflexivity.
  - cbn [Math_floor add].
    assert (Hfl : 0 <= inject_Z (Qfloor q))
      by (apply inject_Z_nonneg, Qfloor_nonneg; lra).
    apply at_least_trans with d; [exact Hlow |].
    apply round64_at_least; [| lra].
    pose proof (literal_valid a b) as Hv. rewrite Hd in Hv. exact Hv.
Qed.

Lemma round_at_least (m : number) :
  at_least (1 # 100) m -> at_least 0 (Math_round m).
Proof.
  destruct m as [| s | | q]; unfold at_least, Math_round;
    try contradiction; try (intros; assumption).
  intros H.
  assert (Hneg : Qle_bool 0 q = true) by (apply Qle_bool_iff; lra).
  rewrite Hneg, andb_false_r.
  apply inject_Z_nonneg, Qfloor_nonneg. lra.
Qed.

Lemma applyRounding_at_least (rule : PriceRule) (m : number) :
  at_least (1 # 100) m ->
  at_least 0 (applyRounding rule m)
  /\ (roundingRule rule <> Some nearest_00 ->
      at_least (1 # 100) (applyRounding rule m)).
Proof.
  intros Hm. unfold applyRounding.
  destruct literal_099 as (d99 & H99 & L99 & _).
  destruct literal_095 as (d95 & H95 & L95 & _).
  assert (F99 := floor_plus_at_least m 99 100 d99 Hm H99 ltac:(lra)).
  assert (F95 := floor_plus_at_least m 95 100 d95 Hm H95 ltac:(lra)).
  assert (Weak : forall a, at_least (1 # 100) a -> at_least 0 a)
    by (intros a; apply at_least_trans; lra).
  destruct (roundingRule rule) as [[] |].
  - split; [now apply Weak | intros _; exact Hm].
  - split; [now apply Weak | intros _; exact F99].
  - split; [now apply round_at_least | congruence].
  - split; [now apply Weak | intros _; exact F95].
  - split; [now apply Weak | intros _; exact Hm].
Qed.

Lemma hundredths_nonneg x : 0 <= x -> (0 <= hundredths x)%Z.
Proof. intros H. apply Qfloor_nonneg. lra. Qed.

Lemma hundredths_pos x : (1 # 100) <= x -> (1 <= hundredths x)%Z.
Proof.
  intros H. unfold hundredths.
  assert (L : (Qfloor (inject_Z 1) <= Qfloor (x * 100 + (1 # 2)))%Z)
    by (apply Qfloor_resp_le; unfold inject_Z; lra).
  rewrite Qfloor_Z in L. exact L.
Qed.

(** [toFixed(2)] of a number from 0 up to, and not, 10^21. *)
Lemma toFixed2_nonneg x :
  0 <= x -> x < 10 ^ 21 ->
  toFixed2 (Fin x) = render_fixed2 (hundredths x).
Proof.
  intros H Hbig. unfold toFixed2.
  assert (Ha : Qabs x == x) by (now apply Qabs_pos).
  apply Qle_bool_iff in H. rewrite H. cbn [negb].
  destruct (Qle_bool (10 ^ 21) (Qabs x)) eqn:E.
  - apply Qle_bool_iff in E. rewrite Ha in E. lra.
  - cbn [append]. f_equal. unfold hundredths. apply Qfloor_comp.
    now rewrite Ha.
Qed.

(** C3, amended: for a price string that reads as a finite positive
    number, every rule whose value is not NaN and either direction, the
    intermediate price [pre] is a number (not NaN); it is raised to the
    literal 0.01 when it is below it and is otherwise left alone (there is
    no upper bound); the rounding rule is applied to the clamped value
    [m], which is at least 0.01; the returned string is [toFixed(2)] of
    the rounded value [x], which is never negative, and is at least 0.01
    for every rounding rule other than [nearest_00]; below 10^21 the
    string is the two-decimal rendering of a whole number of hundredths,
    which is at least 1 for every rounding rule other than
    [nearest_00]. *)
Theorem calculateNewPrice_minimum (s : string) (p : Q) (rule : PriceRule)
    (action : Action) :
  parseFloat s = Fin p ->
  0 < p ->
  value rule <> NaN ->
  exists pre m x,
    applyRule (Fin p) rule action = pre
    /\ pre <> NaN
    /\ applyMinimum pre = m
    /\ (lt pre (num 1 100) = true -> m = num 1 100)
    /\ (lt pre (num 1 100) = false -> m = pre)
    /\ at_least (1 # 100) m
    /\ applyRounding rule m = x
    /\ finalPrice s rule action = x
    /\ calculateNewPrice s rule action = toFixed2 x
    /\ at_least 0 x
    /\ (roundingRule rule <> Some nearest_00 -> at_least (1 # 100) x)
    /\ (forall q, x = Fin q -> q < 10 ^ 21 ->
          calculateNewPrice s rule action = render_fixed2 (hundredths q)
          /\ (0 <= hundredths q)%Z
          /\ (roundingRule rule <> Some nearest_00 ->
              (1 <= hundredths q)%Z)).
Proof.
  intros Hs Hp Hv.
  pose proof (applyRule_not_NaN p rule action Hp Hv) as Hpre.
  destruct (applyMinimum_spec _ Hpre) as (Hraise & Hkeep & Hm).
  destruct (applyRounding_at_least rule _ Hm) as (Hx0 & Hx1).
  do 3 eexists. split; [reflexivity |]. split; [exact Hpre |].
  split; [reflexivity |]. split; [exact Hraise |]. split; [exact Hkeep |].
  split; [exact Hm |]. split; [reflexivity |].
  assert (Hfin : finalPrice s rule action
                 = applyRounding rule (applyMinimum (applyRule (Fin p) rule action)))
    by (unfold finalPrice; now rewrite Hs).
  split; [exact Hfin |].
  split; [unfold calculateNewPrice; now rewrite Hfin |].
  split; [exact Hx0 |]. split; [exact Hx1 |].
  intros q Hq Hbig. rewrite Hq in Hx0, Hx1. cbn in Hx0, Hx1.
  split; [| split].
  - unfold calculateNewPrice. rewrite Hfin, Hq.
    now apply toFixed2_nonneg.
  - now apply hundredths_nonneg.
  - intros Hrr. apply hundredths_pos. now apply Hx1.
Qed.

(** The amended statement at the specification's floor-clamp example. *)
Lemma calculateNewPrice_minimum_witness :
  exists pre m x,
    applyRule (Fin (to_Q (parseFloat "0.05"))) (mkRule fixed 10 none) decrease
    = pre
    /\ pre <> NaN
    /\ applyMinimum pre = m
    /\ (lt pre (num 1 100) = true -> m = num 1 100)
    /\ (lt pre (num 1 100) = false -> m = pre)
    /\ at_least (1 # 100) m
    /\ applyRounding (mkRule fixed 10 none) m = x
    /\ finalPrice "0.05" (mkRule fixed 10 none) decrease = x
    /\ calculateNewPrice "0.05" (mkRule fixed 10 none) decrease = toFixed2 x
    /\ at_least 0 x
    /\ (roundingRule (mkRule fixed 10 none) <> Some nearest_00 ->
        at_least (1 # 100) x)
    /\ (forall q, x = Fin q -> q < 10 ^ 21 ->
          calculateNewPrice "0.05" (mkRule fixed 10 none) decrease
          = render_fixed2 (hundredths q)
          /\ (0 <= hundredths q)%Z
          /\ (roundingRule (mkRule fixed 10 none) <> Some nearest_00 ->
              (1 <= hundredths q)%Z)).
Proof.
  apply (calculateNewPrice_minimum "0.05" (to_Q (parseFloat "0.05"))
           (mkRule fixed 10 none) decrease).
  - vm_compute. reflexivity.
  - vm_compute. reflexivity.
  - vm_compute. discriminate.
Defined.

(** C3, as stated, fails.  With the rounding rule [nearest_00] the clamped
    value 0.01 is rounded to the nearest integer, 0: the returned string
    is "0.00", which read back as a number is below 0.01.  And a rule
    whose value is NaN gives the string "NaN". *)
Lemma calculateNewPrice_below_minimum :
  (exists p, parseFloat "0.05" = Fin p /\ 0 < p)
  /\ calculateNewPrice "0.05" (mkRule fixed 10 nearest_00) decrease = "0.00"
  /\ finalPrice "0.05" (mkRule fixed 10 nearest_00) decrease = Fin 0
  /\ lt (parseFloat (calculateNewPrice "0.05" (mkRule fixed 10 nearest_00) decrease))
        (num 1 100) = true
  /\ calculateNewPrice "0.05"
       {| type := absolute; value := NaN; applyTo := applyPrice;
          roundingRule := Some none |} decrease = "NaN".
Proof.
  split; [eexists; split; [vm_compute; reflexivity | reflexivity] |].
  repeat split; vm_compute; reflexivity.
Qed.

End PriceRuleFacts.

Module PriceExamples.
Import JS PriceRuleEvaluator.
Local Open Scope Q_scope.

Example worked_rounding :
  calculateNewPrice "100.00" (mkRule percentage 20 nearest_99) increase = "120.99".
Proof. vm_compute. reflexivity. Qed.

Example floor_clamp :
  calculateNewPrice "0.05" (mkRule fixed 10 none) decrease = "0.01".
Proof. vm_compute. reflexivity. Qed.

Example floor_clamp_00 :
  calculateNewPrice "0.05" (mkRule fixed 10 nearest_00) decrease = "0.00".
Proof. vm_compute. reflexivity. Qed.

Example not_a_number :
  calculateNewPrice "abc" (mkRule fixed 10 nearest_00) decrease = "NaN".
Proof. vm_compute. reflexivity. Qed.

Example plain :
  calculateNewPrice "12.344" (mkRule percentage 0 none) increase = "12.34".
Proof. vm_compute. reflexivity. Qed.

(** The product 10.5 * 0.85 is the binary64 value 8.924999999999999. *)
Example rounded_product :
  calculateNewPrice "10.50" (mkRule percentage 15 none) decrease = "8.92".
Proof. vm_compute. reflexivity. Qed.

Example exponent_and_space :
  calculateNewPrice "1e3" (mkRule percentage 0 none) increase = "1000.00"
  /\ calculateNewPrice " 5" (mkRule percentage 0 none) increase = "5.00"
  /\ calculateNewPrice "1.005" (mkRule percentage 0 none) increase = "1.00".
Proof. vm_compute. repeat split. Qed.

Example exponent_notation :
  calculateNewPrice "1000000000000000000000" (mkRule percentage 0 nearest_00)
                    increase = "1e+21".
Proof. vm_compute. reflexivity. Qed.

Example sum_of_tenths :
  toFixed2 (mul (add (literal (1 # 10)) (literal (2 # 10))) (of_Z 100))
  = "30.00"
  /\ lt (literal (3 # 10)) (add (literal (1 # 10)) (literal (2 # 10))) = true.
Proof. vm_compute. split; reflexivity. Qed.

End PriceExamples.

(** ** Properties of the history manager *)

Module HistoryFacts.
Import Json History.
Local Open Scope hist_scope.

Lemma MAX_ENTRIES_pos : MAX_ENTRIES = S (pred MAX_ENTRIES).
Proof. reflexivity. Qed.

(** Trimming after each insertion is trimming once at the end. *)
Lemma firstn_app_firstn {A : Type} (n : nat) (a b : list A) :
  firstn n (a ++ firstn n b) = firstn n (a ++ b).
Proof.
  rewrite !firstn_app, firstn_firstn.
  f_equal. f_equal. lia.
Qed.

Section Facts.

Context (env : Env).

Lemma createEntry_eq (entry : EntryInput) (w : World) :
  createEntry env entry w =
  (entryAt env (tick w) entry,
   {| storage := firstn MAX_ENTRIES (entryAt env (tick w) entry :: storage w);
      tick := 3 + tick w |}).
Proof. reflexivity. Qed.

Lemma length_entriesFrom t inputs :
  List.length (entriesFrom env t inputs) = List.length inputs.
Proof.
  revert t. induction inputs as [| x rest IH]; intros t; simpl; [reflexivity |].
  now rewrite IH.
Qed.

Lemma input_entriesFrom t inputs :
  map input (entriesFrom env t inputs) = inputs.
Proof.
  revert t. induction inputs as [| x rest IH]; intros t; simpl; [reflexivity |].
  now rewrite IH.
Qed.

(** The loop of [createBulkOperation], from a store that is within
    capacity. *)
Lemma forEach_createEntry {A : Type} (mk : A -> EntryInput) (items : list A) :
  forall (acc : list UniversalHistoryEntry) (w : World),
    List.length (storage w) <= MAX_ENTRIES ->
    forEach items
      (fun entries item =>
         individualEntry <- createEntry env (mk item) ;;
         ret (entries ++ [individualEntry])%list) acc w =
    ((acc ++ entriesFrom env (tick w) (map mk items))%list,
     {| storage :=
          firstn MAX_ENTRIES
            (rev (entriesFrom env (tick w) (map mk items)) ++ storage w);
        tick := 3 * List.length items + tick w |}).
Proof.
  induction items as [| x rest IH]; intros acc w Hlen.
  - cbn [forEach map entriesFrom rev app ret List.length].
    rewrite app_nil_r, firstn_all2 by exact Hlen.
    destruct w; reflexivity.
  - cbn [forEach map entriesFrom]. unfold bind at 1.
    unfold bind at 1. rewrite createEntry_eq. cbn [ret].
    rewrite IH by (cbn [storage]; apply firstn_le_length).
    cbn [storage tick]. f_equal.
    + now rewrite <- app_assoc.
    + f_equal.
      * cbn [rev]. rewrite <- app_assoc. cbn [app].
        apply firstn_app_firstn.
      * cbn [List.length]. lia.
Qed.

Lemma createBulkOperation_eq opType cat descr items payload (w : World) :
  let batch := batchIdAt env (tick w) in
  let main := entryAt env (2 + tick w)
                (mainEntryInput opType cat descr items payload batch) in
  let children := entriesFrom env (5 + tick w)
                    (map (individualEntryInput opType cat descr batch) items) in
  createBulkOperation env opType cat descr items payload w =
  ((batch, main :: children),
   {| storage := firstn MAX_ENTRIES (rev children ++ main :: storage w);
      tick := 3 * List.length items + (5 + tick w) |}).
Proof.
  intros batch main children.
  unfold createBulkOperation.
  unfold bind at 1. cbn [now]. unfold bind at 1. cbn [random].
  unfold bind at 1. rewrite createEntry_eq. cbn [storage tick].
  unfold bind at 1.
  rewrite forEach_createEntry by (cbn [storage]; apply firstn_le_length).
  cbn [storage tick ret]. fold batch. fold main. fold children.
  f_equal. f_equal.
  change (main :: storage w) with ([main] ++ storage w)%list.
  rewrite firstn_app_firstn. reflexivity.
Qed.

Lemma filter_all_false {A : Type} (p : A -> bool) (l : list A) :
  Forall (fun x => p x = false) l -> filter p l = [].
Proof.
  induction 1 as [| x l Hx _ IH]; simpl; [reflexivity |].
  now rewrite Hx.
Qed.

Lemma filter_all_true {A : Type} (p : A -> bool) (l : list A) :
  Forall (fun x => p x = true) l -> filter p l = l.
Proof.
  induction 1 as [| x l Hx _ IH]; simpl; [reflexivity |].
  now rewrite Hx, IH.
Qed.

Lemma Forall_firstn {A : Type} (P : A -> Prop) (n : nat) (l : list A) :
  Forall P l -> Forall P (firstn n l).
Proof.
  intros H. revert n. induction H as [| x l Hx _ IH]; intros [| n]; simpl;
    constructor; auto.
Qed.

Lemma children_shape opType cat descr batch items t :
  Forall (childShape batch)
    (entriesFrom env t (map (individualEntryInput opType cat descr batch) items)).
Proof.
  revert t. induction items as [| x rest IH]; intros t; cbn [map entriesFrom].
  - constructor.
  - constructor; [| apply IH]. repeat split.
Qed.

Lemma batchIdAt_truthy t : truthy (Some (batchIdAt env t)) = true.
Proof. reflexivity. Qed.

Lemma batch_is_not_entry_id t t' entry :
  Some (batchIdAt env t) <> Some (id (entryAt env t' entry)).
Proof. unfold batchIdAt, entryAt. cbn. intros H. discriminate H. Qed.

Lemma getFilteredEntries_batch (b : string) (w : World) :
  truthy (Some b) = true ->
  getFilteredEntries (batchFilter b) w = (filter (matches_batch b) (storage w), w).
Proof.
  intros Hb. unfold getFilteredEntries, batchFilter, bind, getAllEntries, ret.
  cbn [f_category f_operationType f_status f_productId f_batchId f_searchTerm
       f_dateRange when].
  rewrite Hb. reflexivity.
Qed.

Lemma same_refl (b : string) : same (Some b) b = true.
Proof. apply String.eqb_refl. Qed.

Lemma child_matches batch e : childShape batch e -> matches_batch batch e = true.
Proof.
  intros (_ & Hb & _). unfold matches_batch. now rewrite Hb, same_refl.
Qed.

Lemma child_is_child batch e : childShape batch e -> isChild e = true.
Proof. intros (Ha & _). unfold isChild. now rewrite Ha. Qed.

Lemma child_is_not_aggregate batch e : childShape batch e -> isAggregate e = false.
Proof. intros (Ha & _). unfold isAggregate. now rewrite Ha. Qed.

(** C5, amended: the result of [createBulkOperation] is the aggregate
    entry followed by one child entry per item; the aggregate carries the
    batch id and no [parentBatchId]; every child carries the batch id both
    as its [batchId] and as its [parentBatchId], which is therefore the
    aggregate's [batchId] and never the aggregate's [id]. *)
Theorem createBulkOperation_linkage opType cat descr items payload (w : World) :
  let r := fst (createBulkOperation env opType cat descr items payload w) in
  exists main children,
    snd r = main :: children
    /\ List.length children = List.length items
    /\ action (operationData main) = "bulk_operation"
    /\ batchId (operationData main) = Some (fst r)
    /\ parentBatchId (operationData main) = None
    /\ Forall (fun child : UniversalHistoryEntry =>
                 action (operationData child) = "individual_item_in_bulk"
                 /\ batchId (operationData child) = Some (fst r)
                 /\ parentBatchId (operationData child) = Some (fst r)
                 /\ parentBatchId (operationData child)
                    = batchId (operationData main)
                 /\ parentBatchId (operationData child) <> Some (id main))
              children.
Proof.
  pose proof (createBulkOperation_eq opType cat descr items payload w) as E.
  cbv zeta in E. cbv zeta. rewrite E. cbn [fst snd].
  eexists. eexists. split; [reflexivity |].
  split; [now rewrite length_entriesFrom, length_map |].
  do 3 (split; [reflexivity |]).
  eapply Forall_impl; [| apply children_shape].
  intros child (Ha & Hb & Hp & _). rewrite Ha, Hb, Hp.
  repeat split. apply batch_is_not_entry_id.
Qed.

(** C9: [createBulkOperation] gives the aggregate entry and every child
    entry the status [success]; the aggregate's summary has [totalItems]
    and [successfulItems] equal to the number of items and [failedItems]
    equal to 0, so their sum is [totalItems]; no child carries a summary;
    and these entries are what the call puts in the store. *)
Theorem createBulkOperation_records_success opType cat descr items payload
    (w : World) :
  let r := createBulkOperation env opType cat descr items payload w in
  exists main children m summary,
    snd (fst r) = main :: children
    /\ List.length children = List.length items
    /\ Forall (fun e : UniversalHistoryEntry => status e = success)
              (main :: children)
    /\ metadata main = Some m
    /\ bulkOperationSummary m = Some summary
    /\ totalItems summary = List.length items
    /\ successfulItems summary = List.length items
    /\ failedItems summary = 0
    /\ successfulItems summary + failedItems summary = totalItems summary
    /\ Forall (fun e : UniversalHistoryEntry => metadata e = None) children
    /\ storage (snd r)
       = firstn MAX_ENTRIES (rev (main :: children) ++ storage w).
Proof.
  pose proof (createBulkOperation_eq opType cat descr items payload w) as E.
  cbv zeta in E. cbv zeta. rewrite E. cbn [fst snd storage].
  do 4 eexists. split; [reflexivity |].
  split; [now rewrite length_entriesFrom, length_map |].
  split.
  { constructor; [reflexivity |].
    eapply Forall_impl; [| apply children_shape]. now intros e (_ & _ & _ & H & _). }
  do 2 (split; [reflexivity |]).
  cbn [totalItems successfulItems failedItems].
  do 3 (split; [reflexivity |]).
  split; [lia |].
  split.
  { eapply Forall_impl; [| apply children_shape]. now intros e (_ & _ & _ & _ & H). }
  cbn [rev]. now rewrite <- app_assoc.
Qed.

(** C8, amended: when the batch has fewer items than the store's capacity
    and no entry already in the store carries the batch id that the call
    draws, the query by that batch id, made right after the call, returns
    the entries of the call and nothing else: one aggregate entry and one
    child entry per item, most recent first. *)
Theorem batch_query_after_create opType cat descr items payload (w : World) :
  List.length items < MAX_ENTRIES ->
  Forall (fun e => matches_batch (batchIdAt env (tick w)) e = false) (storage w) ->
  let r := createBulkOperation env opType cat descr items payload w in
  let result := fst (getFilteredEntries (batchFilter (fst (fst r))) (snd r)) in
  fst (fst r) = batchIdAt env (tick w)
  /\ result = rev (snd (fst r))
  /\ List.length (filter isAggregate result) = 1
  /\ List.length (filter isChild result) = List.length items
  /\ List.length result = 1 + List.length items.
Proof.
  intros Hlen Hfresh.
  pose proof (createBulkOperation_eq opType cat descr items payload w) as E.
  cbv zeta in E. cbv zeta. rewrite E. cbn [fst snd].
  rewrite getFilteredEntries_batch by apply batchIdAt_truthy.
  cbn [fst storage].
  set (batch := batchIdAt env (tick w)) in *.
  set (main := entryAt env (2 + tick w) _).
  set (children := entriesFrom env (5 + tick w) _).
  assert (Hch : Forall (childShape batch) children) by apply children_shape.
  assert (Hn : List.length children = List.length items)
    by (unfold children; now rewrite length_entriesFrom, length_map).
  assert (Hrev : Forall (childShape batch) (rev children))
    by (apply Forall_rev, Hch).
  change (main :: storage w) with ([main] ++ storage w)%list.
  rewrite app_assoc, firstn_app.
  rewrite (@firstn_all2 _ MAX_ENTRIES (rev children ++ [main])%list)
    by (rewrite length_app, length_rev; cbn [List.length]; lia).
  rewrite filter_app.
  rewrite (filter_all_false (matches_batch batch) (firstn _ (storage w)))
    by (apply Forall_firstn, Hfresh).
  rewrite app_nil_r, filter_app.
  rewrite (filter_all_true (matches_batch batch) (rev children))
    by (eapply Forall_impl; [| exact Hrev]; apply child_matches).
  assert (Hm : matches_batch batch main = true)
    by (unfold matches_batch, main; cbn; now rewrite String.eqb_refl).
  cbn [filter]. rewrite Hm.
  split; [reflexivity |].
  split; [reflexivity |].
  rewrite !filter_app.
  rewrite (filter_all_false isAggregate (rev children))
    by (eapply Forall_impl; [| exact Hrev]; apply child_is_not_aggregate).
  rewrite (filter_all_true isChild (rev children))
    by (eapply Forall_impl; [| exact Hrev]; apply child_is_child).
  split; [reflexivity |].
  split.
  - rewrite length_app, length_rev, Hn. cbn. lia.
  - rewrite length_app, length_rev, Hn. cbn. lia.
Qed.

(** *** Rollback *)

Lemma rollbackCall_storage entry url method payload done failed (w : World) :
  storage (snd (rollbackCall env entry url method payload done failed w))
  = storage w.
Proof.
  unfold rollbackCall, bind, fetch.
  destruct (remote env (tick w) url method payload) as [t | []]; reflexivity.
Qed.

Lemma executeApiRollback_storage entry (w : World) :
  storage (snd (executeApiRollback env entry w)) = storage w.
Proof.
  unfold executeApiRollback.
  destruct (rollbackData entry) as [data |]; [| reflexivity].
  destruct (operationType entry); try reflexivity; apply rollbackCall_storage.
Qed.

Lemma forEach_storage {A S : Type} (body : S -> A -> M S) (l : list A) :
  (forall s x w, storage (snd (body s x w)) = storage w) ->
  forall s w, storage (snd (forEach l body s w)) = storage w.
Proof.
  intros Hbody. induction l as [| x rest IH]; intros s w; [reflexivity |].
  cbn [forEach]. unfold bind.
  specialize (Hbody s x w). destruct (body s x w) as [s' w'].
  rewrite IH. exact Hbody.
Qed.

Lemma executeBatchRollback_storage entry (w : World) :
  storage (snd (executeBatchRollback env entry w)) = storage w.
Proof.
  unfold executeBatchRollback. unfold bind at 1.
  assert (Hitems : snd (batchItemsOf entry w) = w).
  { unfold batchItemsOf. destruct (batchId (operationData entry)); reflexivity. }
  destruct (batchItemsOf entry w) as [batchEntries w0]. cbn [snd] in Hitems.
  subst w0. unfold bind at 1.
  match goal with
  | |- context [forEach batchEntries ?body ?s w] =>
      pose proof (forEach_storage body batchEntries) as H;
      specialize (fun Hb => H Hb s w);
      destruct (forEach batchEntries body s w) as [[results errs] w1]
  end.
  cbn [snd ret] in *. apply H.
  intros [results' errs'] x w'. unfold bind.
  pose proof (executeApiRollback_storage x w') as Hx.
  destruct (executeApiRollback env x w') as [[result | t] w2]; cbn [snd] in *.
  - destruct (r_success result); exact Hx.
  - exact Hx.
Qed.

Lemma executeRollback_storage entry (w : World) :
  storage (snd (executeRollback env entry w)) = storage w.
Proof.
  unfold executeRollback.
  destruct (rollbackData entry) as [data |]; [| reflexivity].
  destruct (rollbackType data).
  - apply executeApiRollback_storage.
  - apply executeBatchRollback_storage.
  - reflexivity.
Qed.

Lemma rollbackOperation_missing entryId (w : World) :
  lookup entryId w = None ->
  rollbackOperation env entryId w
  = (Returned (failure "History entry not found"), w).
Proof.
  unfold lookup, rollbackOperation, bind, getAllEntries. intros ->. reflexivity.
Qed.

Lemma rollbackOperation_locked entryId entry (w : World) :
  lookup entryId w = Some entry ->
  mayRollback entry = false ->
  rollbackOperation env entryId w
  = (Returned (failure "This operation cannot be rolled back"), w).
Proof.
  unfold lookup, rollbackOperation, bind, getAllEntries. intros -> ->. reflexivity.
Qed.

(** An eligible entry: what [rollbackOperation] makes of the outcome of
    [executeRollback]. *)
Lemma rollbackOperation_eligible entryId entry (w : World) :
  lookup entryId w = Some entry ->
  mayRollback entry = true ->
  rollbackOperation env entryId w =
  match executeRollback env entry w with
  | (Returned result, w1) =>
      if r_success result
      then (Returned result,
            {| storage :=
                 firstn MAX_ENTRIES
                   (entryAt env (tick w1) (rollbackEntryInput entry entryId)
                    :: storage w);
               tick := 3 + tick w1 |})
      else (Returned result, w1)
  | (Threw t, w1) =>
      (Returned (failure match t with
                         | ErrorObj _ msg => msg
                         | NonError _ => "Rollback failed"
                         end), w1)
  end.
Proof.
  unfold lookup, rollbackOperation. unfold bind at 1. unfold getAllEntries at 1.
  intros -> ->. cbn [negb]. unfold try_catch, and_then. unfold bind at 1 2.
  pose proof (executeRollback_storage entry w) as Hst.
  destruct (executeRollback env entry w) as [[result | t] w1]; cbn [snd] in Hst.
  - destruct (r_success result).
    + unfold bind. rewrite createEntry_eq. cbn [ret]. now rewrite Hst.
    + reflexivity.
  - reflexivity.
Qed.

(** C4: when the entry exists, may be rolled back, and its inverse
    mutation succeeds, [rollbackOperation] returns that success and puts
    exactly one new entry in front of the store; the new entry has the
    source's operation type, the action "rollback", the source's old and
    new values swapped, and may not itself be rolled back. *)
Theorem rollback_success_appends entryId entry result (w w1 : World) :
  lookup entryId w = Some entry ->
  mayRollback entry = true ->
  executeRollback env entry w = (Returned result, w1) ->
  r_success result = true ->
  exists (e : UniversalHistoryEntry) (w' : World),
    rollbackOperation env entryId w = (Returned result, w')
    /\ storage w' = firstn MAX_ENTRIES (e :: storage w)
    /\ operationType e = operationType entry
    /\ action (operationData e) = "rollback"
    /\ oldValues (operationData e) = newValues (operationData entry)
    /\ newValues (operationData e) = oldValues (operationData entry)
    /\ (exists data, rollbackData e = Some data /\ canRollback data = false)
    /\ mayRollback e = false.
Proof.
  intros Hfind Hmay Hexec Hok.
  rewrite (rollbackOperation_eligible entryId entry w Hfind Hmay), Hexec, Hok.
  eexists. eexists. split; [reflexivity |].
  cbn [storage]. split; [reflexivity |].
  repeat split. eexists. split; reflexivity.
Qed.


(** On a store of entries: on an entry that does not exist, on an entry
    that may not be rolled back, and on an entry whose rollback type is
    [file_restore], [rollbackOperation] returns a result with
    [success = false], and the world - store included - is as before. *)
Theorem rollbackOperation_ineligible entryId (w : World) :
  (lookup entryId w = None
   \/ exists entry,
        lookup entryId w = Some entry
        /\ (mayRollback entry = false
            \/ exists data, rollbackData entry = Some data
                            /\ rollbackType data = file_restore)) ->
  exists result,
    rollbackOperation env entryId w = (Returned result, w)
    /\ r_success result = false
    /\ affectedEntries result = [].
Proof.
  intros [Hnone | (entry & Hfind & Hwhy)].
  - rewrite (rollbackOperation_missing entryId w Hnone).
    eexists. repeat split.
  - destruct (mayRollback entry) eqn:Hmay.
    + destruct Hwhy as [Hno | (data & Hdata & Htype)]; [discriminate |].
      rewrite (rollbackOperation_eligible entryId entry w Hfind Hmay).
      unfold executeRollback. rewrite Hdata, Htype.
      eexists. repeat split.
    + rewrite (rollbackOperation_locked entryId entry w Hfind Hmay).
      eexists. repeat split.
Qed.

End Facts.

(** *** The properties at sample inputs *)

Section Samples.
Import Samples.


Lemma rollback_success_appends_witness :
  exists (e : UniversalHistoryEntry) (w' : World),
    rollbackOperation sampleEnv "hist_a" smallWorld
    = (Returned {| r_success := true;
                   message := "Product successfully rolled back";
                   affectedEntries := ["hist_a"];
                   errors := None |}, w')
    /\ storage w' = firstn MAX_ENTRIES (e :: storage smallWorld)
    /\ operationType e = operationType (productEntry "hist_a")
    /\ action (operationData e) = "rollback"
    /\ oldValues (operationData e)
       = newValues (operationData (productEntry "hist_a"))
    /\ newValues (operationData e)
       = oldValues (operationData (productEntry "hist_a"))
    /\ (exists data, rollbackData e = Some data /\ canRollback data = false)
    /\ mayRollback e = false.
Proof.
  exact (rollback_success_appends sampleEnv "hist_a" (productEntry "hist_a")
           _ smallWorld {| storage := storage smallWorld; tick := 1 |}
           eq_refl eq_refl eq_refl eq_refl).
Defined.

Lemma rollbackOperation_ineligible_witness :
  exists result,
    rollbackOperation sampleEnv "hist_b" smallWorld = (Returned result, smallWorld)
    /\ r_success result = false
    /\ affectedEntries result = [].
Proof.
  apply (rollbackOperation_ineligible sampleEnv "hist_b" smallWorld).
  right. exists (imageEntry "hist_b" true). split; [reflexivity |].
  right. eexists. split; reflexivity.
Defined.

Example rollback_missing :
  rollbackOperation sampleEnv "hist_zzz" smallWorld
  = (Returned (failure "History entry not found"), smallWorld).
Proof. reflexivity. Qed.

Example rollback_locked :
  rollbackOperation sampleEnv "hist_c" smallWorld
  = (Returned (failure "This operation cannot be rolled back"), smallWorld).
Proof. reflexivity. Qed.

Example rollback_file_restore :
  rollbackOperation sampleEnv "hist_b" smallWorld
  = (Returned (failure "File rollback not yet implemented"), smallWorld).
Proof. reflexivity. Qed.

Lemma batch_query_after_create_witness :
  let r := createBulkOperation sampleEnv bulk_discount pricing "Sale"
             [item "1"; item "2"] None emptyWorld in
  let result := fst (getFilteredEntries (batchFilter (fst (fst r))) (snd r)) in
  fst (fst r) = batchIdAt sampleEnv 0
  /\ result = rev (snd (fst r))
  /\ List.length (filter isAggregate result) = 1
  /\ List.length (filter isChild result) = 2
  /\ List.length result = 3.
Proof.
  apply (batch_query_after_create sampleEnv bulk_discount pricing "Sale"
           [item "1"; item "2"] None emptyWorld).
  - unfold MAX_ENTRIES. simpl. lia.
  - constructor.
Defined.

(** C5, as stated, fails: the children's [parentBatchId] is the batch id,
    which the aggregate carries as its [batchId]; the aggregate's [id] is a
    different string. *)
Lemma parentBatchId_is_not_aggregate_id :
  exists main c1 c2 : UniversalHistoryEntry,
    snd (fst (createBulkOperation sampleEnv bulk_discount pricing "Sale"
                [item "1"; item "2"] None emptyWorld)) = [main; c1; c2]
    /\ id main = "hist_1700000000002_k3j9x2m13"
    /\ parentBatchId (operationData c1) = Some "batch_1700000000000_k3j9x2m11"
    /\ parentBatchId (operationData c2) = Some "batch_1700000000000_k3j9x2m11"
    /\ parentBatchId (operationData c1) <> Some (id main).
Proof.
  do 3 eexists. split; [vm_compute; reflexivity |].
  repeat split. intros H. discriminate H.
Qed.


(** C8, as stated, fails: a batch of [MAX_ENTRIES] items pushes its own
    aggregate entry out of the store, so the query by its batch id returns
    the children and no aggregate entry. *)
Lemma full_batch_loses_aggregate :
  let r := createBulkOperation sampleEnv bulk_discount pricing "Sale"
             (repeat (item "1") MAX_ENTRIES) None emptyWorld in
  let result := fst (getFilteredEntries (batchFilter (fst (fst r))) (snd r)) in
  storage emptyWorld = []
  /\ List.length (filter isAggregate result) = 0
  /\ List.length (filter isChild result) = MAX_ENTRIES.
Proof.
  pose proof (createBulkOperation_eq sampleEnv bulk_discount pricing "Sale"
                (repeat (item "1") MAX_ENTRIES) None emptyWorld) as E.
  cbv zeta in E. cbv zeta. rewrite E. cbn [fst snd].
  rewrite getFilteredEntries_batch by apply batchIdAt_truthy.
  cbn [fst storage].
  set (batch := batchIdAt sampleEnv (tick emptyWorld)).
  set (main := entryAt sampleEnv (2 + tick emptyWorld) _).
  set (children := entriesFrom sampleEnv (5 + tick emptyWorld) _).
  assert (Hrev : Forall (childShape batch) (rev children))
    by (apply Forall_rev, children_shape).
  assert (Hn : List.length (rev children) = MAX_ENTRIES).
  { rewrite length_rev. unfold children.
    now rewrite length_entriesFrom, length_map, repeat_length. }
  rewrite firstn_app, Hn, Nat.sub_diag. cbn [firstn].
  rewrite app_nil_r, firstn_all2 by lia.
  rewrite (filter_all_true (matches_batch batch) (rev children))
    by (eapply Forall_impl; [| exact Hrev]; apply child_matches).
  rewrite (filter_all_false isAggregate (rev children))
    by (eapply Forall_impl; [| exact Hrev]; apply child_is_not_aggregate).
  rewrite (filter_all_true isChild (rev children))
    by (eapply Forall_impl; [| exact Hrev]; apply child_is_child).
  split; [reflexivity |]. split; [reflexivity | exact Hn].
Qed.

End Samples.

End HistoryFacts.

(** ** Properties of the import *)

Module LocalStorageFacts.
Import Json LocalStorage.

Section Facts.

Context (JSON_parse : string -> option value).
Context (JSON_stringify : value -> string).

(** The empty text is not JSON. *)
Hypothesis parse_empty : JSON_parse "" = None.

(** C10: [importHistory] returns [true] exactly when the text parses as
    an array.  Then the slot holds the text itself; reading it back gives
    the whole array, whatever its elements and its length; and the next
    [saveEntry] writes the first [MAX_ENTRIES] elements of the array with
    the new entry in front.  When [importHistory] returns [false] the slot
    is as before. *)
Theorem importHistory_array (jsonData : string) (slot : Slot) :
  (fst (importHistory JSON_parse jsonData slot) = true
   <-> exists entries, JSON_parse jsonData = Some (JArr entries))
  /\ (forall entries,
        JSON_parse jsonData = Some (JArr entries) ->
        snd (importHistory JSON_parse jsonData slot) = Some jsonData
        /\ getAllEntries JSON_parse (snd (importHistory JSON_parse jsonData slot))
           = JArr entries
        /\ forall entry,
             saveEntry JSON_parse JSON_stringify entry
               (snd (importHistory JSON_parse jsonData slot))
             = History.Returned
                 (Some (JSON_stringify
                          (JArr (firstn History.MAX_ENTRIES (entry :: entries))))))
  /\ (fst (importHistory JSON_parse jsonData slot) = false ->
      snd (importHistory JSON_parse jsonData slot) = slot).
Proof.
  unfold importHistory. split; [| split].
  - destruct (JSON_parse jsonData) as [[] |]; cbn [fst]; split;
      try discriminate; try (intros (entries & H); discriminate H).
    + intros _. eexists. reflexivity.
    + reflexivity.
  - intros entries Hparse. rewrite Hparse. cbn [snd].
    assert (Hne : String.eqb jsonData "" = false).
    { destruct (String.eqb_spec jsonData "") as [-> |]; [congruence | reflexivity]. }
    assert (Hget : getAllEntries JSON_parse (Some jsonData) = JArr entries).
    { unfold getAllEntries. now rewrite Hne, Hparse. }
    split; [reflexivity |]. split; [exact Hget |].
    intros entry. unfold saveEntry. now rewrite Hget.
  - destruct (JSON_parse jsonData) as [[] |]; cbn [fst snd];
      try reflexivity. discriminate.
Qed.

End Facts.

(** The two levels agree on [saveEntry], when parsing undoes printing. *)
Section Refinement.

Context (JSON_parse : string -> option value).
Context (JSON_stringify : value -> string).
Context (encode : History.UniversalHistoryEntry -> value).

Hypothesis parse_empty : JSON_parse "" = None.
Hypothesis parse_stringify : forall v, JSON_parse (JSON_stringify v) = Some v.

Lemma saveEntry_refines (entry : History.UniversalHistoryEntry) (slot : Slot)
    (w : History.World) :
  denotes JSON_parse encode slot (History.storage w) ->
  exists slot',
    saveEntry JSON_parse JSON_stringify (encode entry) slot
    = History.Returned slot'
    /\ denotes JSON_parse encode slot'
         (History.storage (snd (History.saveEntry entry w))).
Proof.
  unfold denotes. intros Hslot. unfold saveEntry. rewrite Hslot.
  eexists. split; [reflexivity |].
  unfold getAllEntries.
  destruct (String.eqb_spec
              (JSON_stringify
                 (JArr (firstn History.MAX_ENTRIES
                          (encode entry :: map encode (History.storage w))))) "")
    as [Hempty | _].
  - pose proof (parse_stringify
                  (JArr (firstn History.MAX_ENTRIES
                           (encode entry :: map encode (History.storage w)))))
      as Hp.
    rewrite Hempty, parse_empty in Hp. discriminate Hp.
  - rewrite parse_stringify. f_equal.
    change (encode entry :: map encode (History.storage w))
      with (map encode (entry :: History.storage w)).
    now rewrite firstn_map.
Qed.

End Refinement.

Lemma importHistory_array_witness :
  (fst (importHistory sample_parse "[1,null]" None) = true
   <-> exists entries, sample_parse "[1,null]" = Some (JArr entries))
  /\ (forall entries,
        sample_parse "[1,null]" = Some (JArr entries) ->
        snd (importHistory sample_parse "[1,null]" None) = Some "[1,null]"
        /\ getAllEntries sample_parse (snd (importHistory sample_parse "[1,null]" None))
           = JArr entries
        /\ forall entry,
             saveEntry sample_parse sample_stringify entry
               (snd (importHistory sample_parse "[1,null]" None))
             = History.Returned
                 (Some (sample_stringify
                          (JArr (firstn History.MAX_ENTRIES (entry :: entries))))))
  /\ (fst (importHistory sample_parse "[1,null]" None) = false ->
      snd (importHistory sample_parse "[1,null]" None) = None).
Proof.
  exact (importHistory_array sample_parse sample_stringify eq_refl "[1,null]" None).
Defined.

Example import_ill_shaped :
  importHistory sample_parse "[1,null]" (Some "[]") = (true, Some "[1,null]").
Proof. reflexivity. Qed.

Example import_object :
  importHistory sample_parse "{}" (Some "[]") = (false, Some "[]").
Proof. reflexivity. Qed.

Example import_garbage :
  importHistory sample_parse "not json" (Some "[]") = (false, Some "[]").
Proof. reflexivity. Qed.

End LocalStorageFacts.

(** ** Properties of the bulk discount run *)

Module DiscountFacts.
Import Json History Discount.
Local Open Scope discount_scope.
Local Open Scope list_scope.

(** *** Splitting into groups *)

Lemma length_slice {A : Type} (i size : nat) (l : list A) :
  List.length (slice i (i + size) l) = Nat.min size (List.length l - i).
Proof.
  unfold slice. rewrite length_firstn, length_skipn. f_equal. lia.
Qed.

Lemma slice_skipn {A : Type} (i size : nat) (l : list A) :
  slice i (i + size) l ++ skipn (i + size) l = skipn i l.
Proof.
  unfold slice. replace (i + size - i) with size by lia.
  rewrite Nat.add_comm, <- skipn_skipn. apply firstn_skipn.
Qed.

Lemma ceilDiv_zero size : 1 <= size -> ceilDiv 0 size = 0.
Proof. intros H. unfold ceilDiv. apply Nat.div_small. lia. Qed.

Lemma ceilDiv_step n size :
  1 <= size -> 1 <= n -> ceilDiv n size = S (ceilDiv (n - size) size).
Proof.
  intros Hs Hn. unfold ceilDiv.
  destruct (Nat.le_gt_cases size n) as [Hle | Hgt].
  - replace (n + size - 1) with ((n - size + size - 1) + 1 * size) by lia.
    rewrite Nat.div_add by lia. lia.
  - replace (n - size) with 0 by lia. cbn [Nat.add].
    rewrite (Nat.div_small (size - 1)) by lia.
    symmetry. apply (Nat.div_unique _ _ 1 (n - 1)); lia.
Qed.

Lemma ceilDiv_pos n size : 1 <= size -> 1 <= n -> 1 <= ceilDiv n size.
Proof. intros Hs Hn. rewrite ceilDiv_step by assumption. lia. Qed.

(** The loop of [makeBatches] from index [i]: with a group size of at
    least one and fuel for the items left, it ends, and what it adds to
    [batches] is the rest of the list cut into groups. *)
Lemma makeBatches_spec {A : Type} (size : nat) (l : list A) :
  1 <= size ->
  forall fuel i batches,
    List.length l - i <= fuel ->
    exists groups,
      makeBatches fuel size l i batches = Some (batches ++ groups)
      /\ List.concat groups = skipn i l
      /\ List.length groups = ceilDiv (List.length l - i) size
      /\ fullButLast size groups.
Proof.
  intros Hsize. induction fuel as [| fuel IH]; intros i batches Hfuel.
  - exists []. cbn [makeBatches].
    destruct (Nat.ltb_spec i (List.length l)) as [Hlt | Hge]; [lia |].
    rewrite app_nil_r. repeat split.
    + cbn [List.concat]. symmetry. now apply skipn_all2.
    + replace (List.length l - i) with 0 by lia.
      now rewrite ceilDiv_zero.
  - cbn [makeBatches].
    destruct (Nat.ltb_spec i (List.length l)) as [Hlt | Hge].
    + destruct (IH (i + size) (batches ++ [slice i (i + size) l]))
        as (groups & Hrun & Hcat & Hlen & Hfull); [lia |].
      exists (slice i (i + size) l :: groups).
      rewrite Hrun, <- app_assoc. split; [reflexivity |].
      split; [cbn [List.concat]; rewrite Hcat; apply slice_skipn |].
      split.
      * cbn [List.length]. rewrite Hlen.
        rewrite (ceilDiv_step (List.length l - i)) by lia.
        do 2 f_equal. lia.
      * cbn [fullButLast]. destruct groups as [| g groups'].
        -- rewrite length_slice. lia.
        -- split; [| exact Hfull].
           rewrite length_slice.
           assert (1 <= ceilDiv (List.length l - (i + size)) size)
             by (rewrite <- Hlen; cbn [List.length]; lia).
           destruct (Nat.le_gt_cases (List.length l) (i + size)) as [Hend | Hmore];
             [| lia].
           replace (List.length l - (i + size)) with 0 in H by lia.
           rewrite ceilDiv_zero in H by assumption. lia.
    + exists []. rewrite app_nil_r. repeat split.
      * cbn [List.concat]. symmetry. now apply skipn_all2.
      * replace (List.length l - i) with 0 by lia.
        now rewrite ceilDiv_zero.
Qed.

(** *** The expected schedule *)

Lemma expectedSchedule_sleeps pause k groups :
  List.length (filter isSleep (expectedSchedule pause k groups))
  = List.length groups - 1.
Proof.
  revert k. induction groups as [| g rest IH]; intros k; [reflexivity |].
  cbn [expectedSchedule]. rewrite filter_app.
  assert (Hd : filter isSleep (map (Dispatch k) g) = []).
  { apply HistoryFacts.filter_all_false, Forall_forall.
    intros e He. apply in_map_iff in He as (v & <- & _). reflexivity. }
  rewrite Hd. cbn [app filter isSleep].
  destruct rest as [| g' rest']; [reflexivity |].
  cbn [filter isSleep List.length]. rewrite IH. cbn [List.length]. lia.
Qed.

Lemma last_app_nonempty {A : Type} (l1 l2 : list A) (d : A) :
  l2 <> [] -> last (l1 ++ l2) d = last l2 d.
Proof.
  intros Hne. induction l1 as [| x l1 IH]; [reflexivity |].
  cbn [app]. destruct (l1 ++ l2) eqn:E.
  - apply app_eq_nil in E as [_ E]. congruence.
  - cbn [last]. exact IH.
Qed.

Lemma expectedSchedule_last pause k groups :
  groups <> [] ->
  last (expectedSchedule pause k groups) (Sleep 0)
  = Joined (k + List.length groups - 1).
Proof.
  revert k. induction groups as [| g rest IH]; intros k Hne; [congruence |].
  cbn [expectedSchedule]. rewrite last_app_nonempty by discriminate.
  destruct rest as [| g' rest'].
  - cbn [last List.length]. f_equal. lia.
  - change (Joined k :: Sleep pause :: expectedSchedule pause (S k) (g' :: rest'))
      with ([Joined k; Sleep pause] ++ expectedSchedule pause (S k) (g' :: rest')).
    rewrite last_app_nonempty.
    + rewrite IH by discriminate. f_equal. cbn [List.length]. lia.
    + cbn [expectedSchedule]. destruct (map (Dispatch (S k)) g'); discriminate.
Qed.

Lemma expectedSchedule_dispatched pause k groups :
  dispatched (expectedSchedule pause k groups) = List.concat groups.
Proof.
  revert k. induction groups as [| g rest IH]; intros k; [reflexivity |].
  cbn [expectedSchedule List.concat]. unfold dispatched in *.
  rewrite flat_map_app. f_equal.
  - induction g as [| v g IHg]; [reflexivity |]. cbn [map flat_map app].
    now rewrite IHg.
  - destruct rest as [| g' rest']; [reflexivity |].
    cbn [flat_map app]. apply IH.
Qed.

Lemma filter_filter_weaker {A : Type} (p q : A -> bool) (l : list A) :
  (forall x, p x = true -> q x = true) ->
  filter p (filter q l) = filter p l.
Proof.
  intros Hpq. induction l as [| x l IH]; [reflexivity |].
  cbn [filter]. destruct (q x) eqn:Hq.
  - cbn [filter]. now rewrite IH.
  - rewrite IH. destruct (p x) eqn:Hp; [| reflexivity].
    apply Hpq in Hp. congruence.
Qed.

Lemma dispatched_schedule (evs : list Event) :
  dispatched (filter isSchedule evs) = dispatched evs.
Proof.
  unfold dispatched. induction evs as [| e evs IH]; [reflexivity |].
  cbn [filter]. destruct e; cbn [isSchedule flat_map app]; now rewrite IH.
Qed.

(** *** The tally *)

Lemma fold_count (outcomes : list ItemOutcome) :
  forall t : Tally,
    allResults (fold_left count outcomes t)
    = allResults t ++ map result outcomes
    /\ completed (fold_left count outcomes t)
       = completed t + List.length outcomes
    /\ successful (fold_left count outcomes t)
       = successful t + List.length (filter o_success outcomes)
    /\ failed (fold_left count outcomes t)
       = failed t + List.length (filter (fun o => negb (o_success o)) outcomes).
Proof.
  induction outcomes as [| o rest IH]; intros t.
  - cbn. rewrite app_nil_r. repeat split; lia.
  - cbn [fold_left]. destruct (IH (count t o)) as (Ha & Hc & Hs & Hf).
    rewrite Ha, Hc, Hs, Hf. cbn [count allResults completed successful failed].
    cbn [map filter List.length]. rewrite <- app_assoc.
    destruct (o_success o); cbn [negb List.length app]; repeat split; lia.
Qed.

Lemma settle_success vars v reply :
  o_success (settle vars v reply) = success (result (settle vars v reply)).
Proof.
  destruct reply as [t | [] [[| r rs] |] err]; reflexivity.
Qed.

Section Run.

Context (env : Env) (sel : list string) (pct : Z) (exp : string).
Context (vars : list Variant) (pause : Z).

Lemma length_outcomesFrom t l :
  List.length (outcomesFrom env pct exp vars t l) = List.length l.
Proof.
  revert t. induction l as [| v l IH]; intros t; [reflexivity |].
  cbn [outcomesFrom List.length]. now rewrite IH.
Qed.

Lemma outcomesFrom_app t a b :
  outcomesFrom env pct exp vars t (a ++ b)
  = outcomesFrom env pct exp vars t a
    ++ outcomesFrom env pct exp vars (List.length a + t) b.
Proof.
  revert t. induction a as [| v a IH]; intros t; [reflexivity |].
  cbn [app outcomesFrom List.length]. rewrite IH. do 3 f_equal. lia.
Qed.

Lemma outcomes_success t l :
  Forall (fun o => o_success o = success (result o))
         (outcomesFrom env pct exp vars t l).
Proof.
  revert t. induction l as [| v l IH]; intros t; constructor;
    [apply settle_success | apply IH].
Qed.

Lemma filter_success_results (outcomes : list ItemOutcome) :
  Forall (fun o => o_success o = success (result o)) outcomes ->
  filter success (map result outcomes) = map result (filter o_success outcomes).
Proof.
  induction 1 as [| o rest Ho _ IH]; [reflexivity |].
  cbn [map filter]. rewrite <- Ho, IH. now destruct (o_success o).
Qed.

Lemma processVariant_eq bi v (s : State) :
  processVariant env pct exp vars bi v s =
  (outcomeAt env pct exp vars (tick (world s)) v,
   {| world := {| storage := storage (world s); tick := S (tick (world s)) |};
      trace := trace s ++ [Dispatch bi v] |}).
Proof. reflexivity. Qed.

Lemma dmap_processVariant bi batch :
  forall s : State,
    dmap (processVariant env pct exp vars bi) batch s =
    (outcomesFrom env pct exp vars (tick (world s)) batch,
     {| world := {| storage := storage (world s);
                    tick := List.length batch + tick (world s) |};
        trace := trace s ++ map (Dispatch bi) batch |}).
Proof.
  induction batch as [| v batch IH]; intros s.
  - cbn [dmap outcomesFrom map List.length Nat.add]. unfold dret.
    rewrite app_nil_r.
    destruct s as [[st tk] tr]; reflexivity.
  - cbn [dmap]. unfold dbind at 1. rewrite processVariant_eq.
    unfold dbind at 1. rewrite IH.
    cbn [dret world storage tick trace map outcomesFrom List.length].
    rewrite <- app_assoc. cbn [app]. unfold dret.
    rewrite Nat.add_succ_r. reflexivity.
Qed.

Lemma dforEach_recordOutcome outcomes :
  forall (t : Tally) (s : State),
    dforEach outcomes (recordOutcome sel) t s =
    (fold_left count outcomes t,
     {| world := world s; trace := trace s ++ progressEvents sel t outcomes |}).
Proof.
  induction outcomes as [| o rest IH]; intros t s.
  - cbn [dforEach fold_left progressEvents]. unfold dret. rewrite app_nil_r.
    destruct s; reflexivity.
  - cbn [dforEach]. unfold dbind at 1. unfold recordOutcome.
    unfold dbind at 1 2. unfold emit, dret. rewrite IH.
    cbn [world trace fold_left progressEvents].
    rewrite <- !app_assoc. reflexivity.
Qed.

Lemma processBatch_eq total bi batch (t : Tally) (s : State) :
  processBatch env sel pct exp vars pause total bi batch t s =
  (fold_left count (outcomesFrom env pct exp vars (tick (world s)) batch) t,
   {| world := {| storage := storage (world s);
                  tick := List.length batch + tick (world s) |};
      trace := trace s
               ++ batchEvents env sel pct exp vars pause total bi batch
                    (tick (world s)) t |}).
Proof.
  unfold processBatch. unfold dbind at 1. unfold emit at 1.
  unfold dbind at 1. rewrite dmap_processVariant. cbn [world storage tick trace].
  unfold dbind at 1. unfold emit at 1. cbn [world trace].
  unfold dbind at 1. rewrite dforEach_recordOutcome. cbn [world trace].
  unfold batchEvents. unfold dbind.
  destruct (bi <? total - 1)%nat; unfold emit, dret; cbn [world trace];
    rewrite <- ?app_assoc; cbn [app]; rewrite <- ?app_assoc; cbn [app];
    try rewrite app_nil_r; reflexivity.
Qed.

Lemma processBatches_eq total rest :
  forall bi (t : Tally) (s : State),
    processBatches env sel pct exp vars pause total bi rest t s =
    (fold_left count
       (outcomesFrom env pct exp vars (tick (world s)) (List.concat rest)) t,
     {| world := {| storage := storage (world s);
                    tick := List.length (List.concat rest) + tick (world s) |};
        trace := trace s
                 ++ batchesEvents env sel pct exp vars pause total bi rest
                      (tick (world s)) t |}).
Proof.
  induction rest as [| batch rest IH]; intros bi t s.
  - cbn [processBatches List.concat outcomesFrom fold_left batchesEvents
         List.length Nat.add].
    unfold dret. rewrite app_nil_r. destruct s as [[st tk] tr]; reflexivity.
  - cbn [processBatches]. unfold dbind. rewrite processBatch_eq, IH.
    cbn [world storage tick trace List.concat batchesEvents].
    rewrite outcomesFrom_app, fold_left_app, length_app, <- app_assoc.
    rewrite (Nat.add_comm (List.length batch) (List.length (List.concat rest))).
    rewrite <- Nat.add_assoc. reflexivity.
Qed.

Lemma progressEvents_silent (t : Tally) outcomes :
  filter isSchedule (progressEvents sel t outcomes) = [].
Proof.
  revert t. induction outcomes as [| o rest IH]; intros t; [reflexivity |].
  cbn [progressEvents filter isSchedule]. apply IH.
Qed.

Lemma dispatches_scheduled bi batch :
  filter isSchedule (map (Dispatch bi) batch) = map (Dispatch bi) batch.
Proof.
  induction batch as [| v batch IH]; [reflexivity |].
  cbn [map filter isSchedule]. now rewrite IH.
Qed.

(** The schedule of the loop is the expected one: the index test
    [batchIndex < batches.length - 1] puts a pause after every group but
    the last. *)
Lemma batchesEvents_schedule total rest :
  forall bi tk (t : Tally),
    total = bi + List.length rest ->
    filter isSchedule
      (batchesEvents env sel pct exp vars pause total bi rest tk t)
    = expectedSchedule pause bi rest.
Proof.
  induction rest as [| batch rest IH]; intros bi tk t Htotal; [reflexivity |].
  cbn [batchesEvents expectedSchedule]. unfold batchEvents.
  cbn [app filter isSchedule].
  rewrite !filter_app. cbn [filter isSchedule].
  rewrite !filter_app, dispatches_scheduled, progressEvents_silent.
  cbn [app]. rewrite IH by (cbn [List.length] in Htotal; lia).
  rewrite <- app_assoc. cbn [app]. f_equal. f_equal.
  cbn [List.length] in Htotal. clear IH.
  destruct rest as [| batch' rest'].
  - destruct (Nat.ltb_spec bi (total - 1)) as [Hlt | _];
      [cbn [List.length] in Htotal; lia | reflexivity].
  - destruct (Nat.ltb_spec bi (total - 1)) as [_ | Hge];
      [reflexivity | cbn [List.length] in Htotal; lia].
Qed.

Lemma expired_frame (s : State) :
  trace (snd (expired env exp s)) = trace s
  /\ storage (world (snd (expired env exp s))) = storage (world s).
Proof.
  unfold expired. destruct (String.eqb exp ""); [split; reflexivity |].
  unfold dbind, lift, now. cbn [world storage tick trace].
  destruct (Date_parse env exp); split; reflexivity.
Qed.

End Run.

Section Claims.

Context (env : Env) (sel : list string) (pct : Z) (exp : string).
Context (vars : list Variant) (G : nat) (pause : Z).

(** A run that passes the three checks: what it returns and leaves. *)
Lemma applyDiscountWith_run (s s1 : State) batches :
  sel <> [] ->
  (0 < pct < 100)%Z ->
  expired env exp s = (false, s1) ->
  makeBatches (List.length sel) G sel 0 [] = Some batches ->
  List.concat batches = sel ->
  let t := fold_left count
             (outcomesFrom env pct exp vars (tick (world s1)) sel) startTally in
  let items := map (affectedItem pct vars) (filter success (allResults t)) in
  let w1 := {| storage := storage (world s);
               tick := List.length sel + tick (world s1) |} in
  exists evs,
    applyDiscountWith env sel pct exp vars G pause s =
    (Finished t,
     {| world :=
          if (0 <? List.length items)%nat
          then snd (createBulkOperation (history_env env) bulk_discount pricing
                      ("Bulk Discount Applied: " ++ JS.string_of_Z pct ++ "% off")%string
                      items (Some (rollbackPayloadOf sel pct exp)) w1)
          else w1;
        trace := trace s ++ evs |})
    /\ filter isSchedule evs = expectedSchedule pause 0 batches.
Proof.
  intros Hsel Hpct Hexp Hbatches Hcat t items w1.
  pose proof (expired_frame env exp s) as [Htr Hst].
  rewrite Hexp in Htr, Hst. cbn [snd] in Htr, Hst.
  unfold applyDiscountWith.
  assert (Hn : (List.length sel =? 0)%nat = false)
    by (destruct sel; [congruence | reflexivity]).
  rewrite Hn.
  assert (Hp : ((pct <=? 0) || (100 <=? pct))%Z = false).
  { apply orb_false_intro; apply Z.leb_gt; lia. }
  rewrite Hp. unfold dbind at 1. rewrite Hexp.
  rewrite Hbatches.
  unfold dbind at 1. unfold emit at 1.
  unfold dbind at 1. unfold emit at 1.
  unfold dbind at 1. unfold emit at 1.
  unfold dbind at 1. unfold emit at 1.
  unfold dbind at 1. unfold emit at 1.
  cbn [world trace].
  unfold dbind at 1. rewrite processBatches_eq. cbn [world storage tick trace].
  rewrite Hcat. fold startTally. fold t.
  unfold dbind at 1. unfold emit at 1. cbn [world trace].
  fold items.
  unfold dbind at 1.
  rewrite Hst, Htr.
  destruct (0 <? List.length items)%nat.
  - unfold dbind at 1. unfold lift at 1. cbn [world trace].
    fold w1.
    destruct (createBulkOperation _ _ _ _ _ _ w1) as [r w2]. cbn [snd].
    unfold dbind, emit, dret. cbn [world trace].
    rewrite <- !app_assoc. cbn [app].
    eexists. split; [reflexivity |].
    cbn [filter isSchedule]. rewrite filter_app. cbn [filter isSchedule].
    rewrite app_nil_r. apply batchesEvents_schedule. lia.
  - unfold dbind, emit, dret. cbn [world trace]. fold w1.
    rewrite <- !app_assoc. cbn [app].
    eexists. split; [reflexivity |].
    cbn [filter isSchedule]. rewrite filter_app. cbn [filter isSchedule].
    rewrite app_nil_r. apply batchesEvents_schedule. lia.
Qed.

Lemma filter_split_length {A : Type} (p : A -> bool) (l : list A) :
  List.length (filter p l) + List.length (filter (fun x => negb (p x)) l)
  = List.length l.
Proof.
  induction l as [| x l IH]; [reflexivity |].
  cbn [filter]. destruct (p x); cbn [negb List.length]; lia.
Qed.

(** C2: for a non-empty selection that passes the checks, and a group
    size [G] of at least one, the selection is cut, in order, into
    [ceil(N/G)] groups, each of [G] items except that the last may have
    fewer; the run completes; its calls, joins and pauses are, in this
    order: for each group its dispatches, then the join of the whole
    group, then - after every group but the last - one pause of [pause]
    milliseconds.  [applyDiscount] is the instance with [G = 2] and
    [pause = 1100]. *)
Theorem applyDiscount_schedule (s s1 : State) :
  sel <> [] ->
  (0 < pct < 100)%Z ->
  expired env exp s = (false, s1) ->
  1 <= G ->
  exists batches t (s' : State) evs,
    makeBatches (List.length sel) G sel 0 [] = Some batches
    /\ List.concat batches = sel
    /\ List.length batches = ceilDiv (List.length sel) G
    /\ fullButLast G batches
    /\ applyDiscountWith env sel pct exp vars G pause s = (Finished t, s')
    /\ trace s' = trace s ++ evs
    /\ filter isSchedule evs = expectedSchedule pause 0 batches
    /\ dispatched evs = sel
    /\ List.length (filter isSleep evs) = List.length batches - 1
    /\ last (filter isSchedule evs) (Sleep 0) = Joined (List.length batches - 1).
Proof.
  intros Hsel Hpct Hexp HG.
  destruct (makeBatches_spec G sel HG (List.length sel) 0 [])
    as (batches & Hrun & Hcat & Hlen & Hfull); [lia |].
  cbn [app skipn] in Hrun, Hcat. rewrite Nat.sub_0_r in Hlen.
  destruct (applyDiscountWith_run s s1 batches Hsel Hpct Hexp Hrun Hcat)
    as (evs & Happly & Hsched).
  assert (Hne : batches <> []).
  { intros ->. cbn in Hcat. congruence. }
  do 4 eexists. split; [exact Hrun |]. split; [exact Hcat |].
  split; [exact Hlen |]. split; [exact Hfull |].
  split; [exact Happly |]. cbn [trace]. split; [reflexivity |].
  split; [exact Hsched |].
  split.
  { now rewrite <- dispatched_schedule, Hsched, expectedSchedule_dispatched. }
  split.
  { rewrite <- (filter_filter_weaker isSleep isSchedule)
      by (intros []; cbn; congruence).
    rewrite Hsched. apply expectedSchedule_sleeps. }
  rewrite Hsched, expectedSchedule_last by exact Hne. reflexivity.
Qed.

End Claims.

Section Tally.

Context (env : Env) (sel : list string) (pct : Z) (exp : string).
Context (vars : list Variant).

(** C1, amended: for a non-empty selection that passes the checks, every
    item is dispatched, whatever the other items do; the run completes and
    its tally has one result per item, [successful] equal to the number of
    items whose call succeeded and [failed] equal to the number of the
    others.  If no item succeeded the store is unchanged; otherwise
    [createBulkOperation] puts in front of the store one aggregate entry
    and one child entry for each item that succeeded, all with the status
    [success]: the children are, in the order of the run, the entries of
    the results that succeeded and of no other result, so an item that
    failed has no entry. *)
Theorem applyDiscount_partial_failure (s s1 : State) :
  sel <> [] ->
  (0 < pct < 100)%Z ->
  expired env exp s = (false, s1) ->
  let outcomes := outcomesFrom env pct exp vars (tick (world s1)) sel in
  let succeeded := List.length (filter o_success outcomes) in
  exists t (s' : State) evs,
    applyDiscount env sel pct exp vars s = (Finished t, s')
    /\ allResults t = map result outcomes
    /\ completed t = List.length sel
    /\ successful t = succeeded
    /\ failed t = List.length (filter (fun o => negb (o_success o)) outcomes)
    /\ successful t + failed t = List.length sel
    /\ trace s' = trace s ++ evs
    /\ dispatched evs = sel
    /\ (succeeded = 0 -> storage (world s') = storage (world s))
    /\ (0 < succeeded ->
        exists (main : UniversalHistoryEntry) children batch,
          storage (world s')
          = firstn MAX_ENTRIES (rev children ++ main :: storage (world s))
          /\ List.length children = succeeded
          /\ isAggregate main = true
          /\ status main = History.success
          /\ Forall (fun c : UniversalHistoryEntry =>
                       isChild c = true /\ status c = History.success) children
          /\ batchId (operationData main) = Some batch
          /\ filter success (allResults t) = map result (filter o_success outcomes)
          /\ map input children
             = map (fun r =>
                      individualEntryInput bulk_discount pricing
                        ("Bulk Discount Applied: " ++ JS.string_of_Z pct
                         ++ "% off")%string
                        batch (affectedItem pct vars r))
                   (filter success (allResults t))
          /\ map (fun c : UniversalHistoryEntry => History.variantId c) children
             = map (fun r => Some (Discount.variantId r))
                   (filter success (allResults t))).
Proof.
  intros Hsel Hpct Hexp outcomes succeeded.
  destruct (makeBatches_spec 2 sel (le_S 1 1 (le_n 1)) (List.length sel) 0 [])
    as (batches & Hrun & Hcat & _ & _); [lia |].
  cbn [app skipn] in Hrun, Hcat.
  destruct (applyDiscountWith_run env sel pct exp vars 2 1100 s s1 batches
              Hsel Hpct Hexp Hrun Hcat) as (evs & Happly & Hsched).
  cbv zeta in Happly. fold outcomes in Happly.
  destruct (fold_count outcomes startTally) as (Ha & Hc & Hs & Hf).
  cbn [startTally allResults completed successful failed app Nat.add] in Ha, Hc, Hs, Hf.
  assert (Hlen : List.length outcomes = List.length sel)
    by apply length_outcomesFrom.
  assert (Hitems :
            List.length (map (affectedItem pct vars)
                           (filter success
                              (allResults (fold_left count outcomes startTally))))
            = succeeded).
  { rewrite Ha, filter_success_results by apply outcomes_success.
    now rewrite !length_map. }
  unfold applyDiscount. rewrite Happly. clear Happly.
  do 3 eexists. split; [reflexivity |].
  split; [exact Ha |]. split; [now rewrite Hc |].
  split; [exact Hs |]. split; [exact Hf |].
  split; [rewrite Hs, Hf, <- Hlen; apply filter_split_length |].
  cbn [trace world]. split; [reflexivity |].
  split.
  { now rewrite <- dispatched_schedule, Hsched, expectedSchedule_dispatched. }
  rewrite Hitems. split.
  - intros H0. rewrite H0. reflexivity.
  - intros Hpos.
    destruct (Nat.ltb_spec 0 succeeded) as [_ | Hle]; [| lia].
    match goal with
    | |- context [createBulkOperation ?e ?o ?c ?d ?i ?p ?w] =>
        pose proof (HistoryFacts.createBulkOperation_eq e o c d i p w) as E
    end.
    cbv zeta in E. rewrite E. cbn [snd storage tick].
    eexists. eexists. eexists. split; [reflexivity |].
    split.
    { rewrite HistoryFacts.length_entriesFrom, length_map. exact Hitems. }
    split; [reflexivity |]. split; [reflexivity |].
    split.
    { eapply Forall_impl; [| apply HistoryFacts.children_shape].
      intros c Hc'. split; [eapply HistoryFacts.child_is_child; exact Hc' |].
      now destruct Hc' as (_ & _ & _ & H & _). }
    split; [reflexivity |].
    split.
    { rewrite Ha. apply filter_success_results, outcomes_success. }
    assert (Hin : forall t0 inputs,
              map input (entriesFrom (history_env env) t0 inputs) = inputs)
      by (intros; apply HistoryFacts.input_entriesFrom).
    split.
    { rewrite Hin, map_map. reflexivity. }
    rewrite <- (map_map input (fun i : EntryInput => History.variantId i)).
    rewrite Hin, !map_map. reflexivity.
Qed.

End Tally.

(** *** The properties at sample inputs *)

Section Samples.
Import Samples DiscountSamples.

Lemma applyDiscount_schedule_witness :
  exists batches t (s' : State) evs,
    makeBatches 5 2 fiveVariants 0 [] = Some batches
    /\ List.concat batches = fiveVariants
    /\ List.length batches = ceilDiv 5 2
    /\ fullButLast 2 batches
    /\ applyDiscount thirdFails fiveVariants 20 "" [] startState = (Finished t, s')
    /\ trace s' = trace startState ++ evs
    /\ filter isSchedule evs = expectedSchedule 1100 0 batches
    /\ dispatched evs = fiveVariants
    /\ List.length (filter isSleep evs) = List.length batches - 1
    /\ last (filter isSchedule evs) (Sleep 0) = Joined (List.length batches - 1).
Proof.
  apply (applyDiscount_schedule thirdFails fiveVariants 20 "" [] 2 1100
           startState startState).
  - discriminate.
  - lia.
  - reflexivity.
  - lia.
Defined.

Example schedule_of_five :
  expectedSchedule 1100 0 [["v1"; "v2"]; ["v3"; "v4"]; ["v5"]]
  = [Dispatch 0 "v1"; Dispatch 0 "v2"; Joined 0; Sleep 1100;
     Dispatch 1 "v3"; Dispatch 1 "v4"; Joined 1; Sleep 1100;
     Dispatch 2 "v5"; Joined 2].
Proof. reflexivity. Qed.

Example batches_of_five :
  makeBatches 5 2 fiveVariants 0 [] = Some [["v1"; "v2"]; ["v3"; "v4"]; ["v5"]].
Proof. reflexivity. Qed.

Example run_of_five :
  filter isSchedule
    (trace (snd (applyDiscount thirdFails fiveVariants 20 "" [] startState)))
  = expectedSchedule 1100 0 [["v1"; "v2"]; ["v3"; "v4"]; ["v5"]].
Proof. vm_compute. reflexivity. Qed.

Lemma applyDiscount_partial_failure_witness :
  let outcomes := outcomesFrom thirdFails 20 "" [] 0 fiveVariants in
  let succeeded := List.length (filter o_success outcomes) in
  exists t (s' : State) evs,
    applyDiscount thirdFails fiveVariants 20 "" [] startState = (Finished t, s')
    /\ allResults t = map result outcomes
    /\ completed t = 5
    /\ successful t = succeeded
    /\ failed t = List.length (filter (fun o => negb (o_success o)) outcomes)
    /\ successful t + failed t = 5
    /\ trace s' = trace startState ++ evs
    /\ dispatched evs = fiveVariants
    /\ (succeeded = 0 -> storage (world s') = storage (world startState))
    /\ (0 < succeeded ->
        exists (main : UniversalHistoryEntry) children batch,
          storage (world s')
          = firstn MAX_ENTRIES (rev children ++ main :: storage (world startState))
          /\ List.length children = succeeded
          /\ isAggregate main = true
          /\ status main = History.success
          /\ Forall (fun c : UniversalHistoryEntry =>
                       isChild c = true /\ status c = History.success) children
          /\ batchId (operationData main) = Some batch
          /\ filter success (allResults t) = map result (filter o_success outcomes)
          /\ map input children
             = map (fun r =>
                      individualEntryInput bulk_discount pricing
                        ("Bulk Discount Applied: " ++ JS.string_of_Z 20
                         ++ "% off")%string
                        batch (affectedItem 20 [] r))
                   (filter success (allResults t))
          /\ map (fun c : UniversalHistoryEntry => History.variantId c) children
             = map (fun r => Some (Discount.variantId r))
                   (filter success (allResults t))).
Proof.
  apply (applyDiscount_partial_failure thirdFails fiveVariants 20 "" []
           startState startState).
  - discriminate.
  - lia.
  - reflexivity.
Defined.

(** C1, as stated, fails: of five items of which the third fails, the
    tally is 4 and 1, but the store receives the aggregate entry and four
    child entries; the failed item has no entry, and no entry has the
    status [error]. *)
Lemma failed_item_has_no_entry :
  exists t (s' : State),
    applyDiscount thirdFails fiveVariants 20 "" [] startState = (Finished t, s')
    /\ successful t = 4
    /\ failed t = 1
    /\ List.length (storage (world s')) = 5
    /\ List.length (filter isAggregate (storage (world s'))) = 1
    /\ List.length (filter isChild (storage (world s'))) = 4
    /\ List.length (filter (hasStatus History.error) (storage (world s'))) = 0
    /\ map Discount.variantId
           (filter (fun r => negb (success r)) (allResults t)) = ["v3"]
    /\ filter (fun e : UniversalHistoryEntry =>
                 match History.variantId e with
                 | Some v => String.eqb v "v3"
                 | None => false
                 end) (storage (world s')) = [].
Proof.
  do 2 eexists. split; [vm_compute; reflexivity |].
  vm_compute. repeat split.
Qed.

End Samples.

End DiscountFacts.

(** ** More properties of the history manager *)

Module HistoryMoreFacts.
Import Json History HistoryMore HistoryFacts.
Local Open Scope hist_scope.
Local Open Scope list_scope.

(** *** The store *)

(** X1: [createEntry] puts the new entry first and never lets the store
    grow beyond [MAX_ENTRIES]: below capacity the old entries all stay,
    at capacity the oldest ones beyond the first [MAX_ENTRIES - 1] go. *)
Theorem createEntry_keeps_capacity (env : Env) (entry : EntryInput) (w : World) :
  let r := createEntry env entry w in
  hd_error (storage (snd r)) = Some (fst r)
  /\ List.length (storage (snd r)) <= MAX_ENTRIES
  /\ input (fst r) = entry
  /\ (List.length (storage w) < MAX_ENTRIES ->
      storage (snd r) = fst r :: storage w)
  /\ (MAX_ENTRIES <= List.length (storage w) ->
      List.length (storage (snd r)) = MAX_ENTRIES
      /\ storage (snd r) = fst r :: firstn (pred MAX_ENTRIES) (storage w)).
Proof.
  cbv zeta. rewrite createEntry_eq. cbn [fst snd storage].
  split; [rewrite MAX_ENTRIES_pos at 1; reflexivity |].
  split; [apply firstn_le_length |].
  split; [reflexivity |].
  split.
  - intros H. apply firstn_all2. cbn [List.length]. lia.
  - intros H. split.
    + rewrite length_firstn. cbn [List.length]. lia.
    + rewrite MAX_ENTRIES_pos at 1. reflexivity.
Qed.

(** *** Queries *)

Lemma filter_filter_and {A : Type} (p q : A -> bool) (l : list A) :
  filter p (filter q l) = filter (fun x => q x && p x) l.
Proof.
  induction l as [| x l IH]; [reflexivity |].
  cbn [filter]. destruct (q x); cbn [filter andb]; [| exact IH].
  now rewrite IH.
Qed.

Lemma when_active {A : Type} (f : option string) (p : string -> A -> bool)
    (l : list A) :
  when f p l = filter (active f p) l.
Proof.
  unfold when, active. destruct f as [x |].
  - destruct (truthy (Some x)); [reflexivity |].
    symmetry. apply filter_all_true, Forall_forall. reflexivity.
  - symmetry. apply filter_all_true, Forall_forall. reflexivity.
Qed.

Lemma getFilteredEntries_filter (f : HistoryFilter) (w : World) :
  getFilteredEntries f w = (filter (matchesFilter f) (storage w), w).
Proof.
  unfold getFilteredEntries, bind, getAllEntries, ret. f_equal.
  rewrite !when_active.
  assert (Hrange :
            forall l : list UniversalHistoryEntry,
              match f_dateRange f with
              | Some range => filter (in_range range) l
              | None => l
              end
              = filter (fun e => match f_dateRange f with
                                 | Some range => in_range range e
                                 | None => true
                                 end) l).
  { intros l. destruct (f_dateRange f); [reflexivity |].
    symmetry. apply filter_all_true, Forall_forall. reflexivity. }
  rewrite Hrange, !filter_filter_and. apply filter_ext.
  intros e. unfold matchesFilter. now rewrite !andb_assoc.
Qed.

(** X2: the tests of [getFilteredEntries] are conjunctive: an entry is
    returned exactly when it is in the store and passes every test whose
    filter field is set; the entries come in the store's order, and the
    query leaves the world as it is. *)
Theorem getFilteredEntries_conjunctive (f : HistoryFilter) (w : World) :
  snd (getFilteredEntries f w) = w
  /\ fst (getFilteredEntries f w) = filter (matchesFilter f) (storage w)
  /\ (forall e, In e (fst (getFilteredEntries f w))
                <-> In e (storage w) /\ matchesFilter f e = true)
  /\ List.length (fst (getFilteredEntries f w)) <= List.length (storage w).
Proof.
  rewrite getFilteredEntries_filter. cbn [fst snd].
  split; [reflexivity |]. split; [reflexivity |]. split.
  - intros e. apply filter_In.
  - apply filter_length_le.
Qed.

(** X3: a filter whose [batchId] is the empty string is no filter at
    all - the whole store comes back - whereas [getBatchHistory] with the
    empty string compares; for a non-empty batch id the two agree. *)
Theorem batch_filter_empty_string (b : string) (w : World) :
  fst (getFilteredEntries (batchFilter b) w)
  = (if String.eqb b "" then storage w else fst (getBatchHistory b w))
  /\ fst (getBatchHistory b w) = filter (matches_batch b) (storage w).
Proof.
  split; [| reflexivity].
  unfold getFilteredEntries, batchFilter, bind, getAllEntries, ret.
  cbn [f_category f_operationType f_status f_productId f_batchId f_searchTerm
       f_dateRange when fst truthy].
  destruct (String.eqb b ""); reflexivity.
Qed.

(** X4: right after [createBulkOperation] of fewer items than the
    capacity, under a batch id that no stored entry has as its
    [parentBatchId], [getBulkOperationItems] returns the child entries of
    the call, most recent first, and not the aggregate entry, which
    [getBulkOperations] lists. *)
Theorem items_after_create (env : Env) opType cat descr items payload (w : World) :
  List.length items < MAX_ENTRIES ->
  Forall (fun e : UniversalHistoryEntry =>
            same (parentBatchId (operationData e)) (batchIdAt env (tick w)) = false)
         (storage w) ->
  let r := createBulkOperation env opType cat descr items payload w in
  exists main children,
    snd (fst r) = main :: children
    /\ fst (getBulkOperationItems (fst (fst r)) (snd r)) = rev children
    /\ ~ In main (fst (getBulkOperationItems (fst (fst r)) (snd r)))
    /\ In main (fst (getBulkOperations (snd r))).
Proof.
  intros Hlen Hfresh.
  pose proof (createBulkOperation_eq env opType cat descr items payload w) as E.
  cbv zeta in E. cbv zeta. rewrite E. cbn [fst snd].
  set (batch := batchIdAt env (tick w)) in *.
  set (main := entryAt env (2 + tick w) _).
  set (children := entriesFrom env (5 + tick w) _).
  assert (Hch : Forall (childShape batch) (rev children))
    by (apply Forall_rev, children_shape).
  assert (Hn : List.length children = List.length items)
    by (unfold children; now rewrite length_entriesFrom, length_map).
  assert (Hstore :
            firstn MAX_ENTRIES (rev children ++ main :: storage w)
            = (rev children ++ [main])
              ++ firstn (MAX_ENTRIES - S (List.length items)) (storage w)).
  { change (main :: storage w) with ([main] ++ storage w).
    rewrite app_assoc, firstn_app.
    rewrite (@firstn_all2 _ MAX_ENTRIES (rev children ++ [main]))
      by (rewrite length_app, length_rev; cbn [List.length]; lia).
    do 2 f_equal. rewrite length_app, length_rev, Hn. cbn [List.length]. lia. }
  exists main, children. split; [reflexivity |].
  unfold getBulkOperationItems, getBulkOperations, bind, getAllEntries, ret.
  cbn [fst storage]. rewrite Hstore, !filter_app.
  set (isItem := fun entry : UniversalHistoryEntry =>
                   same (parentBatchId (operationData entry)) batch).
  assert (Hitems : filter isItem (rev children) = rev children).
  { apply filter_all_true. eapply Forall_impl; [| exact Hch].
    intros e (_ & _ & Hp & _). unfold isItem. now rewrite Hp, same_refl. }
  assert (Hold : filter isItem (firstn (MAX_ENTRIES - S (List.length items))
                                       (storage w)) = []).
  { apply filter_all_false, Forall_firstn. exact Hfresh. }
  rewrite Hitems, Hold. cbn [filter]. 
  assert (Hmain : isItem main = false) by reflexivity.
  rewrite Hmain. cbn [app]. rewrite !app_nil_r.
  split; [reflexivity |]. split.
  - intros Hin. apply in_rev in Hin.
    pose proof (children_shape env opType cat descr batch items (5 + tick w)) as Hs.
    rewrite Forall_forall in Hs. destruct (Hs main Hin) as (Ha & _).
    discriminate Ha.
  - apply in_or_app. left. apply in_or_app. right.
    cbn [filter]. change (String.eqb (action (operationData main)) "bulk_operation")
      with true. now left.
Qed.

(** *** Rollback *)

(** What one call of [executeApiRollback] can do. *)
Lemma executeApiRollback_cases (env : Env) (entry : UniversalHistoryEntry)
    (w : World) :
  exists out (w' : World),
    executeApiRollback env entry w = (out, w')
    /\ storage w' = storage w
    /\ tick w <= tick w' <= S (tick w)
    /\ (forall r, out = Returned r ->
                  r_success r = true /\ affectedEntries r = [id entry]
                  /\ sendable entry = true /\ tick w' = S (tick w)).
Proof.
  unfold executeApiRollback, sendable.
  destruct (rollbackData entry) as [data |].
  2: { do 2 eexists. split; [reflexivity |]. split; [reflexivity |].
       split; [cbn; lia |]. intros r H; discriminate H. }
  assert (Hcall : forall url method done failed,
             exists out (w' : World),
               rollbackCall env entry url method (rollbackPayload data) done failed w
               = (out, w')
               /\ storage w' = storage w
               /\ tick w <= tick w' <= S (tick w)
               /\ (forall r, out = Returned r ->
                             r_success r = true /\ affectedEntries r = [id entry]
                             /\ tick w' = S (tick w))).
  { intros url method done failed. unfold rollbackCall, bind, fetch.
    destruct (remote env (tick w) url method (rollbackPayload data)) as [t | []];
      do 2 eexists; (split; [reflexivity |]); cbn [storage tick];
      (split; [reflexivity |]); (split; [lia |]); intros r H;
      try discriminate H.
    injection H as <-. repeat split. }
  destruct (operationType entry); cbn [supported andb];
    try (do 2 eexists; split; [reflexivity |]; split; [reflexivity |];
         split; [cbn; lia |]; intros r H; discriminate H).
  all: match goal with
       | |- context [rollbackCall _ _ ?u ?m _ ?d ?f _] =>
           destruct (Hcall u m d f) as (out & w' & E & Hs & Ht & Hr)
       end;
    exists out, w'; split; [exact E |]; split; [exact Hs |]; split; [exact Ht |];
    intros r H; destruct (Hr r H) as (H1 & H2 & H3); repeat split; assumption.
Qed.

(** The loop of [executeBatchRollback]. *)
Lemma batch_rollback_loop (env : Env) (items : list UniversalHistoryEntry) :
  forall (acc : list string * list string) (w : World),
    exists rs es (w' : World),
      forEach items
        (fun (acc : list string * list string) batchEntry =>
           let (results, errs) := acc in
           r <- executeApiRollback env batchEntry ;;
           match r with
           | Returned result =>
               if r_success result
               then ret ((results ++ affectedEntries result)%list, errs)
               else ret (results,
                         (errs ++ [("Failed to rollback " ++ id batchEntry ++ ": "
                                    ++ message result)%string])%list)
           | Threw t =>
               ret (results,
                    (errs ++ [("Error rolling back " ++ id batchEntry ++ ": "
                               ++ thrown_string t)%string])%list)
           end) acc w
      = ((fst acc ++ rs, snd acc ++ es), w')
      /\ List.length rs + List.length es = List.length items
      /\ incl rs (map id items)
      /\ storage w' = storage w
      /\ tick w' <= tick w + List.length items.
Proof.
  induction items as [| x rest IH]; intros [results errs] w.
  - exists [], [], w. cbn [forEach ret fst snd]. rewrite !app_nil_r.
    repeat split; cbn; try lia. intros a [].
  - cbn [forEach]. unfold bind at 1. unfold bind at 1.
    destruct (executeApiRollback_cases env x w)
      as (out & w1 & E & Hs & Ht & Hr).
    rewrite E. destruct out as [result | t].
    + destruct (Hr result eq_refl) as (Hok & Haff & _ & _).
      rewrite Hok, Haff. cbn [ret].
      destruct (IH ((results ++ [id x]), errs) w1)
        as (rs & es & w' & E' & Hl & Hi & Hs' & Ht').
      rewrite E'. cbn [fst snd].
      exists (id x :: rs), es, w'. rewrite <- app_assoc. cbn [app].
      split; [reflexivity |]. cbn [List.length map].
      split; [lia |]. split.
      * intros a [<- | Ha]; [now left | right; now apply Hi].
      * split; [congruence | lia].
    + cbn [ret].
      match goal with
      | |- context [forEach rest _ (results, ?e) w1] =>
          destruct (IH (results, e) w1)
            as (rs & es & w' & E' & Hl & Hi & Hs' & Ht')
      end.
      rewrite E'. cbn [fst snd].
      eexists rs, (_ :: es), w'. rewrite <- app_assoc. cbn [app].
      split; [reflexivity |]. cbn [List.length map].
      split; [lia |]. split.
      * intros a Ha. right. now apply Hi.
      * split; [congruence | lia].
Qed.

(** X5: on a store of entries of the declared type
    [executeBatchRollback] returns a result - what a call throws is
    collected in [errors] - and never touches the store; every child entry
    of the batch is counted once, either in [affectedEntries] or in
    [errors]; [success] holds exactly when there is no error; and at most
    one remote call is made per child. *)
Theorem executeBatchRollback_accounts (env : Env) (entry : UniversalHistoryEntry)
    (w : World) :
  let items := fst (batchItemsOf entry w) in
  exists result (w' : World),
    executeBatchRollback env entry w = (Returned result, w')
    /\ storage w' = storage w
    /\ List.length (affectedEntries result) + errorCount result
       = List.length items
    /\ (r_success result = true <-> errors result = None)
    /\ incl (affectedEntries result) (map id items)
    /\ tick w' <= tick w + List.length items.
Proof.
  cbv zeta. unfold executeBatchRollback. unfold bind at 1.
  assert (Hw : snd (batchItemsOf entry w) = w).
  { unfold batchItemsOf. destruct (batchId (operationData entry)); reflexivity. }
  destruct (batchItemsOf entry w) as [items w0]. cbn [fst snd] in *. subst w0.
  unfold bind at 1.
  destruct (batch_rollback_loop env items ([], []) w)
    as (rs & es & w' & E & Hl & Hi & Hs & Ht).
  rewrite E. cbn [fst snd app ret].
  do 2 eexists. split; [reflexivity |].
  cbn [r_success affectedEntries errors]. unfold errorCount. cbn [errors].
  split; [exact Hs |]. split.
  { destruct es; cbn in *; lia. }
  split.
  { destruct es; cbn; split; intros H; try reflexivity; discriminate H. }
  split; [exact Hi | exact Ht].
Qed.

(** X6: an entry that may be rolled back by an API call, but whose
    operation type has no case in [executeApiRollback], is refused with
    the message naming the type; no remote call is made and the world is
    as before. *)
Theorem rollback_unsupported_type (env : Env) entryId entry data (w : World) :
  lookup entryId w = Some entry ->
  rollbackData entry = Some data ->
  canRollback data = true ->
  rollbackType data = api_call ->
  supported (operationType entry) = false ->
  rollbackOperation env entryId w
  = (Returned (failure ("Rollback not implemented for "
                        ++ OperationType_string (operationType entry))%string), w).
Proof.
  intros Hfind Hdata Hcan Htype Hsup.
  assert (Hmay : mayRollback entry = true)
    by (unfold mayRollback; now rewrite Hdata).
  rewrite (rollbackOperation_eligible env entryId entry w Hfind Hmay).
  unfold executeRollback, executeApiRollback. rewrite Hdata, Htype.
  destruct (operationType entry); try discriminate Hsup; reflexivity.
Qed.

(** One call of [executeApiRollback] on an entry that can be sent. *)
Lemma executeApiRollback_sendable (env : Env) (entry : UniversalHistoryEntry)
    data (w : World) :
  rollbackData entry = Some data ->
  supported (operationType entry) = true ->
  exists done failed,
    executeApiRollback env entry w
    = (match remote env (tick w) (fst (endpoint (operationType entry)))
               (snd (endpoint (operationType entry))) (rollbackPayload data) with
       | Rejected t => Threw t
       | Response true =>
           Returned {| r_success := true; message := done;
                       affectedEntries := [id entry]; errors := None |}
       | Response false => Threw (ErrorObj "Error" failed)
       end,
       {| storage := storage w; tick := S (tick w) |}).
Proof.
  intros Hdata Hsup. unfold executeApiRollback. rewrite Hdata.
  destruct (operationType entry); try discriminate Hsup;
    cbn [endpoint fst snd]; unfold rollbackCall, bind, fetch;
    do 2 eexists;
    match goal with
    | |- context [remote env ?t ?u ?m ?p] => destruct (remote env t u m p) as [? | []]
    end; reflexivity.
Qed.

(** X7: when the remote store does not accept the inverse mutation of an
    eligible entry - the response is not ok, or the call is rejected -
    [rollbackOperation] returns a failure after exactly one call and
    leaves the store as it was: no rollback entry is recorded. *)
Theorem rollback_remote_refusal (env : Env) entryId entry data (w : World) :
  lookup entryId w = Some entry ->
  rollbackData entry = Some data ->
  canRollback data = true ->
  rollbackType data = api_call ->
  supported (operationType entry) = true ->
  remote env (tick w) (fst (endpoint (operationType entry)))
         (snd (endpoint (operationType entry))) (rollbackPayload data)
  <> Response true ->
  exists result,
    rollbackOperation env entryId w
    = (Returned result, {| storage := storage w; tick := S (tick w) |})
    /\ r_success result = false
    /\ affectedEntries result = [].
Proof.
  intros Hfind Hdata Hcan Htype Hsup Hno.
  assert (Hmay : mayRollback entry = true)
    by (unfold mayRollback; now rewrite Hdata).
  rewrite (rollbackOperation_eligible env entryId entry w Hfind Hmay).
  unfold executeRollback. rewrite Hdata, Htype.
  destruct (executeApiRollback_sendable env entry data w Hdata Hsup)
    as (done & failed & E).
  rewrite E.
  destruct (remote env (tick w) _ _ _) as [t | []]; [| congruence |];
    eexists; repeat split.
Qed.

(** X8: the entry that records a successful rollback comes first in the
    store and can itself not be rolled back: a rollback of it is refused
    and changes nothing.  The source entry is not marked: while the store
    is below capacity and the new id differs from the source's, the source
    is still found as before and is still eligible. *)
Theorem rollback_entry_is_final (env : Env) entryId entry result (w w1 : World) :
  lookup entryId w = Some entry ->
  mayRollback entry = true ->
  executeRollback env entry w = (Returned result, w1) ->
  r_success result = true ->
  let w' := snd (rollbackOperation env entryId w) in
  exists e : UniversalHistoryEntry,
    hd_error (storage w') = Some e
    /\ action (operationData e) = "rollback"
    /\ rollbackOperation env (id e) w'
       = (Returned (failure "This operation cannot be rolled back"), w')
    /\ (id e <> entryId -> List.length (storage w) < MAX_ENTRIES ->
        lookup entryId w' = Some entry /\ mayRollback entry = true).
Proof.
  intros Hfind Hmay Hexec Hok. cbv zeta.
  rewrite (rollbackOperation_eligible env entryId entry w Hfind Hmay), Hexec, Hok.
  cbn [snd].
  set (e := entryAt env (tick w1) (rollbackEntryInput entry entryId)).
  exists e. cbn [storage].
  assert (Hhd : firstn MAX_ENTRIES (e :: storage w)
                = e :: firstn (pred MAX_ENTRIES) (storage w))
    by (rewrite MAX_ENTRIES_pos at 1; reflexivity).
  rewrite Hhd. split; [reflexivity |]. split; [reflexivity |]. split.
  - apply rollbackOperation_locked with (entry := e); [| reflexivity].
    unfold lookup. cbn [storage find]. now rewrite String.eqb_refl.
  - intros Hid Hlen. split; [| exact Hmay].
    unfold lookup. cbn [storage find].
    destruct (String.eqb_spec (id e) entryId) as [Heq | _]; [congruence |].
    rewrite firstn_all2 by (unfold MAX_ENTRIES in *; lia). exact Hfind.
Qed.

(** *** The helper constructors *)

(** X9: an entry recorded by [createImageHistoryEntry] can never be
    rolled back: a rollback of it, right after it was recorded, is
    refused without a remote call and changes nothing. *)
Theorem image_entry_cannot_rollback (env : Env) act pid title urls st (w : World) :
  let r := createImageHistoryEntry env act pid title urls st w in
  hd_error (storage (snd r)) = Some (fst r)
  /\ rollbackOperation env (id (fst r)) (snd r)
     = (Returned (failure "This operation cannot be rolled back"), snd r).
Proof.
  cbv zeta. unfold createImageHistoryEntry. rewrite createEntry_eq.
  cbn [fst snd]. rewrite MAX_ENTRIES_pos at 1 2 3. cbn [firstn storage hd_error].
  split; [reflexivity |].
  eapply rollbackOperation_locked.
  - unfold lookup. cbn [storage find]. rewrite String.eqb_refl. reflexivity.
  - reflexivity.
Qed.

(** X10: an entry recorded by [createProductHistoryEntry] is rolled back
    by one PUT to [/api/products] whose body is the product id together
    with the old values; when that call is accepted, the rollback succeeds
    and the entry it records has the old values as its new values, the new
    values as its old values, and the id of the source entry. *)
Theorem product_entry_rollback (env : Env) act pid title oldV newV st (w : World) :
  let r := createProductHistoryEntry env act pid title oldV newV st w in
  remote env (3 + tick w) "/api/products" "PUT"
         (Some (JObj (spread [("id", JStr pid)] oldV))) = Response true ->
  exists (rb : UniversalHistoryEntry) (w2 : World),
    rollbackOperation env (id (fst r)) (snd r)
    = (Returned {| r_success := true;
                   message := "Product successfully rolled back";
                   affectedEntries := [id (fst r)];
                   errors := None |}, w2)
    /\ storage w2 = firstn MAX_ENTRIES (rb :: storage (snd r))
    /\ action (operationData rb) = "rollback"
    /\ newValues (operationData rb) = oldV
    /\ oldValues (operationData rb) = newV
    /\ productId rb = Some pid
    /\ (exists m, metadata rb = Some m /\ originalEntryId m = Some (id (fst r))).
Proof.
  cbv zeta. intros Hremote.
  unfold createProductHistoryEntry. rewrite createEntry_eq. cbn [fst snd].
  match goal with
  | |- context [entryAt env (tick w) ?i] => set (e := entryAt env (tick w) i)
  end.
  set (w1 := {| storage := firstn MAX_ENTRIES (e :: storage w);
                tick := 3 + tick w |}).
  assert (Hfind : lookup (id e) w1 = Some e).
  { unfold lookup, w1. cbn [storage]. rewrite MAX_ENTRIES_pos at 1.
    cbn [firstn find]. now rewrite String.eqb_refl. }
  rewrite (rollbackOperation_eligible env (id e) e w1 Hfind eq_refl).
  assert (Hexec : executeRollback env e w1
                  = (Returned {| r_success := true;
                                 message := "Product successfully rolled back";
                                 affectedEntries := [id e];
                                 errors := None |},
                     {| storage := storage w1; tick := S (tick w1) |})).
  { unfold executeRollback, executeApiRollback, rollbackCall, bind, fetch.
    cbn [rollbackData input e entryAt rollbackType operationType rollbackPayload
         w1 tick].
    rewrite Hremote. reflexivity. }
  rewrite Hexec. cbn [r_success].
  do 2 eexists. split; [reflexivity |]. cbn [storage].
  split; [reflexivity |]. repeat split.
  eexists. split; reflexivity.
Qed.

Lemma get_set_key k k' v (l : list (string * value)) :
  get_key k (set_key k' v l) = if String.eqb k k' then Some v else get_key k l.
Proof.
  induction l as [| [k0 v0] l IH]; cbn [set_key get_key].
  - destruct (String.eqb k k'); reflexivity.
  - destruct (String.eqb_spec k' k0) as [-> | Hne]; cbn [get_key].
    + destruct (String.eqb k k0); reflexivity.
    + rewrite IH. destruct (String.eqb_spec k k0) as [-> | Hne'].
      * destruct (String.eqb_spec k0 k'); [congruence | reflexivity].
      * reflexivity.
Qed.

Lemma get_key_absent k (l : list (string * value)) :
  ~ In k (map fst l) -> get_key k l = None.
Proof.
  induction l as [| [k0 v0] l IH]; intros Hin; [reflexivity |].
  cbn [get_key]. destruct (String.eqb_spec k k0) as [-> | Hne].
  - exfalso. apply Hin. now left.
  - apply IH. intros H. apply Hin. now right.
Qed.

Lemma get_key_fold k (fields : list (string * value)) :
  NoDup (map fst fields) ->
  forall base,
    get_key k (fold_left (fun acc kv => set_key (fst kv) (snd kv) acc) fields base)
    = match get_key k fields with
      | Some v => Some v
      | None => get_key k base
      end.
Proof.
  induction fields as [| [k0 v0] rest IH]; intros Hnd base; [reflexivity |].
  cbn [map fst] in Hnd. inversion Hnd as [| ? ? Hnot Hrest]; subst.
  cbn [fold_left fst snd get_key]. rewrite (IH Hrest), get_set_key.
  destruct (String.eqb_spec k k0) as [-> | Hne]; [| reflexivity].
  now rewrite (get_key_absent k0 rest Hnot).
Qed.

(** X11: the rollback payload [{ id, ...oldValues }] of a product or
    child entry carries every old value; its [id] is the entry's own id
    unless the old values have an [id] of their own, which then wins. *)
Theorem rollback_payload_keys (own : string) (fields : list (string * value)) :
  NoDup (map fst fields) ->
  get_key "id" (spread [("id", JStr own)] (Some (JObj fields)))
  = match get_key "id" fields with
    | Some v => Some v
    | None => Some (JStr own)
    end
  /\ (forall k, k <> "id" ->
                get_key k (spread [("id", JStr own)] (Some (JObj fields)))
                = get_key k fields)
  /\ spread [("id", JStr own)] None = [("id", JStr own)].
Proof.
  intros Hnd. unfold spread. cbn [own_properties]. split; [| split].
  - rewrite (get_key_fold "id" fields Hnd). reflexivity.
  - intros k Hk. rewrite (get_key_fold k fields Hnd). cbn [get_key].
    destruct (String.eqb_spec k "id"); [congruence |].
    now destruct (get_key k fields).
  - reflexivity.
Qed.

(** *** Statistics *)

Lemma filter_length_mono {A : Type} (p q : A -> bool) (l : list A) :
  (forall x, p x = true -> q x = true) ->
  List.length (filter p l) <= List.length (filter q l).
Proof.
  intros Hpq. induction l as [| x l IH]; [constructor |].
  cbn [filter]. destruct (p x) eqn:Hp.
  - rewrite (Hpq x Hp). cbn [List.length]. lia.
  - destruct (q x); cbn [List.length]; lia.
Qed.

(** X12: in [getStatistics] the counts by status add up to the total,
    and so do the counts by category; the count for today is at most the
    count for the week, which is at most the total; and the number of bulk
    operations is the number of entries that [getBulkOperations] lists. *)
Theorem statistics_partition (env : Env) (startOfDay startOfMonth : Z -> Z)
    (w : World) :
  let s := fst (getStatistics env startOfDay startOfMonth w) in
  total s = List.length (storage w)
  /\ s_success (byStatus s) + s_error (byStatus s) + s_warning (byStatus s)
     + s_pending (byStatus s) = total s
  /\ c_product (byCategory s) + c_pricing (byCategory s) + c_images (byCategory s)
     + c_bulk (byCategory s) + c_collections (byCategory s) = total s
  /\ today s <= thisWeek s
  /\ thisWeek s <= total s
  /\ thisMonth s <= total s
  /\ bulkOperations s = List.length (fst (getBulkOperations w))
  /\ storage (snd (getStatistics env startOfDay startOfMonth w)) = storage w.
Proof.
  cbv zeta. unfold getStatistics, bind, getAllEntries, now, ret.
  cbn [fst snd storage tick total today thisWeek thisMonth byStatus byCategory
       bulkOperations s_success s_error s_warning s_pending
       c_product c_pricing c_images c_bulk c_collections].
  unfold countWhere. split; [reflexivity |]. split.
  { induction (storage w) as [| e l IH]; [reflexivity |].
    cbn [filter]. unfold isStatus in *.
    destruct (status e); simpl in *; lia. }
  split.
  { induction (storage w) as [| e l IH]; [reflexivity |].
    cbn [filter]. unfold isCategory in *.
    destruct (category e); simpl in *; lia. }
  split.
  { apply filter_length_mono. intros e. unfold since.
    rewrite !Z.leb_le. lia. }
  split; [apply filter_length_le |]. split; [apply filter_length_le |].
  split; reflexivity.
Qed.

(** *** A batch, created and then rolled back *)

Lemma firstn_front {A : Type} (n : nat) (front old : list A) :
  List.length front <= n ->
  firstn n (front ++ old) = front ++ firstn (n - List.length front) old.
Proof.
  intros H. rewrite firstn_app, firstn_all2 by exact H. reflexivity.
Qed.

Lemma children_sendable (env : Env) opType cat descr batch items t :
  supported opType = true ->
  Forall (fun c : UniversalHistoryEntry => sendable c = true)
    (entriesFrom env t (map (individualEntryInput opType cat descr batch) items)).
Proof.
  intros Hsup. revert t.
  induction items as [| x rest IH]; intros t; cbn [map entriesFrom];
    constructor; [| apply IH].
  unfold sendable. cbn. now rewrite Hsup.
Qed.

Lemma batch_rollback_all_ok (env : Env) (items : list UniversalHistoryEntry) :
  (forall t url method body, remote env t url method body = Response true) ->
  Forall (fun c : UniversalHistoryEntry => sendable c = true) items ->
  forall (acc : list string * list string) (w : World),
    forEach items
      (fun (acc : list string * list string) batchEntry =>
         let (results, errs) := acc in
         r <- executeApiRollback env batchEntry ;;
         match r with
         | Returned result =>
             if r_success result
             then ret ((results ++ affectedEntries result)%list, errs)
             else ret (results,
                       (errs ++ [("Failed to rollback " ++ id batchEntry ++ ": "
                                  ++ message result)%string])%list)
         | Threw t =>
             ret (results,
                  (errs ++ [("Error rolling back " ++ id batchEntry ++ ": "
                             ++ thrown_string t)%string])%list)
         end) acc w
    = ((fst acc ++ map id items, snd acc),
       {| storage := storage w; tick := List.length items + tick w |}).
Proof.
  intros Hok Hall. induction Hall as [| x rest Hx _ IH]; intros [results errs] w.
  - cbn [forEach ret fst snd map List.length Nat.add]. rewrite app_nil_r.
    destruct w; reflexivity.
  - cbn [forEach]. unfold bind at 1. unfold bind at 1.
    unfold sendable in Hx. apply andb_prop in Hx as [Hsup Hdata].
    destruct (rollbackData x) as [data |] eqn:Ed; [| discriminate Hdata].
    destruct (executeApiRollback_sendable env x data w Ed Hsup)
      as (done & failed & E).
    rewrite E, Hok. cbn [r_success affectedEntries ret]. rewrite IH.
    cbn [fst snd storage tick map List.length]. rewrite <- app_assoc.
    cbn [app]. rewrite Nat.add_succ_r. reflexivity.
Qed.

Lemma find_skip {A : Type} (p : A -> bool) (l1 l2 : list A) :
  Forall (fun x => p x = false) l1 -> find p (l1 ++ l2) = find p l2.
Proof.
  induction 1 as [| x l Hx _ IH]; [reflexivity |].
  cbn [app find]. now rewrite Hx.
Qed.

(** X13: a batch of a supported operation type, recorded with a rollback
    payload on a store with room and without entries of the new batch id,
    in which no child entry got the id of the aggregate entry, and then
    rolled back as a whole against a remote store that accepts every
    call: the rollback succeeds and affects every child, in the store's
    order; one rollback entry is recorded; it carries the batch id, so
    that the batch history then shows it before the children and the
    aggregate, while the batch's items are still the children only. *)
Theorem batch_rollback_after_create (env : Env) opType cat descr items
    (payload : value) (w : World) :
  supported opType = true ->
  truthy_value payload = true ->
  S (List.length items) < MAX_ENTRIES ->
  Forall (fun e => matches_batch (batchIdAt env (tick w)) e = false) (storage w) ->
  (forall t url method body, remote env t url method body = Response true) ->
  let r := createBulkOperation env opType cat descr items (Some payload) w in
  (forall (main : UniversalHistoryEntry) children,
     snd (fst r) = main :: children ->
     Forall (fun c : UniversalHistoryEntry => id c <> id main) children) ->
  exists main children result (rb : UniversalHistoryEntry) (w2 : World),
    snd (fst r) = main :: children
    /\ rollbackOperation env (id main) (snd r) = (Returned result, w2)
    /\ r_success result = true
    /\ affectedEntries result = map id (rev children)
    /\ errors result = None
    /\ storage w2 = firstn MAX_ENTRIES (rb :: storage (snd r))
    /\ action (operationData rb) = "rollback"
    /\ tick w2 = 3 + (List.length items + tick (snd r))
    /\ fst (getBatchHistory (fst (fst r)) w2) = rb :: rev children ++ [main]
    /\ fst (getBulkOperationItems (fst (fst r)) w2) = rev children.
Proof.
  intros Hsup Hpay Hlen Hfresh Hok.
  pose proof (createBulkOperation_eq env opType cat descr items (Some payload) w)
    as E.
  cbv zeta in E. cbv zeta. rewrite E. cbn [fst snd]. clear E.
  set (batch := batchIdAt env (tick w)) in *.
  set (main := entryAt env (2 + tick w) _).
  set (children := entriesFrom env (5 + tick w) _).
  intros Hdistinct. specialize (Hdistinct main children eq_refl).
  assert (Hch : Forall (childShape batch) (rev children))
    by (apply Forall_rev, children_shape).
  assert (Hsend : Forall (fun c : UniversalHistoryEntry => sendable c = true)
                         (rev children))
    by (apply Forall_rev, children_sendable, Hsup).
  assert (Hn : List.length children = List.length items)
    by (unfold children; now rewrite length_entriesFrom, length_map).
  assert (Hstore :
            firstn MAX_ENTRIES (rev children ++ main :: storage w)
            = rev children
              ++ main :: firstn (MAX_ENTRIES - S (List.length items)) (storage w)).
  { change (main :: storage w) with ([main] ++ storage w).
    rewrite app_assoc, firstn_front
      by (rewrite length_app, length_rev; cbn [List.length]; lia).
    rewrite <- app_assoc. cbn [app]. do 3 f_equal.
    rewrite length_app, length_rev, Hn. cbn [List.length]. lia. }
  rewrite Hstore in *.
  set (old := firstn (MAX_ENTRIES - S (List.length items)) (storage w)) in *.
  assert (Hold : Forall (fun e => matches_batch batch e = false) old)
    by (apply Forall_firstn, Hfresh).
  set (isItem := fun entry : UniversalHistoryEntry =>
                   same (parentBatchId (operationData entry)) batch).
  assert (Hold' : filter isItem old = []).
  { apply filter_all_false. eapply Forall_impl; [| exact Hold].
    intros e He. unfold matches_batch in He.
    apply orb_false_elim in He as [_ He]. exact He. }
  assert (Hitems : filter isItem (rev children) = rev children).
  { apply filter_all_true. eapply Forall_impl; [| exact Hch].
    intros e (_ & _ & Hp & _). unfold isItem. now rewrite Hp, same_refl. }
  set (w1 := {| storage := rev children ++ main :: old;
                tick := 3 * List.length items + (5 + tick w) |}) in *.
  assert (Hmay : mayRollback main = true).
  { unfold mayRollback, main. cbn. now rewrite Hpay. }
  assert (Hfind : lookup (id main) w1 = Some main).
  { unfold lookup, w1. cbn [storage].
    rewrite (find_skip _ (rev children)).
    - cbn [find]. now rewrite String.eqb_refl.
    - apply Forall_rev. eapply Forall_impl; [| exact Hdistinct].
      intros c Hc. now apply String.eqb_neq. }
  pose proof (rollbackOperation_eligible env (id main) main w1 Hfind Hmay)
    as Hroll.
  assert (Hexec :
            executeRollback env main w1
            = (Returned
                 {| r_success := true;
                    message :=
                      ("Rolled back "
                       ++ JS.string_of_nat (List.length (map id (rev children)))
                       ++ " operations")%string;
                    affectedEntries := map id (rev children);
                    errors := None |},
               {| storage := storage w1;
                  tick := List.length (rev children) + tick w1 |})).
  { unfold executeRollback.
    assert (Hrd : rollbackData main
                  = Some {| canRollback := true; rollbackType := batch_operation;
                            rollbackPayload := Some payload;
                            dependencies := None |}).
    { unfold main. cbn. now rewrite Hpay. }
    rewrite Hrd. cbn [rollbackType].
    unfold executeBatchRollback. unfold bind at 1.
    assert (Hbatch : batchItemsOf main w1 = (rev children, w1)).
    { unfold batchItemsOf. 
      change (batchId (operationData main)) with (Some batch).
      unfold getBulkOperationItems, bind, getAllEntries, ret. f_equal.
      unfold w1. cbn [storage]. rewrite filter_app. fold isItem.
      rewrite Hitems. cbn [filter].
      change (isItem main) with false. cbn iota. rewrite Hold'.
      apply app_nil_r. }
    rewrite Hbatch. unfold bind at 1.
    rewrite (batch_rollback_all_ok env (rev children) Hok Hsend).
    cbn [fst snd app ret List.length Nat.eqb Nat.ltb Nat.leb]. reflexivity. }
  rewrite Hexec in Hroll. cbn [r_success storage tick] in Hroll.
  set (rb := entryAt env (List.length (rev children) + tick w1)
               (rollbackEntryInput main (id main))) in *.
  exists main, children. eexists. exists rb. eexists.
  split; [reflexivity |]. split; [exact Hroll |].
  split; [reflexivity |]. split; [reflexivity |]. split; [reflexivity |].
  cbn [storage tick]. split; [reflexivity |]. split; [reflexivity |].
  split; [rewrite length_rev, Hn; reflexivity |].
  assert (Hstore2 :
            firstn MAX_ENTRIES (rb :: storage w1)
            = rb :: rev children
              ++ main :: firstn (MAX_ENTRIES - S (S (List.length items))) old).
  { unfold w1. cbn [storage].
    replace (rb :: rev children ++ main :: old)
      with ((rb :: rev children ++ [main]) ++ old)
      by (cbn [app]; now rewrite <- app_assoc).
    assert (Hl : List.length (rb :: rev children ++ [main])
                 = S (S (List.length items))).
    { cbn [List.length]. rewrite length_app, length_rev, Hn.
      cbn [List.length]. lia. }
    rewrite firstn_front by (rewrite Hl; lia).
    rewrite Hl. cbn [app]. rewrite <- app_assoc. reflexivity. }
  unfold getBatchHistory, getBulkOperationItems, bind, getAllEntries, ret.
  cbn [fst storage]. rewrite Hstore2.
  assert (Hrb : matches_batch batch rb = true).
  { unfold matches_batch, rb. cbn. now rewrite String.eqb_refl. }
  assert (Hm : matches_batch batch main = true).
  { unfold matches_batch, main. cbn. now rewrite String.eqb_refl. }
  split.
  - cbn [filter]. rewrite Hrb, filter_app.
    rewrite (filter_all_true (matches_batch batch) (rev children))
      by (eapply Forall_impl; [| exact Hch]; apply child_matches).
    cbn [filter]. rewrite Hm.
    rewrite (filter_all_false (matches_batch batch))
      by (apply Forall_firstn, Hold).
    reflexivity.
  - fold isItem. cbn [filter]. change (isItem rb) with false. cbn iota.
    rewrite filter_app, Hitems. cbn [filter]. change (isItem main) with false.
    cbn iota. 
    rewrite (filter_all_false isItem).
    + apply app_nil_r.
    + apply Forall_firstn. eapply Forall_impl; [| exact Hold].
      intros e He. unfold matches_batch in He.
      apply orb_false_elim in He as [_ He]. exact He.
Qed.

(** *** The properties above at sample stores *)

Section Samples.
Import Samples SamplesMore.

Lemma items_after_create_witness :
  let r := createBulkOperation sampleEnv bulk_discount pricing "Sale"
             [item "1"; item "2"] None emptyWorld in
  exists main children,
    snd (fst r) = main :: children
    /\ fst (getBulkOperationItems (fst (fst r)) (snd r)) = rev children
    /\ ~ In main (fst (getBulkOperationItems (fst (fst r)) (snd r)))
    /\ In main (fst (getBulkOperations (snd r))).
Proof.
  apply (items_after_create sampleEnv bulk_discount pricing "Sale"
           [item "1"; item "2"] None emptyWorld).
  - unfold MAX_ENTRIES. simpl. lia.
  - constructor.
Defined.

Lemma batch_rollback_after_create_witness :
  let r := createBulkOperation sampleEnv bulk_discount pricing "Sale"
             [item "1"; item "2"] (Some discountPayload) emptyWorld in
  exists main children result (rb : UniversalHistoryEntry) (w2 : World),
    snd (fst r) = main :: children
    /\ rollbackOperation sampleEnv (id main) (snd r) = (Returned result, w2)
    /\ r_success result = true
    /\ affectedEntries result = map id (rev children)
    /\ errors result = None
    /\ storage w2 = firstn MAX_ENTRIES (rb :: storage (snd r))
    /\ action (operationData rb) = "rollback"
    /\ tick w2 = 3 + (2 + tick (snd r))
    /\ fst (getBatchHistory (fst (fst r)) w2) = rb :: rev children ++ [main]
    /\ fst (getBulkOperationItems (fst (fst r)) w2) = rev children.
Proof.
  apply (batch_rollback_after_create sampleEnv bulk_discount pricing "Sale"
           [item "1"; item "2"] discountPayload emptyWorld).
  - reflexivity.
  - reflexivity.
  - unfold MAX_ENTRIES. simpl. lia.
  - constructor.
  - reflexivity.
  - intros main children H. vm_compute in H. injection H as <- <-.
    repeat constructor; vm_compute; discriminate.
Defined.

Lemma rollback_entry_is_final_witness :
  let w' := snd (rollbackOperation sampleEnv "hist_a" smallWorld) in
  exists e : UniversalHistoryEntry,
    hd_error (storage w') = Some e
    /\ action (operationData e) = "rollback"
    /\ rollbackOperation sampleEnv (id e) w'
       = (Returned (failure "This operation cannot be rolled back"), w')
    /\ (id e <> "hist_a" -> List.length (storage smallWorld) < MAX_ENTRIES ->
        lookup "hist_a" w' = Some (productEntry "hist_a")
        /\ mayRollback (productEntry "hist_a") = true).
Proof.
  exact (rollback_entry_is_final sampleEnv "hist_a" (productEntry "hist_a")
           _ smallWorld {| storage := storage smallWorld; tick := 1 |}
           eq_refl eq_refl eq_refl eq_refl).
Defined.

Lemma rollback_unsupported_type_witness :
  rollbackOperation sampleEnv "hist_d" collectionWorld
  = (Returned (failure "Rollback not implemented for collection_update"),
     collectionWorld).
Proof.
  exact (rollback_unsupported_type sampleEnv "hist_d" (collectionEntry "hist_d")
           _ collectionWorld eq_refl eq_refl eq_refl eq_refl eq_refl).
Defined.

Lemma rollback_remote_refusal_witness :
  exists result,
    rollbackOperation refusingEnv "hist_a" smallWorld
    = (Returned result, {| storage := storage smallWorld; tick := 1 |})
    /\ r_success result = false
    /\ affectedEntries result = [].
Proof.
  apply (rollback_remote_refusal refusingEnv "hist_a" (productEntry "hist_a")
           _ smallWorld eq_refl eq_refl eq_refl eq_refl eq_refl).
  discriminate.
Defined.

Lemma product_entry_rollback_witness :
  let r := createProductHistoryEntry sampleEnv "Update" "p1" "Ring 1"
             (Some (JObj [("title", JStr "Ring")]))
             (Some (JObj [("title", JStr "Ring 1")])) None emptyWorld in
  exists (rb : UniversalHistoryEntry) (w2 : World),
    rollbackOperation sampleEnv (id (fst r)) (snd r)
    = (Returned {| r_success := true;
                   message := "Product successfully rolled back";
                   affectedEntries := [id (fst r)];
                   errors := None |}, w2)
    /\ storage w2 = firstn MAX_ENTRIES (rb :: storage (snd r))
    /\ action (operationData rb) = "rollback"
    /\ newValues (operationData rb) = Some (JObj [("title", JStr "Ring")])
    /\ oldValues (operationData rb) = Some (JObj [("title", JStr "Ring 1")])
    /\ productId rb = Some "p1"
    /\ (exists m, metadata rb = Some m /\ originalEntryId m = Some (id (fst r))).
Proof.
  apply (product_entry_rollback sampleEnv "Update" "p1" "Ring 1"
           (Some (JObj [("title", JStr "Ring")]))
           (Some (JObj [("title", JStr "Ring 1")])) None emptyWorld).
  reflexivity.
Defined.

Lemma rollback_payload_keys_witness :
  get_key "id" (spread [("id", JStr "v1")]
                  (Some (JObj [("price", JStr "100.00"); ("id", JStr "gid-1")])))
  = match get_key "id" [("price", JStr "100.00"); ("id", JStr "gid-1")] with
    | Some v => Some v
    | None => Some (JStr "v1")
    end
  /\ (forall k, k <> "id" ->
                get_key k (spread [("id", JStr "v1")]
                             (Some (JObj [("price", JStr "100.00");
                                          ("id", JStr "gid-1")])))
                = get_key k [("price", JStr "100.00"); ("id", JStr "gid-1")])
  /\ spread [("id", JStr "v1")] None = [("id", JStr "v1")].
Proof.
  apply (rollback_payload_keys "v1"
           [("price", JStr "100.00"); ("id", JStr "gid-1")]).
  simpl. repeat constructor; simpl; intuition discriminate.
Defined.

End Samples.

End HistoryMoreFacts.

(** ** More properties of the stored text *)

Module LocalStorageMoreFacts.
Import Json LocalStorage LocalStorageMore.

Section Facts.

Context (JSON_parse : string -> option value).
Context (JSON_stringify JSON_stringify_pretty : value -> string).

Hypothesis parse_empty : JSON_parse "" = None.

(** X14: export, clear, import is a round trip: when the history is an
    array and parsing undoes the indented printing of it, importing the
    exported text into the cleared store is accepted and the history read
    back is the one that was exported.  A cleared store reads as the empty
    history. *)
Theorem export_clear_import (slot : Slot) :
  (exists entries, getAllEntries JSON_parse slot = JArr entries) ->
  JSON_parse (exportHistory JSON_parse JSON_stringify_pretty slot)
  = Some (getAllEntries JSON_parse slot) ->
  let text := exportHistory JSON_parse JSON_stringify_pretty slot in
  let cleared := clearHistory slot in
  getAllEntries JSON_parse cleared = JArr []
  /\ fst (importHistory JSON_parse text cleared) = true
  /\ getAllEntries JSON_parse (snd (importHistory JSON_parse text cleared))
     = getAllEntries JSON_parse slot.
Proof.
  intros (entries & Harr) Hparse. cbv zeta.
  split; [reflexivity |].
  unfold importHistory. rewrite Hparse, Harr. cbn [fst snd].
  split; [reflexivity |].
  unfold getAllEntries at 1.
  destruct (String.eqb_spec
              (exportHistory JSON_parse JSON_stringify_pretty slot) "")
    as [Hempty | _].
  - rewrite Hempty, parse_empty in Hparse. discriminate Hparse.
  - rewrite Hparse. exact Harr.
Qed.

(** X15: a slot that is absent, empty or holds text that does not parse
    reads as the empty history, and the next [saveEntry] replaces it by
    the one new entry: what the unreadable text held is lost without an
    error. *)
Theorem unreadable_slot_is_reset (slot : Slot) (entry : value) :
  (slot = None \/ slot = Some ""
   \/ exists text, slot = Some text /\ JSON_parse text = None) ->
  getAllEntries JSON_parse slot = JArr []
  /\ saveEntry JSON_parse JSON_stringify entry slot
     = History.Returned (Some (JSON_stringify (JArr [entry]))).
Proof.
  intros H.
  assert (Hget : getAllEntries JSON_parse slot = JArr []).
  { destruct H as [-> | [-> | (text & -> & Hp)]]; try reflexivity.
    unfold getAllEntries. rewrite Hp. now destruct (String.eqb text ""). }
  split; [exact Hget |].
  unfold saveEntry. rewrite Hget. reflexivity.
Qed.

End Facts.

Lemma export_clear_import_witness :
  let text := exportHistory sample_parse sample_stringify (Some "[1,null]") in
  let cleared := clearHistory (Some "[1,null]") in
  getAllEntries sample_parse cleared = JArr []
  /\ fst (importHistory sample_parse text cleared) = true
  /\ getAllEntries sample_parse (snd (importHistory sample_parse text cleared))
     = getAllEntries sample_parse (Some "[1,null]").
Proof.
  apply (export_clear_import sample_parse sample_stringify eq_refl
           (Some "[1,null]")).
  - eexists. reflexivity.
  - reflexivity.
Defined.

Lemma unreadable_slot_is_reset_witness :
  getAllEntries sample_parse (Some "not json") = JArr []
  /\ saveEntry sample_parse sample_stringify JNull (Some "not json")
     = History.Returned (Some (sample_stringify (JArr [JNull]))).
Proof.
  apply (unreadable_slot_is_reset sample_parse sample_stringify
           (Some "not json") JNull).
  right. right. eexists. split; reflexivity.
Defined.

End LocalStorageMoreFacts.

(** ** More properties of the price editor *)

Module PriceMoreFacts.
Import JS JSFacts PriceRuleEvaluator PriceRuleFacts PriceModal.
Local Open Scope Q_scope.

Lemma Qfloor_unique (z : Z) (x : Q) :
  inject_Z z <= x -> x < inject_Z z + 1 -> Qfloor x = z.
Proof.
  intros Hlo Hhi.
  pose proof (Qfloor_le x) as Hf. pose proof (Qlt_floor x) as Hc.
  apply Z.le_antisymm.
  - apply Z.lt_succ_r. unfold Z.succ. rewrite Zlt_Qlt.
    rewrite inject_Z_plus. change (inject_Z 1) with 1. lra.
  - apply Z.lt_succ_r. unfold Z.succ. rewrite Zlt_Qlt.
    rewrite inject_Z_plus in Hc |- *. change (inject_Z 1) with 1 in *. lra.
Qed.

Lemma hundredths_whole_plus (n c : Z) :
  (0 <= c < 100)%Z ->
  hundredths (inject_Z n + (c # 100)) = (100 * n + c)%Z.
Proof.
  intros Hc. unfold hundredths. apply Qfloor_unique.
  - rewrite inject_Z_plus, inject_Z_mult. change (inject_Z 100) with 100.
    assert (E : inject_Z c == (c # 100) * 100).
    { unfold inject_Z, Qeq, Qmult. cbn. lia. }
    rewrite E. lra.
  - rewrite inject_Z_plus, inject_Z_mult. change (inject_Z 100) with 100.
    assert (E : inject_Z c == (c # 100) * 100).
    { unfold inject_Z, Qeq, Qmult. cbn. lia. }
    rewrite E. lra.
Qed.

Lemma render_whole_plus (n c : Z) :
  (0 <= c < 100)%Z ->
  render_fixed2 (100 * n + c) = (string_of_Z n ++ "." ++ two_digits c)%string.
Proof.
  intros Hc. unfold render_fixed2.
  assert (Hq : ((100 * n + c) / 100 = n)%Z)
    by (symmetry; apply (Z.div_unique _ _ n c); lia).
  assert (Hr : ((100 * n + c) mod 100 = c)%Z)
    by (symmetry; apply (Z.mod_unique _ _ n c); lia).
  now rewrite Hq, Hr.
Qed.

Lemma hundredths_comp (x y : Q) : x == y -> hundredths x = hundredths y.
Proof. intros E. unfold hundredths. apply Qfloor_comp. now rewrite E. Qed.

Lemma hundredths_mono x y : x <= y -> (hundredths x <= hundredths y)%Z.
Proof. intros H. apply Qfloor_resp_le. lra. Qed.

(** A whole number below 2^45 plus a number of 256ths is a binary64
    value. *)
Lemma binary64_256ths (n c : Z) :
  (0 <= n < 2 ^ 45)%Z -> (0 <= c < 256)%Z ->
  binary64 (inject_Z n + (c # 256)).
Proof.
  intros Hn Hc. exists (256 * n + c)%Z, (-8)%Z.
  assert (E : inject_Z n + (c # 256) == inject_Z (256 * n + c) * pow2 (-8)).
  { rewrite inject_Z_plus, inject_Z_mult. unfold pow2.
    change (2 ^ (-8)) with (1 # 256).
    assert (Ec : c # 256 == inject_Z c * (1 # 256))
      by (unfold Qeq, Qmult, inject_Z; cbn; lia).
    rewrite Ec. change (inject_Z 256) with 256. field. }
  split; [exact E |]. split; [lia |]. split; [lia |].
  rewrite E, Qabs_pos.
  - apply Qlt_trans with (pow2 53 * pow2 (-8)).
    + apply Qmult_lt_compat_r; [apply pow2_pos |].
      rewrite (pow2_Z 53) by lia. rewrite <- Zlt_Qlt. lia.
    + rewrite <- pow2_add. now apply pow2_lt.
  - apply Qmult_le_0_compat; [apply inject_Z_nonneg; lia |].
    apply Qlt_le_weak, pow2_pos.
Qed.

(** A clamped price that is finite is at least 0.01. *)
Lemma applyMinimum_Fin (pre : number) (m : Q) :
  applyMinimum pre = Fin m -> (1 # 100) <= m.
Proof.
  unfold applyMinimum. destruct literal_001 as (d & Hd & Hlow & _).
  rewrite Hd. destruct (lt pre (Fin d)) eqn:E; intros H.
  - injection H as <-. exact Hlow.
  - subst pre. apply lt_Fin_false in E. lra.
Qed.

(** [Math.floor(m) + d] for a literal [d] near [c / 100]: printed, it is
    the whole part of [m] followed by the two digits of [c]. *)
Lemma floor_plus_printed (m d : Q) (c lo : Z) :
  (1 # 100) <= m -> m < pow2 45 ->
  binary64 d ->
  (0 <= lo < 255)%Z -> (lo # 256) <= d -> d <= ((lo + 1) # 256) ->
  (0 <= c < 100)%Z ->
  inject_Z c - (1 # 2) <= 100 * (lo # 256) ->
  100 * ((lo + 1) # 256) < inject_Z c + (1 # 2) ->
  toFixed2 (add (Math_floor (Fin m)) (Fin d))
  = (string_of_Z (Qfloor m) ++ "." ++ two_digits c)%string.
Proof.
  intros Hm Hbig Hd Hlo Hd1 Hd2 Hc Hc1 Hc2.
  set (n := Qfloor m).
  assert (Hn0 : (0 <= n)%Z) by (apply Qfloor_nonneg; lra).
  assert (Hn45 : (n < 2 ^ 45)%Z).
  { rewrite Zlt_Qlt, <- pow2_Z by lia.
    apply Qle_lt_trans with m; [apply Qfloor_le | exact Hbig]. }
  cbn [Math_floor add]. fold n.
  destruct (round64_between (inject_Z n + (lo # 256))
              (inject_Z n + ((lo + 1) # 256)) (inject_Z n + d))
    as (v & Hv & Hv1 & Hv2 & _).
  - apply binary64_256ths; lia.
  - apply binary64_256ths; lia.
  - pose proof (inject_Z_nonneg n Hn0).
    assert (0 <= lo # 256) by (unfold Qle; cbn; lia). lra.
  - lra.
  - lra.
  - rewrite Hv.
    assert (Hn : 0 <= inject_Z n) by now apply inject_Z_nonneg.
    assert (Hlo0 : 0 <= lo # 256) by (unfold Qle; cbn; lia).
    assert (Hhi1 : (lo + 1) # 256 <= 1) by (unfold Qle; cbn; lia).
    assert (Hn' : inject_Z n < pow2 45)
      by (rewrite pow2_Z by lia; now rewrite <- Zlt_Qlt).
    assert (H21 : pow2 45 + 1 < 10 ^ 21) by reflexivity.
    rewrite toFixed2_nonneg by lra.
    assert (Hh : hundredths v = (100 * n + c)%Z).
    { unfold hundredths. apply Qfloor_unique.
      - rewrite inject_Z_plus, inject_Z_mult. change (inject_Z 100) with 100.
        lra.
      - rewrite inject_Z_plus, inject_Z_mult. change (inject_Z 100) with 100.
        lra. }
    rewrite Hh. now apply render_whole_plus.
Qed.

(** X16: when the clamped price is a finite number below 2^45, a price
    rounded by [nearest_99] is printed as the whole part of the clamped
    price followed by ".99", one rounded by [nearest_95] as that whole
    part followed by ".95", and one rounded by [nearest_00] as the nearest
    whole number followed by ".00"; the whole number is never negative. *)
Theorem rounded_price_ending (s : string) (rule : PriceRule)
    (action : Action) (m : Q) :
  applyMinimum (applyRule (parseFloat s) rule action) = Fin m ->
  m < pow2 45 ->
  exists n : Z,
    (0 <= n)%Z
    /\ (roundingRule rule = Some nearest_99 ->
        n = Qfloor m
        /\ calculateNewPrice s rule action = (string_of_Z n ++ ".99")%string)
    /\ (roundingRule rule = Some nearest_95 ->
        n = Qfloor m
        /\ calculateNewPrice s rule action = (string_of_Z n ++ ".95")%string)
    /\ (roundingRule rule = Some nearest_00 ->
        n = Qfloor (m + (1 # 2))
        /\ calculateNewPrice s rule action = (string_of_Z n ++ ".00")%string).
Proof.
  intros Hm Hbig.
  pose proof (applyMinimum_Fin _ _ Hm) as Hlow.
  assert (Hfl : (0 <= Qfloor m)%Z) by (apply Qfloor_nonneg; lra).
  unfold calculateNewPrice, finalPrice. rewrite Hm. unfold applyRounding.
  destruct (roundingRule rule) as [[] |].
  - exists 0%Z. split; [lia |]. split; [| split]; intros H; discriminate H.
  - exists (Qfloor m). split; [exact Hfl |].
    split; [| split; intros H; discriminate H].
    intros _. split; [reflexivity |].
    destruct literal_099 as (d & Hd & Hd1 & Hd2).
    pose proof (literal_valid 99 100) as Hv. rewrite Hd in *.
    apply (floor_plus_printed m d 99 253); try assumption; try lia;
      reflexivity || discriminate.
  - exists (Qfloor (m + (1 # 2))).
    assert (Hr : (0 <= Qfloor (m + (1 # 2)))%Z) by (apply Qfloor_nonneg; lra).
    split; [exact Hr |].
    split; [intros H; discriminate H |].
    split; [intros H; discriminate H |].
    intros _. split; [reflexivity |].
    unfold Math_round.
    assert (Hpos : Qle_bool 0 m = true) by (apply Qle_bool_iff; lra).
    rewrite Hpos, andb_false_r.
    set (n := Qfloor (m + (1 # 2))) in *.
    assert (Hn : 0 <= inject_Z n) by now apply inject_Z_nonneg.
    assert (Hn' : inject_Z n <= m + (1 # 2)) by apply Qfloor_le.
    assert (H21 : pow2 45 + 1 < 10 ^ 21) by reflexivity.
    rewrite toFixed2_nonneg by lra.
    rewrite (hundredths_comp (inject_Z n) (inject_Z n + (0 # 100)))
      by (unfold Qeq, Qplus, inject_Z; cbn; lia).
    rewrite hundredths_whole_plus by lia.
    rewrite (render_whole_plus n 0) by lia. reflexivity.
  - exists (Qfloor m). split; [exact Hfl |].
    split; [intros H; discriminate H |].
    split; [| intros H; discriminate H].
    intros _. split; [reflexivity |].
    destruct literal_095 as (d & Hd & Hd1 & Hd2).
    pose proof (literal_valid 95 100) as Hv. rewrite Hd in *.
    apply (floor_plus_printed m d 95 243); try assumption; try lia;
      reflexivity || discriminate.
  - exists 0%Z. split; [lia |]. split; [| split]; intros H; discriminate H.
Qed.

(** X17: with an [absolute] rule the returned price depends on neither
    the current price - which may even be unreadable - nor the direction;
    with a [percentage] or [fixed] rule a current price that does not read
    as a number gives the string "NaN". *)
Theorem unreadable_price (s : string) (rule : PriceRule) (action : Action) :
  (type rule = absolute ->
   forall s' action',
     calculateNewPrice s rule action = calculateNewPrice s' rule action')
  /\ (type rule <> absolute -> parseFloat s = NaN ->
      calculateNewPrice s rule action = "NaN"%string).
Proof.
  split.
  - intros Ht s' action'. unfold calculateNewPrice, finalPrice, applyRule.
    now rewrite Ht.
  - intros Ht Hs. unfold calculateNewPrice, finalPrice, applyRule,
      applyMinimum, applyRounding. rewrite Hs.
    destruct (type rule); [| | congruence];
      destruct action, (roundingRule rule) as [[] |]; reflexivity.
Qed.

(** The literal 0.01 is not above a binary64 value that is at least one
    hundredth. *)
Lemma literal_001_below (p : Q) :
  binary64 p -> (1 # 100) <= p -> at_most p (num 1 100).
Proof. intros Hp H. now apply round64_at_most. Qed.

Lemma at_most_not_NaN (r : Q) (a : number) : at_most r a -> a <> NaN.
Proof. destruct a; cbn; intros H; [contradiction | discriminate..]. Qed.

Lemma at_least_not_NaN (r : Q) (a : number) : at_least r a -> a <> NaN.
Proof. destruct a; cbn; intros H; [contradiction | discriminate..]. Qed.

(** The clamp of a price not above [p], for [p] not below 0.01. *)
Lemma applyMinimum_at_most (pre : number) (p : Q) :
  binary64 p -> (1 # 100) <= p -> at_most p pre ->
  at_most p (applyMinimum pre).
Proof.
  intros Hp Hlow Hpre. unfold applyMinimum.
  destruct (lt pre (num 1 100)); [now apply literal_001_below | exact Hpre].
Qed.

(** The clamp leaves a price not below [p] alone. *)
Lemma applyMinimum_at_least (pre : number) (p : Q) :
  binary64 p -> (1 # 100) <= p -> at_least p pre ->
  applyMinimum pre = pre.
Proof.
  intros Hp Hlow Hpre. unfold applyMinimum.
  destruct literal_001 as (d & Hd & _ & _).
  pose proof (literal_001_below p Hp Hlow) as Hd'. rewrite Hd in *.
  cbn in Hd'. now rewrite (at_least_not_lt pre p d Hpre Hd').
Qed.

(** X18: without rounding, for a current price of at least 0.01 and a
    rule value that is not negative, a [percentage] or [fixed] decrease
    never returns a number above the current price and an increase never
    returns one below it; below 10^21 the same holds of the hundredths
    that [toFixed(2)] prints for the new and for the current price. *)
Theorem direction_is_kept (s : string) (p : Q) (rule : PriceRule)
    (action : Action) :
  parseFloat s = Fin p ->
  (1 # 100) <= p ->
  at_least 0 (value rule) ->
  type rule <> absolute ->
  (roundingRule rule = None \/ roundingRule rule = Some none) ->
  exists x,
    finalPrice s rule action = x
    /\ calculateNewPrice s rule action = toFixed2 x
    /\ at_least (1 # 100) x
    /\ (action = decrease -> at_most p x)
    /\ (action = increase -> at_least p x)
    /\ (forall q, x = Fin q -> p < 10 ^ 21 -> q < 10 ^ 21 ->
          calculateNewPrice s rule action = render_fixed2 (hundredths q)
          /\ toFixed2 (Fin p) = render_fixed2 (hundredths p)
          /\ (action = decrease -> (hundredths q <= hundredths p)%Z)
          /\ (action = increase -> (hundredths p <= hundredths q)%Z)).
Proof.
  intros Hs Hp Hv Ht Hrr.
  assert (Hbin : binary64 p).
  { pose proof (parseFloat_valid s) as H. now rewrite Hs in H. }
  assert (Hfin : finalPrice s rule action
                 = applyMinimum (applyRule (Fin p) rule action)).
  { unfold finalPrice, applyRounding. rewrite Hs.
    destruct Hrr as [-> | ->]; reflexivity. }
  assert (Hdir :
            (action = decrease -> at_most p (applyRule (Fin p) rule action))
            /\ (action = increase -> at_least p (applyRule (Fin p) rule action))).
  { unfold applyRule. rewrite literal_1, literal_100.
    pose proof (div_100_at_least _ Hv) as Hdiv.
    destruct (type rule); [| | congruence]; destruct action;
      (split; [intros E; try discriminate E | intros E; try discriminate E]).
    - apply mul_at_least; [exact Hbin | lra |].
      apply add_at_least; [apply binary64_1 | exact Hdiv].
    - apply mul_at_most; [exact Hbin | lra |].
      apply sub_at_most; [apply binary64_1 | exact Hdiv].
    - now apply add_at_least.
    - now apply sub_at_most. }
  destruct Hdir as [Hdec Hinc].
  assert (Hx : at_least (1 # 100) (applyMinimum (applyRule (Fin p) rule action))).
  { apply applyMinimum_spec. destruct action.
    - eapply at_least_not_NaN. now apply Hinc.
    - eapply at_most_not_NaN. now apply Hdec. }
  eexists. split; [exact Hfin |].
  split; [unfold calculateNewPrice; now rewrite Hfin |].
  split; [exact Hx |].
  assert (Hdec' : action = decrease ->
                  at_most p (applyMinimum (applyRule (Fin p) rule action)))
    by (intros E; apply applyMinimum_at_most; auto).
  assert (Hinc' : action = increase ->
                  at_least p (applyMinimum (applyRule (Fin p) rule action))).
  { intros E. rewrite (applyMinimum_at_least _ p Hbin Hp (Hinc E)).
    exact (Hinc E). }
  split; [exact Hdec' |]. split; [exact Hinc' |].
  intros q Hq Hpbig Hqbig. rewrite Hq in Hx, Hdec', Hinc'. cbn in Hx.
  split; [| split; [| split]].
  - unfold calculateNewPrice. rewrite Hfin, Hq. apply toFixed2_nonneg; lra.
  - apply toFixed2_nonneg; lra.
  - intros E. apply hundredths_mono. exact (Hdec' E).
  - intros E. apply hundredths_mono. exact (Hinc' E).
Qed.

Lemma rounded_price_ending_witness :
  exists n : Z,
    (0 <= n)%Z
    /\ (roundingRule (mkRule percentage 15 nearest_99) = Some nearest_99 ->
        n = Qfloor (5024328334285209 # 562949953421312)
        /\ calculateNewPrice "10.50" (mkRule percentage 15 nearest_99) decrease
           = (string_of_Z n ++ ".99")%string)
    /\ (roundingRule (mkRule percentage 15 nearest_99) = Some nearest_95 ->
        n = Qfloor (5024328334285209 # 562949953421312)
        /\ calculateNewPrice "10.50" (mkRule percentage 15 nearest_99) decrease
           = (string_of_Z n ++ ".95")%string)
    /\ (roundingRule (mkRule percentage 15 nearest_99) = Some nearest_00 ->
        n = Qfloor ((5024328334285209 # 562949953421312) + (1 # 2))
        /\ calculateNewPrice "10.50" (mkRule percentage 15 nearest_99) decrease
           = (string_of_Z n ++ ".00")%string).
Proof.
  apply (rounded_price_ending "10.50" (mkRule percentage 15 nearest_99)
           decrease (5024328334285209 # 562949953421312)).
  - vm_compute. reflexivity.
  - vm_compute. reflexivity.
Defined.

Lemma direction_is_kept_witness :
  exists x,
    finalPrice "10.50" (mkRule percentage 15 none) decrease = x
    /\ calculateNewPrice "10.50" (mkRule percentage 15 none) decrease
       = toFixed2 x
    /\ at_least (1 # 100) x
    /\ (decrease = decrease -> at_most (21 # 2) x)
    /\ (decrease = increase -> at_least (21 # 2) x)
    /\ (forall q, x = Fin q -> (21 # 2) < 10 ^ 21 -> q < 10 ^ 21 ->
          calculateNewPrice "10.50" (mkRule percentage 15 none) decrease
          = render_fixed2 (hundredths q)
          /\ toFixed2 (Fin (21 # 2)) = render_fixed2 (hundredths (21 # 2))
          /\ (decrease = decrease -> (hundredths q <= hundredths (21 # 2))%Z)
          /\ (decrease = increase -> (hundredths (21 # 2) <= hundredths q)%Z)).
Proof.
  apply (direction_is_kept "10.50" (21 # 2) (mkRule percentage 15 none)
           decrease).
  - vm_compute. reflexivity.
  - vm_compute. discriminate.
  - vm_compute. discriminate.
  - discriminate.
  - right. reflexivity.
Defined.

(** The price 10.50 less 15 per cent is the binary64 value
    8.924999999999999, printed as 8.92; rounded by [nearest_99] it is
    printed as 8.99. *)
Example decrease_of_ten_fifty :
  calculateNewPrice "10.50" (mkRule percentage 15 none) decrease = "8.92"%string
  /\ calculateNewPrice "10.50" (mkRule percentage 15 nearest_99) decrease
     = "8.99"%string.
Proof. vm_compute. split; reflexivity. Qed.

Local Close Scope Q_scope.
Local Open Scope list_scope.

Lemma includes_In (l : list string) (x : string) :
  includes l x = true <-> In x l.
Proof.
  unfold includes. rewrite existsb_exists. split.
  - intros (y & Hy & E). apply String.eqb_eq in E. now subst.
  - intros H. exists x. split; [exact H | apply String.eqb_refl].
Qed.

Lemma row_origin (sel : Selection) (rule : PriceRule) (action : Action)
    (r : Row) :
  In r (getSelectedVariantsData sel rule action) ->
  exists p v,
    In p (selectedProducts sel) /\ In v (p_variants p)
    /\ includes (selectedVariants sel) (v_id v) = true
    /\ r = rowOf rule action p v.
Proof.
  intros Hr. unfold getSelectedVariantsData in Hr.
  apply in_flat_map in Hr as (p & Hp & Hr).
  apply in_flat_map in Hr as (v & Hv & Hr).
  destruct (includes (selectedVariants sel) (v_id v)) eqn:Hinc; [| destruct Hr].
  destruct Hr as [<- | []]. now exists p, v.
Qed.

(** X19: every row of [getSelectedVariantsData] belongs to a selected
    variant of a selected product.  Its new price is computed from the
    current price when the rule applies to the price and is the current
    price otherwise; its new compare-at price is computed, independently,
    from the current compare-at price when the rule applies to it and the
    variant has one, and is left as it is otherwise - a variant without a
    compare-at price never gets one. *)
Theorem selected_rows (sel : Selection) (rule : PriceRule) (action : Action) :
  Forall
    (fun r : Row =>
       In (variantId r) (selectedVariants sel)
       /\ (exists p v, In p (selectedProducts sel) /\ In v (p_variants p)
                       /\ productId r = p_id p /\ variantId r = v_id v
                       /\ currentPrice r = v_price v
                       /\ currentCompareAtPrice r = v_compareAtPrice v)
       /\ newPrice r
          = (if appliesToPrice rule
             then calculateNewPrice (currentPrice r) rule action
             else currentPrice r)
       /\ (appliesToCompareAtPrice rule = false ->
           newCompareAtPrice r = currentCompareAtPrice r)
       /\ (present (currentCompareAtPrice r) = false ->
           newCompareAtPrice r = currentCompareAtPrice r)
       /\ (appliesToCompareAtPrice rule = true ->
           forall c, currentCompareAtPrice r = Some c -> c <> ""%string ->
                     newCompareAtPrice r = Some (calculateNewPrice c rule action)))
    (getSelectedVariantsData sel rule action).
Proof.
  apply Forall_forall. intros r Hr.
  apply row_origin in Hr as (p & v & Hp & Hv & Hinc & ->).
  cbn [rowOf variantId productId currentPrice
    currentCompareAtPrice newPrice newCompareAtPrice].
  split; [now apply includes_In |].
  split; [exists p, v; repeat split; assumption |].
  split; [reflexivity |].
  split; [intros ->; reflexivity |].
  split.
  - intros ->. now rewrite andb_false_r.
  - intros -> c -> Hc. cbn [andb present].
    destruct (String.eqb_spec c ""); [congruence | reflexivity].
Qed.

(** X20: deselecting a product removes it and every one of its variant
    ids, so no row is left for it; and selecting a product that was not
    selected, none of whose variants was selected, and then deselecting it
    gives back the selection as it was. *)
Theorem product_deselect (product : Product) (sel : Selection)
    (rule : PriceRule) (action : Action) :
  Forall (fun r : Row => productId r <> p_id product)
         (getSelectedVariantsData (handleProductSelect product false sel)
                                  rule action)
  /\ Forall (fun i => ~ In i (map v_id (p_variants product)))
            (selectedVariants (handleProductSelect product false sel))
  /\ ((forall p, In p (selectedProducts sel) -> p_id p <> p_id product) ->
      (forall i, In i (selectedVariants sel) ->
                 ~ In i (map v_id (p_variants product))) ->
      handleProductSelect product false (handleProductSelect product true sel)
      = sel).
Proof.
  split; [| split].
  - apply Forall_forall. intros r Hr.
    apply row_origin in Hr as (p & v & Hp & _ & _ & ->).
    cbn [handleProductSelect selectedProducts] in Hp.
    apply filter_In in Hp as [_ Hne]. cbn [rowOf productId].
    destruct (String.eqb_spec (p_id p) (p_id product)); [discriminate | assumption].
  - apply Forall_forall. intros i Hi.
    cbn [handleProductSelect selectedVariants] in Hi.
    apply filter_In in Hi as [_ Hne]. intros Hin.
    apply includes_In in Hin. now rewrite Hin in Hne.
  - intros Hprod Hvar. destruct sel as [ps vs].
    cbn [handleProductSelect selectedProducts selectedVariants] in *.
    f_equal.
    + rewrite filter_app. cbn [filter]. rewrite String.eqb_refl. cbn [negb].
      rewrite app_nil_r. apply HistoryFacts.filter_all_true, Forall_forall.
      intros p Hp. specialize (Hprod p Hp).
      destruct (String.eqb_spec (p_id p) (p_id product)); [congruence | reflexivity].
    + rewrite filter_app.
      rewrite (HistoryFacts.filter_all_false _ (map v_id (p_variants product))).
      * rewrite app_nil_r. apply HistoryFacts.filter_all_true, Forall_forall.
        intros i Hi. specialize (Hvar i Hi).
        destruct (includes (map v_id (p_variants product)) i) eqn:E;
          [| reflexivity].
        apply includes_In in E. contradiction.
      * apply Forall_forall. intros i Hi. apply includes_In in Hi.
        now rewrite Hi.
Qed.

(** X21: after "select all", [getSelectedVariantsData] has exactly one
    row for every variant of every filtered product, in order; after
    "clear all" it has none. *)
Theorem select_all_rows (products : list Product) (rule : PriceRule)
    (action : Action) :
  getSelectedVariantsData (handleSelectAll products) rule action
  = flat_map (fun p => map (rowOf rule action p) (p_variants p)) products
  /\ List.length (getSelectedVariantsData (handleSelectAll products) rule action)
     = List.length (flat_map p_variants products)
  /\ getSelectedVariantsData handleClearAll rule action = [].
Proof.
  assert (Hrows :
            forall ids ps,
              (forall p v, In p ps -> In v (p_variants p) -> In (v_id v) ids) ->
              flat_map
                (fun product =>
                   flat_map
                     (fun variant =>
                        if includes ids (v_id variant)
                        then [rowOf rule action product variant]
                        else [])
                     (p_variants product)) ps
              = flat_map (fun p => map (rowOf rule action p) (p_variants p)) ps).
  { intros ids ps. induction ps as [| p ps IH]; intros Hall; [reflexivity |].
    cbn [flat_map]. rewrite IH by (intros q v Hq; apply Hall; now right).
    f_equal.
    assert (Hp : forall v, In v (p_variants p) -> In (v_id v) ids)
      by (intros v; apply Hall; now left).
    induction (p_variants p) as [| v vs IHv]; [reflexivity |].
    cbn [flat_map map].
    assert (Hv : includes ids (v_id v) = true)
      by (apply includes_In, Hp; now left).
    rewrite Hv. cbn [app]. f_equal. apply IHv. intros u Hu. apply Hp. now right. }
  assert (E : getSelectedVariantsData (handleSelectAll products) rule action
              = flat_map (fun p => map (rowOf rule action p) (p_variants p))
                         products).
  { unfold getSelectedVariantsData, handleSelectAll.
    cbn [selectedProducts selectedVariants]. apply Hrows.
    intros p v Hp Hv. apply in_flat_map. exists p. split; [exact Hp |].
    now apply in_map. }
  split; [exact E |]. split; [| reflexivity].
  rewrite E. clear. induction products as [| p ps IH]; [reflexivity |].
  cbn [flat_map]. now rewrite !length_app, length_map, IH.
Qed.

End PriceMoreFacts.

(** ** More properties of the discount screen *)

Module DiscountMoreFacts.
Import Json History Discount DiscountMore DiscountFacts.
Local Open Scope list_scope.

(** *** Prices *)

Section Prices.
Import JS JSFacts.
Local Open Scope Q_scope.

Lemma Qfloor_between (x : Q) (a b : Z) :
  inject_Z a <= x -> x < inject_Z b + 1 -> (a <= Qfloor x <= b)%Z.
Proof.
  intros Ha Hb. split.
  - rewrite <- (Qfloor_Z a). now apply Qfloor_resp_le.
  - pose proof (Qfloor_le x) as Hf.
    apply Z.lt_succ_r. unfold Z.succ. rewrite Zlt_Qlt, inject_Z_plus.
    change (inject_Z 1) with 1. lra.
Qed.

(** [q - p] for [0 <= p <= q]. *)
Lemma sub_range (q p : Q) :
  binary64 q -> 0 <= p -> p <= q ->
  exists v, sub (Fin q) (Fin p) = Fin v /\ 0 <= v /\ v <= q.
Proof.
  intros Hq H0 Hle. unfold sub. cbn [neg].
  destruct (Qeq_bool p 0); cbn [add].
  - exists q. split; [reflexivity | lra].
  - destruct (round64_between 0 q (q + - p)) as (v & Hv & Hv0 & Hv1 & _);
      try lra; [apply binary64_0 | exact Hq |].
    exists v. now split.
Qed.

(** [v / q] for [0 <= v <= q] and [0 < q]. *)
Lemma div_range (v q : Q) :
  0 <= v -> v <= q -> 0 < q ->
  exists w, div (Fin v) (Fin q) = Fin w /\ 0 <= w /\ w <= 1.
Proof.
  intros H0 Hle Hq. unfold div. cbn [is_zero to_Q].
  rewrite (Qeq_bool_false q) by lra.
  destruct (Qeq_bool v 0).
  - rewrite !is_neg_nonneg by lra. exists 0. split; [reflexivity | lra].
  - assert (0 <= v / q) by (apply Qle_shift_div_l; lra).
    assert (v / q <= 1) by (apply Qle_shift_div_r; lra).
    destruct (round64_between 0 1 (v / q)) as (w & Hw & Hw0 & Hw1 & _);
      try lra; [apply binary64_0 | apply binary64_1 |].
    exists w. now split.
Qed.

(** [b * k] for [0 <= b] and [0 <= k <= 1]. *)
Lemma mul_range (b k : Q) :
  binary64 b -> 0 <= b -> 0 <= k -> k <= 1 ->
  exists x, mul (Fin b) (Fin k) = Fin x /\ 0 <= x /\ x <= b.
Proof.
  intros Hb H0 Hk0 Hk1. unfold mul. cbn [is_zero to_Q].
  destruct (Qeq_bool b 0 || Qeq_bool k 0)%bool.
  - rewrite !is_neg_nonneg by lra. exists 0. split; [reflexivity | lra].
  - assert (0 <= b * k <= b) by nra.
    destruct (round64_between 0 b (b * k)) as (x & Hx & Hx0 & Hx1 & _);
      try lra; [apply binary64_0 | exact Hb |].
    exists x. now split.
Qed.

(** [w * 100] for [0 <= w <= 1]. *)
Lemma mul_100_range (w : Q) :
  0 <= w -> w <= 1 ->
  exists u, mul (Fin w) (Fin 100) = Fin u /\ 0 <= u /\ u <= 100.
Proof.
  intros H0 H1. unfold mul. cbn [is_zero to_Q].
  destruct (Qeq_bool w 0 || Qeq_bool 100 0)%bool.
  - rewrite !is_neg_nonneg by lra. exists 0. split; [reflexivity | lra].
  - destruct (round64_between 0 100 (w * 100)) as (u & Hu & Hu0 & Hu1 & _);
      try lra; [apply binary64_0 | apply binary64_100 |].
    exists u. now split.
Qed.

(** X22: for a price that reads as a finite number that is not negative
    and a compare-at price that does not read as Infinity,
    [calculateCurrentDiscount] is a whole number between 0 and 100; it is
    0 when there is no compare-at price, when one of the two does not
    read as a number, and when the compare-at price is not above the
    price. *)
Theorem current_discount_range (price : string) (compareAtPrice : option string) :
  (forall p, parseFloat price = Fin p -> 0 <= p ->
             (forall c, compareAtPrice = Some c -> parseFloat c <> Inf false) ->
             exists z, calculateCurrentDiscount price compareAtPrice
                       = Fin (inject_Z z)
                       /\ (0 <= z <= 100)%Z)
  /\ (compareAtPrice = None \/ parseFloat price = NaN
      \/ (exists c, compareAtPrice = Some c
                    /\ (parseFloat c = NaN
                        \/ exists p q, parseFloat price = Fin p
                                       /\ parseFloat c = Fin q /\ q <= p)) ->
      calculateCurrentDiscount price compareAtPrice = Fin 0).
Proof.
  split.
  - intros p Hp Hpos Hinf. unfold calculateCurrentDiscount.
    destruct compareAtPrice as [c |]; [| exists 0%Z; split; [reflexivity | lia]].
    destruct (String.eqb c "" || String.eqb price "")%bool;
      [exists 0%Z; split; [reflexivity | lia] |].
    specialize (Hinf c eq_refl).
    pose proof (parseFloat_valid c) as Hvalid.
    rewrite Hp. cbn [isNaN orb].
    destruct (parseFloat c) as [| [] | | q]; cbn [isNaN orb le];
      try (exists 0%Z; split; [reflexivity | lia]).
    + congruence.
    + cbn [to_Q]. apply Qle_bool_iff in Hpos. rewrite Hpos.
      exists 0%Z; split; [reflexivity | lia].
    + cbn [to_Q]. destruct (Qle_bool q p) eqn:Hle;
        [exists 0%Z; split; [reflexivity | lia] |].
      assert (Hlt : p < q).
      { destruct (Qlt_le_dec p q) as [H | H]; [exact H |].
        apply Qle_bool_iff in H. congruence. }
      destruct (sub_range q p Hvalid Hpos (Qlt_le_weak _ _ Hlt))
        as (v & -> & Hv0 & Hv1).
      destruct (div_range v q Hv0 Hv1 ltac:(lra)) as (w & -> & Hw0 & Hw1).
      rewrite PriceRuleFacts.literal_100.
      destruct (mul_100_range w Hw0 Hw1) as (u & -> & Hu0 & Hu1).
      unfold Math_round.
      assert (Hu : Qle_bool 0 u = true) by now apply Qle_bool_iff.
      rewrite Hu, andb_false_r.
      eexists. split; [reflexivity |].
      apply Qfloor_between.
      * change (inject_Z 0) with 0. lra.
      * change (inject_Z 100) with 100. lra.
  - intros H. unfold calculateCurrentDiscount.
    destruct H as [-> | [Hn | (c & -> & Hc)]]; [reflexivity | |].
    + destruct compareAtPrice as [c |]; [| reflexivity].
      destruct (String.eqb c "" || String.eqb price "")%bool; [reflexivity |].
      now rewrite Hn.
    + destruct (String.eqb c "" || String.eqb price "")%bool; [reflexivity |].
      destruct Hc as [Hc | (p & q & Hp & Hq & Hle)].
      * rewrite Hc. now destruct (isNaN (parseFloat price)).
      * rewrite Hp, Hq. cbn [isNaN orb le to_Q].
        apply Qle_bool_iff in Hle. now rewrite Hle.
Qed.

Lemma current_discount_range_witness :
  exists z, calculateCurrentDiscount "171" (Some "200"%string)
            = Fin (inject_Z z)
            /\ (0 <= z <= 100)%Z.
Proof.
  apply (proj1 (current_discount_range "171" (Some "200"%string)) 171).
  - vm_compute. reflexivity.
  - vm_compute. discriminate.
  - intros c H. injection H as <-. vm_compute. discriminate.
Defined.

(** The quotient 29 / 200 is the binary64 value 0.145, whose product
    with 100 is below 14.5; a compare-at price that reads as Infinity
    gives NaN. *)
Example discount_of_171_under_200 :
  calculateCurrentDiscount "171" (Some "200"%string) = Fin 14
  /\ calculateCurrentDiscount "80.00" (Some "100.00"%string) = Fin 20
  /\ calculateCurrentDiscount "10" (Some "Infinity"%string) = NaN.
Proof. vm_compute. repeat split; reflexivity. Qed.

(** [1 - discount / 100] for a discount between 0 and 100. *)
Lemma keep_range (discount : number) :
  at_least 0 discount -> at_most 100 discount ->
  exists k, keep discount = Fin k /\ 0 <= k /\ k <= 1.
Proof.
  intros H0 H100. unfold keep.
  rewrite PriceRuleFacts.literal_1, PriceRuleFacts.literal_100.
  assert (Hdiv : div discount (Fin 100) = NegZero
                 \/ exists w, div discount (Fin 100) = Fin w /\ 0 <= w /\ w <= 1).
  { destruct discount as [| s | | d]; cbn in H0, H100; try contradiction.
    - congruence.
    - left. reflexivity.
    - right. unfold div. cbn [is_zero to_Q].
      change (Qeq_bool 100 0) with false. cbv iota.
      destruct (Qeq_bool d 0).
      + rewrite !is_neg_nonneg by lra. exists 0. split; [reflexivity | lra].
      + assert (Hq : d / 100 == d * (1 # 100)) by reflexivity.
        destruct (round64_between 0 1 (d / 100)) as (w & Hw & Hw0 & Hw1 & _);
          try lra; [apply binary64_0 | apply binary64_1 |].
        exists w. now split. }
  destruct Hdiv as [-> | (w & -> & Hw0 & Hw1)].
  - exists (Qred (1 + 0)). split; [apply (round64_fix (1 + 0)) |].
    + apply (binary64_comp 1); [reflexivity | apply binary64_1].
    + split; discriminate.
  - unfold sub. cbn [neg]. destruct (Qeq_bool w 0); cbn [add].
    + exists 1. split; [reflexivity | lra].
    + destruct (round64_between 0 1 (1 + - w)) as (k & Hk & Hk0 & Hk1 & _);
        try lra; [apply binary64_0 | apply binary64_1 |].
      exists k. now split.
Qed.

(** X23: for a price that reads as a finite number that is not negative, a
    compare-at price that does not read as Infinity and a discount between
    0 and 100, the preview's compare-at price is the larger of the price
    and the existing compare-at price (the price when there is none, or
    when it does not read as a number), and the preview's price is the
    binary64 product of that base and [1 - discount / 100]: a finite
    number, never negative and never above the base.  Both are printed by
    [toFixed(2)], and below 10^21 the hundredths printed for the price
    are not above those printed for the compare-at price. *)
Theorem preview_price (currentPrice : string) (compareAtPrice : option string)
    (discount : number) (p : Q) :
  parseFloat currentPrice = Fin p ->
  0 <= p ->
  at_least 0 discount -> at_most 100 discount ->
  (forall c, compareAtPrice = Some c -> parseFloat c <> Inf false) ->
  exists base x,
    pv_newCompareAtPrice (calculatePreviewPrice currentPrice compareAtPrice discount)
    = toFixed2 (Fin base)
    /\ pv_newPrice (calculatePreviewPrice currentPrice compareAtPrice discount)
       = toFixed2 (Fin x)
    /\ mul (Fin base) (sub (of_Z 1) (div discount (of_Z 100))) = Fin x
    /\ p <= base
    /\ (forall c q, compareAtPrice = Some c -> c <> ""%string ->
                    parseFloat c = Fin q -> q <= base /\ (base = p \/ base = q))
    /\ (compareAtPrice = None -> base = p)
    /\ 0 <= x <= base
    /\ (base < 10 ^ 21 ->
        pv_newCompareAtPrice
          (calculatePreviewPrice currentPrice compareAtPrice discount)
        = render_fixed2 (hundredths base)
        /\ pv_newPrice
             (calculatePreviewPrice currentPrice compareAtPrice discount)
           = render_fixed2 (hundredths x)
        /\ (hundredths x <= hundredths base)%Z).
Proof.
  intros Hp Hpos H0 H100 Hinf.
  destruct (keep_range discount H0 H100) as (k & Hk & Hk0 & Hk1).
  fold (keep discount).
  assert (Hpv : binary64 p).
  { pose proof (parseFloat_valid currentPrice) as H. now rewrite Hp in H. }
  assert (Hbase : forall base, binary64 base -> 0 <= base ->
            exists x, mul (Fin base) (keep discount) = Fin x
                      /\ 0 <= x <= base
                      /\ (base < 10 ^ 21 ->
                          toFixed2 (Fin base) = render_fixed2 (hundredths base)
                          /\ toFixed2 (Fin x) = render_fixed2 (hundredths x)
                          /\ (hundredths x <= hundredths base)%Z)).
  { intros base Hbin Hb. rewrite Hk.
    destruct (mul_range base k Hbin Hb Hk0 Hk1) as (x & Hx & Hx0 & Hx1).
    exists x. split; [exact Hx |]. split; [now split |].
    intros Hbig. rewrite !PriceRuleFacts.toFixed2_nonneg by lra.
    repeat split. apply PriceMoreFacts.hundredths_mono. exact Hx1. }
  unfold calculatePreviewPrice. rewrite Hp.
  destruct compareAtPrice as [c |].
  2: { destruct (Hbase p Hpv Hpos) as (x & Hx & E5 & E6).
    exists p, x. cbn [pv_newPrice pv_newCompareAtPrice]. rewrite Hx.
    split; [reflexivity |]. split; [reflexivity |]. split; [reflexivity |].
    split; [lra |]. split; [discriminate |].
       split; [reflexivity |]. split; [exact E5 | exact E6]. }
  specialize (Hinf c eq_refl).
  pose proof (parseFloat_valid c) as Hvalid.
  destruct (String.eqb_spec c "") as [Hempty | Hne].
  { destruct (Hbase p Hpv Hpos) as (x & Hx & E5 & E6).
    exists p, x. cbn [pv_newPrice pv_newCompareAtPrice]. rewrite Hx.
    split; [reflexivity |]. split; [reflexivity |]. split; [reflexivity |].
    split; [lra |].
    split; [intros c' q' Hc'; injection Hc' as <-; congruence |].
    split; [reflexivity |]. split; [exact E5 | exact E6]. }
  destruct (truthy (parseFloat c) && lt (Fin p) (parseFloat c))%bool
    eqn:Hbranch.
  - apply andb_prop in Hbranch as [_ Hlt].
    destruct (parseFloat c) as [| [] | | q] eqn:Hc;
      try discriminate Hlt; [congruence | |].
    { cbn in Hlt. apply negb_true_iff in Hlt.
      apply Qle_bool_iff in Hpos. cbn in Hpos. congruence. }
    apply PriceRuleFacts.lt_Fin_true in Hlt.
    destruct (Hbase q Hvalid ltac:(lra)) as (x & Hx & Hr & Hs).
    exists q, x. cbn [pv_newPrice pv_newCompareAtPrice]. rewrite Hx.
    split; [reflexivity |]. split; [reflexivity |]. split; [reflexivity |].
    split; [lra |].
    split.
    { intros c' q' Hc' _ Hq'. injection Hc' as <-.
      rewrite Hc in Hq'. injection Hq' as <-. split; [lra | now right]. }
    split; [discriminate |]. split; [exact Hr | exact Hs].
  - destruct (Hbase p Hpv Hpos) as (x & Hx & E5 & E6).
    exists p, x. cbn [pv_newPrice pv_newCompareAtPrice]. rewrite Hx.
    split; [reflexivity |]. split; [reflexivity |]. split; [reflexivity |].
    split; [lra |].
    split.
    { intros c' q' Hc' _ Hq'. injection Hc' as <-.
      rewrite Hq' in Hbranch. split; [| left; reflexivity].
      apply andb_false_elim in Hbranch as [Hz | Hlt].
      - cbn [truthy] in Hz. apply negb_false_iff, Qeq_bool_iff in Hz. lra.
      - apply PriceRuleFacts.lt_Fin_false in Hlt. exact Hlt. }
    split; [reflexivity |]. split; [exact E5 | exact E6].
Qed.

Lemma preview_price_witness :
  exists base x,
    pv_newCompareAtPrice
      (calculatePreviewPrice "80.00" (Some "100.00"%string) (of_Z 20))
    = toFixed2 (Fin base)
    /\ pv_newPrice
         (calculatePreviewPrice "80.00" (Some "100.00"%string) (of_Z 20))
       = toFixed2 (Fin x)
    /\ mul (Fin base) (sub (of_Z 1) (div (of_Z 20) (of_Z 100))) = Fin x
    /\ 80 <= base
    /\ (forall c q, Some "100.00"%string = Some c -> c <> ""%string ->
                    parseFloat c = Fin q -> q <= base /\ (base = 80 \/ base = q))
    /\ (Some "100.00"%string = None -> base = 80)
    /\ 0 <= x <= base
    /\ (base < 10 ^ 21 ->
        pv_newCompareAtPrice
          (calculatePreviewPrice "80.00" (Some "100.00"%string) (of_Z 20))
        = render_fixed2 (hundredths base)
        /\ pv_newPrice
             (calculatePreviewPrice "80.00" (Some "100.00"%string) (of_Z 20))
           = render_fixed2 (hundredths x)
        /\ (hundredths x <= hundredths base)%Z).
Proof.
  apply (preview_price "80.00" (Some "100.00"%string) (of_Z 20) 80).
  - vm_compute. reflexivity.
  - vm_compute. discriminate.
  - vm_compute. discriminate.
  - vm_compute. discriminate.
  - intros c H. injection H as <-. vm_compute. discriminate.
Defined.

Example preview_of_discounted :
  calculatePreviewPrice "80.00" (Some "100.00"%string) (of_Z 20)
  = {| pv_newPrice := "80.00"; pv_newCompareAtPrice := "100.00";
       pv_type := "Type 2: Already has discount" |}.
Proof. vm_compute. reflexivity. Qed.

End Prices.

(** *** Selections *)

Section Tags.

Context (lower : string -> string).

Lemma sameTag_sym (a b : string) : sameTag lower a b = sameTag lower b a.
Proof. unfold sameTag. apply String.eqb_sym. Qed.

Lemma sameTag_trans (a b c : string) :
  sameTag lower a b = true -> sameTag lower b c = sameTag lower a c.
Proof.
  unfold sameTag. intros H. apply String.eqb_eq in H. now rewrite H.
Qed.

Lemma distinctTags_filter (p : string -> bool) (l : list string) :
  distinctTags lower l -> distinctTags lower (filter p l).
Proof.
  unfold distinctTags. induction l as [| a l IH]; intros H; [exact H |].
  cbn [map] in H. inversion H as [| x xs Hnin Hnd]; subst.
  cbn [filter]. destruct (p a); [| now apply IH].
  cbn [map]. constructor; [| now apply IH].
  intros Hin. apply Hnin. apply in_map_iff in Hin as (t & Ht & Hin).
  apply filter_In in Hin as [Hin _]. apply in_map_iff. now exists t.
Qed.

(** X25: whatever [toLowerCase] folds, [handleTagSelect] keeps a tag
    selection free of two tags that it makes equal; after checking a tag
    some tag equal to it up to [toLowerCase] is selected, after unchecking
    none is, and unchecking undoes the checking of any tag equal to it up
    to [toLowerCase]. *)
Theorem tag_selection_distinct (tag : string) (checked : bool)
    (prev : list string) :
  distinctTags lower prev ->
  distinctTags lower (handleTagSelect lower tag checked prev)
  /\ existsb (fun t => sameTag lower t tag)
             (handleTagSelect lower tag checked prev) = checked
  /\ (forall other, sameTag lower other tag = true ->
        handleTagSelect lower tag false (handleTagSelect lower other true prev)
        = handleTagSelect lower tag false prev).
Proof.
  intros Hd. split; [| split].
  - unfold handleTagSelect. destruct checked.
    + destruct (existsb (fun t => sameTag lower t tag) prev) eqn:He; [exact Hd |].
      cbn [negb]. unfold distinctTags in *. rewrite map_app. cbn [map].
      apply NoDup_app; [exact Hd | repeat constructor; intros [] |].
      intros x Hin [<- | []].
      apply in_map_iff in Hin as (t & Ht & Hin).
      assert (Hex : existsb (fun t => sameTag lower t tag) prev = true).
      { apply existsb_exists. exists t. split; [exact Hin |].
        unfold sameTag. rewrite Ht. apply String.eqb_refl. }
      congruence.
    + now apply distinctTags_filter.
  - unfold handleTagSelect. destruct checked.
    + destruct (existsb (fun t => sameTag lower t tag) prev) eqn:He; [exact He |].
      cbn [negb]. rewrite existsb_app. cbn [existsb].
      unfold sameTag at 2. rewrite String.eqb_refl. now rewrite orb_true_r.
    + induction prev as [| a l IH]; [reflexivity |].
      cbn [filter]. destruct (sameTag lower a tag) eqn:Ha; cbn [negb].
      * apply IH. unfold distinctTags in *. cbn [map] in Hd.
        now inversion Hd.
      * cbn [existsb]. rewrite Ha. apply IH. unfold distinctTags in *.
        cbn [map] in Hd. now inversion Hd.
  - intros other Hsame. unfold handleTagSelect.
    destruct (existsb (fun t => sameTag lower t other) prev); [reflexivity |].
    cbn [negb]. rewrite filter_app. cbn [filter]. rewrite Hsame. cbn [negb].
    apply app_nil_r.
Qed.

End Tags.

(** At the fold of the letters A to Z. *)
Lemma tag_selection_distinct_witness :
  distinctTags toLowerCase (handleTagSelect toLowerCase "SALE" true ["Sale"; "new"])
  /\ existsb (fun t => sameTag toLowerCase t "SALE")
             (handleTagSelect toLowerCase "SALE" true ["Sale"; "new"])
     = true
  /\ (forall other, sameTag toLowerCase other "SALE" = true ->
        handleTagSelect toLowerCase "SALE" false
          (handleTagSelect toLowerCase other true ["Sale"; "new"])
        = handleTagSelect toLowerCase "SALE" false ["Sale"; "new"]).
Proof.
  apply (tag_selection_distinct toLowerCase "SALE" true ["Sale"; "new"]).
  unfold distinctTags. simpl. repeat constructor; simpl; intuition discriminate.
Defined.

(** X26: [handleVariantSelect] does not look for the variant before it adds
    it: checking adds one more occurrence, unchecking removes every
    occurrence, and the other variants keep their occurrences and their
    order. *)
Theorem variant_selection_occurrences (variant : string) (checked : bool)
    (prev : list string) :
  count_occ string_dec (handleVariantSelect variant checked prev) variant
  = (if checked then S (count_occ string_dec prev variant) else 0)
  /\ filter (fun i => negb (String.eqb i variant))
            (handleVariantSelect variant checked prev)
     = filter (fun i => negb (String.eqb i variant)) prev.
Proof.
  unfold handleVariantSelect. destruct checked.
  - split.
    + rewrite count_occ_app. cbn [count_occ].
      destruct (string_dec variant variant); [lia | congruence].
    + rewrite filter_app. cbn [filter]. rewrite String.eqb_refl. cbn [negb].
      apply app_nil_r.
  - split.
    + apply count_occ_not_In. intros Hin. apply filter_In in Hin as [_ H].
      now rewrite String.eqb_refl in H.
    + induction prev as [| a l IH]; [reflexivity |].
      cbn [filter]. destruct (String.eqb a variant) eqn:Ha; cbn [negb filter].
      * exact IH.
      * rewrite Ha. cbn [negb]. now rewrite IH.
Qed.

(** *** Runs of [applyDiscount] *)

Section Runs.

Context (env : Env) (sel : list string) (pct : Z) (exp : string).
Context (vars : list Variant).

(** X27: [applyDiscount] refuses an empty selection, a whole-number
    percentage that is at most 0 or at least 100, and an expiry date that
    is not in the future: it shows one error message, dispatches no
    request and leaves the history as it was. *)
Theorem applyDiscount_refuses (s : State) :
  sel = [] \/ (pct <= 0)%Z \/ (100 <= pct)%Z \/ fst (expired env exp s) = true ->
  exists msg,
    fst (applyDiscount env sel pct exp vars s) = Refused
    /\ storage (world (snd (applyDiscount env sel pct exp vars s)))
       = storage (world s)
    /\ trace (snd (applyDiscount env sel pct exp vars s))
       = trace s ++ [SetMessage (Some (msg_error, msg))].
Proof.
  intros H. unfold applyDiscount, applyDiscountWith.
  destruct (List.length sel =? 0)%nat eqn:Hn.
  { eexists. unfold dbind, emit, dret. cbn [fst snd world trace].
    split; [reflexivity |]. split; reflexivity. }
  destruct ((pct <=? 0) || (100 <=? pct))%Z eqn:Hp.
  { eexists. unfold dbind, emit, dret. cbn [fst snd world trace].
    split; [reflexivity |]. split; reflexivity. }
  apply orb_false_elim in Hp as [Hp1 Hp2].
  apply Z.leb_gt in Hp1, Hp2.
  destruct H as [-> | [H | [H | H]]]; [discriminate | lia | lia |].
  pose proof (expired_frame env exp s) as [Htr Hst].
  destruct (expired env exp s) as [late s1] eqn:He.
  cbn [fst snd] in H, Htr, Hst. subst late.
  eexists. unfold dbind. rewrite He. unfold emit, dret. cbn [fst snd world trace].
  rewrite Htr, Hst. split; [reflexivity |]. split; reflexivity.
Qed.

Lemma completedCounts_app (a b : list Event) :
  completedCounts (a ++ b) = completedCounts a ++ completedCounts b.
Proof. apply flat_map_app. Qed.

Lemma completedCounts_dispatch bi (batch : list string) :
  completedCounts (map (Dispatch bi) batch) = [].
Proof. induction batch as [| v l IH]; [reflexivity | exact IH]. Qed.

Lemma progressEvents_counts outcomes :
  forall t : Tally,
    completedCounts (progressEvents sel t outcomes)
    = seq (S (completed t)) (List.length outcomes).
Proof.
  induction outcomes as [| o rest IH]; intros t; [reflexivity |].
  cbn [progressEvents completedCounts flat_map app List.length seq].
  f_equal. exact (IH (count t o)).
Qed.

Lemma progressEvents_ok outcomes :
  forall t : Tally,
    completed t = successful t + failed t ->
    completed t + List.length outcomes <= List.length sel ->
    Forall (progressOk (List.length sel)) (progressEvents sel t outcomes).
Proof.
  induction outcomes as [| o rest IH]; intros t Hinv Hle; [constructor |].
  cbn [progressEvents List.length] in *.
  constructor.
  { cbn [progressOk count completed successful failed].
    destruct (o_success o); repeat split; lia. }
  constructor; [exact I |].
  apply IH.
  - cbn [count completed successful failed]. destruct (o_success o); lia.
  - cbn [count completed]. lia.
Qed.

Lemma count_invariant outcomes :
  forall t : Tally,
    completed t = successful t + failed t ->
    completed (fold_left count outcomes t)
    = successful (fold_left count outcomes t) + failed (fold_left count outcomes t).
Proof.
  induction outcomes as [| o rest IH]; intros t Hinv; [exact Hinv |].
  cbn [fold_left]. apply IH. cbn [count completed successful failed].
  destruct (o_success o); lia.
Qed.

Lemma batchesEvents_counts pause total rest :
  forall bi tk (t : Tally),
    completedCounts (batchesEvents env sel pct exp vars pause total bi rest tk t)
    = seq (S (completed t)) (List.length (List.concat rest)).
Proof.
  induction rest as [| batch rest IH]; intros bi tk t; [reflexivity |].
  cbn [batchesEvents List.concat]. rewrite completedCounts_app, IH.
  unfold batchEvents. cbn [completedCounts flat_map app].
  fold (completedCounts
          (map (Dispatch bi) batch ++
           Joined bi :: progressEvents sel t (outcomesFrom env pct exp vars tk batch) ++
           (if (bi <? total - 1)%nat then [Sleep pause] else []))).
  rewrite completedCounts_app, completedCounts_dispatch. cbn [app].
  cbn [completedCounts flat_map app].
  fold (completedCounts
          (progressEvents sel t (outcomesFrom env pct exp vars tk batch) ++
           (if (bi <? total - 1)%nat then [Sleep pause] else []))).
  rewrite completedCounts_app, progressEvents_counts.
  replace (completedCounts (if (bi <? total - 1)%nat then [Sleep pause] else []))
    with (@nil nat) by (now destruct (bi <? total - 1)%nat).
  rewrite app_nil_r, length_outcomesFrom.
  destruct (fold_count (outcomesFrom env pct exp vars tk batch) t) as (_ & Hc & _).
  rewrite Hc, length_outcomesFrom, length_app, seq_app.
  reflexivity.
Qed.

Lemma batchesEvents_ok pause total rest :
  forall bi tk (t : Tally),
    completed t = successful t + failed t ->
    completed t + List.length (List.concat rest) <= List.length sel ->
    Forall (progressOk (List.length sel))
           (batchesEvents env sel pct exp vars pause total bi rest tk t).
Proof.
  induction rest as [| batch rest IH]; intros bi tk t Hinv Hle; [constructor |].
  cbn [batchesEvents List.concat] in *. rewrite length_app in Hle.
  apply Forall_app. split.
  - unfold batchEvents. constructor; [exact I |].
    apply Forall_app. split.
    { apply Forall_forall. intros e He. apply in_map_iff in He as (v & <- & _).
      exact I. }
    constructor; [exact I |].
    apply Forall_app. split.
    + apply progressEvents_ok; [exact Hinv |].
      rewrite length_outcomesFrom. lia.
    + destruct (bi <? total - 1)%nat; repeat constructor.
  - apply IH.
    + now apply count_invariant.
    + destruct (fold_count (outcomesFrom env pct exp vars tk batch) t)
        as (_ & Hc & _).
      rewrite Hc, length_outcomesFrom. lia.
Qed.

Lemma applyDiscountWith_trace G pause (s s1 : State) batches :
  sel <> [] ->
  (0 < pct < 100)%Z ->
  expired env exp s = (false, s1) ->
  makeBatches (List.length sel) G sel 0 [] = Some batches ->
  List.concat batches = sel ->
  let t := fold_left count
             (outcomesFrom env pct exp vars (tick (world s1)) sel) startTally in
  trace (snd (applyDiscountWith env sel pct exp vars G pause s))
  = trace s
    ++ [SetIsApplying true; SetIsProcessing true; SetMessage None; SetResults [];
        SetProgress (List.length sel) 0 0 0 "Starting parallel processing..."]
    ++ batchesEvents env sel pct exp vars pause (List.length batches) 0 batches
         (tick (world s1)) startTally
    ++ [SetProgress (List.length sel) (List.length sel) (successful t) (failed t)
          ("All " ++ JS.string_of_nat (List.length sel)
           ++ " items processed! " ++ JS.string_of_nat (successful t)
           ++ " successful, " ++ JS.string_of_nat (failed t) ++ " failed")%string;
        SetMessage (Some (finalMessage pct t)); FetchUpdatedProducts;
        SetSelectedVariants []; SetIsApplying false].
Proof.
  intros Hsel Hpct Hexp Hbatches Hcat t.
  pose proof (expired_frame env exp s) as [Htr Hst].
  rewrite Hexp in Htr, Hst. cbn [snd] in Htr, Hst.
  unfold applyDiscountWith.
  assert (Hn : (List.length sel =? 0)%nat = false)
    by (destruct sel; [congruence | reflexivity]).
  rewrite Hn.
  assert (Hp : ((pct <=? 0) || (100 <=? pct))%Z = false).
  { apply orb_false_intro; apply Z.leb_gt; lia. }
  rewrite Hp. unfold dbind at 1. rewrite Hexp.
  rewrite Hbatches.
  do 5 (unfold dbind at 1; unfold emit at 1).
  cbn [world trace].
  unfold dbind at 1. rewrite processBatches_eq. cbn [world storage tick trace].
  rewrite Hcat. fold startTally. fold t.
  unfold dbind at 1. unfold emit at 1. cbn [world trace].
  unfold dbind at 1. rewrite Htr.
  destruct (0 <? List.length _)%nat.
  - unfold dbind at 1. unfold lift at 1. cbn [world trace].
    destruct (createBulkOperation _ _ _ _ _ _ _) as [r w2].
    unfold dbind, emit, dret. cbn [snd world trace].
    rewrite <- !app_assoc. reflexivity.
  - unfold dbind, emit, dret. cbn [snd world trace].
    rewrite <- !app_assoc. reflexivity.
Qed.

(** X28: in a run of [applyDiscount] over [N] selected variants the
    progress that the screen shows starts at 0 completed, then counts
    1, 2, ..., N, one step for each settled item, and is set to N once more
    at the end; every progress shown has total N and a completed count that
    is the sum of its successful and failed counts. *)
Theorem applyDiscount_progress (s : State) :
  sel <> [] ->
  (0 < pct < 100)%Z ->
  fst (expired env exp s) = false ->
  exists evs,
    trace (snd (applyDiscount env sel pct exp vars s)) = trace s ++ evs
    /\ completedCounts evs
       = 0 :: seq 1 (List.length sel) ++ [List.length sel]
    /\ Forall (progressOk (List.length sel)) evs.
Proof.
  intros Hsel Hpct Hexp.
  destruct (expired env exp s) as [late s1] eqn:He. cbn [fst] in Hexp. subst late.
  destruct (makeBatches_spec 2 sel ltac:(lia) (List.length sel) 0 [])
    as (batches & Hrun & Hcat & _); [lia |].
  cbn [app skipn] in Hrun, Hcat.
  unfold applyDiscount.
  rewrite (applyDiscountWith_trace 2 1100 s s1 batches Hsel Hpct He Hrun Hcat).
  eexists. split; [reflexivity |].
  destruct (fold_count (outcomesFrom env pct exp vars (tick (world s1)) sel)
                       startTally) as (_ & Hc & Hs & Hf).
  pose proof (count_invariant
                (outcomesFrom env pct exp vars (tick (world s1)) sel)
                startTally eq_refl) as Hinv.
  rewrite length_outcomesFrom in Hc. cbn [startTally completed Nat.add] in Hc.
  split.
  - rewrite completedCounts_app. cbn [completedCounts flat_map app].
    fold (completedCounts
            (batchesEvents env sel pct exp vars 1100 (List.length batches) 0
               batches (tick (world s1)) startTally)).
    rewrite completedCounts_app, batchesEvents_counts, Hcat.
    reflexivity.
  - apply Forall_app. split.
    { repeat constructor. lia. }
    apply Forall_app. split.
    + apply batchesEvents_ok; [reflexivity |]. rewrite Hcat. cbn. lia.
    + repeat constructor. lia.
Qed.

End Runs.

Section RunSamples.
Import Samples DiscountSamples.

Lemma applyDiscount_refuses_witness :
  exists msg,
    fst (applyDiscount thirdFails fiveVariants 100 "" [] startState) = Refused
    /\ storage (world (snd (applyDiscount thirdFails fiveVariants 100 "" []
                              startState)))
       = storage (world startState)
    /\ trace (snd (applyDiscount thirdFails fiveVariants 100 "" [] startState))
       = trace startState ++ [SetMessage (Some (msg_error, msg))].
Proof.
  apply (applyDiscount_refuses thirdFails fiveVariants 100 "" [] startState).
  right. right. left. lia.
Defined.

Lemma applyDiscount_progress_witness :
  exists evs,
    trace (snd (applyDiscount thirdFails fiveVariants 20 "" [] startState))
    = trace startState ++ evs
    /\ completedCounts evs = 0 :: seq 1 5 ++ [5]
    /\ Forall (progressOk 5) evs.
Proof.
  apply (applyDiscount_progress thirdFails fiveVariants 20 "" [] startState).
  - discriminate.
  - lia.
  - reflexivity.
Defined.

End RunSamples.

(** *** Runs of [rollbackDiscounts] *)

Section RollbackRuns.

Context (env : Env) (api : nat -> list string -> RollbackReply).
Context (sel : list string) (vars : list Variant).

Lemma length_rollbackOutcomesFrom t l :
  List.length (rollbackOutcomesFrom api vars t l) = List.length l.
Proof.
  revert t. induction l as [| v l IH]; intros t; [reflexivity |].
  cbn [rollbackOutcomesFrom List.length]. now rewrite IH.
Qed.

Lemma rollbackOutcomesFrom_app t a b :
  rollbackOutcomesFrom api vars t (a ++ b)
  = rollbackOutcomesFrom api vars t a
    ++ rollbackOutcomesFrom api vars (List.length a + t) b.
Proof.
  revert t. induction a as [| v a IH]; intros t; [reflexivity |].
  cbn [app rollbackOutcomesFrom List.length]. rewrite IH. do 3 f_equal. lia.
Qed.

Lemma fold_tallyOutcome (outcomes : list RollbackOutcome) :
  forall c : Counters,
    n_completed (fold_left tallyOutcome outcomes c)
    = n_completed c + List.length outcomes
    /\ n_successful (fold_left tallyOutcome outcomes c)
       = n_successful c + List.length (filter rb_success outcomes)
    /\ n_failed (fold_left tallyOutcome outcomes c)
       = n_failed c
         + List.length (filter (fun o => negb (rb_success o)) outcomes).
Proof.
  induction outcomes as [| o rest IH]; intros c.
  - cbn. repeat split; lia.
  - cbn [fold_left]. destruct (IH (tallyOutcome c o)) as (Hc & Hs & Hf).
    rewrite Hc, Hs, Hf. cbn [tallyOutcome n_completed n_successful n_failed].
    cbn [filter List.length].
    destruct (rb_success o); cbn [negb List.length]; repeat split; lia.
Qed.

Lemma dmap_rollbackVariant bi batch :
  forall s : State,
    dmap (rollbackVariant api vars bi) batch s =
    (rollbackOutcomesFrom api vars (tick (world s)) batch,
     {| world := {| storage := storage (world s);
                    tick := List.length batch + tick (world s) |};
        trace := trace s ++ map (Dispatch bi) batch |}).
Proof.
  induction batch as [| v batch IH]; intros s.
  - cbn [dmap rollbackOutcomesFrom map List.length Nat.add]. unfold dret.
    rewrite app_nil_r.
    destruct s as [[st tk] tr]; reflexivity.
  - cbn [dmap]. unfold dbind at 1.
    change (rollbackVariant api vars bi v s)
      with (rollbackOutcomeAt api vars (tick (world s)) v,
            {| world := {| storage := storage (world s);
                           tick := S (tick (world s)) |};
               trace := trace s ++ [Dispatch bi v] |}).
    unfold dbind at 1. rewrite IH.
    cbn [dret world storage tick trace map rollbackOutcomesFrom List.length].
    rewrite <- app_assoc. cbn [app]. unfold dret.
    rewrite Nat.add_succ_r. reflexivity.
Qed.

(** The events of [batchResults.forEach]: no dispatch, one progress for
    each outcome. *)
Lemma dforEach_recordRollback outcomes :
  forall (c : Counters) (s : State),
    exists evs,
      dforEach outcomes (recordRollback sel) c s =
      (fold_left tallyOutcome outcomes c,
       {| world := world s; trace := trace s ++ evs |})
      /\ filter isSchedule evs = []
      /\ completedCounts evs = seq (S (n_completed c)) (List.length outcomes)
      /\ (n_completed c = n_successful c + n_failed c ->
          n_completed c + List.length outcomes <= List.length sel ->
          Forall (progressOk (List.length sel)) evs).
Proof.
  induction outcomes as [| o rest IH]; intros c s.
  - exists []. cbn [dforEach fold_left]. unfold dret. rewrite app_nil_r.
    split; [destruct s; reflexivity |]. split; [reflexivity |].
    split; [reflexivity | constructor].
  - set (s1 := {| world := world s;
                  trace := trace s ++
                    [SetProgress (List.length sel)
                       (n_completed (tallyOutcome c o))
                       (n_successful (tallyOutcome c o))
                       (n_failed (tallyOutcome c o))
                       ("Rolled back: " ++ rb_displayName o)%string] |}).
    destruct (IH (tallyOutcome c o) s1) as (evs & Hrun & Hsched & Hcount & Hok).
    eexists (_ :: evs).
    split.
    { change (dforEach (o :: rest) (recordRollback sel) c s)
        with (dforEach rest (recordRollback sel) (tallyOutcome c o) s1).
      rewrite Hrun. cbn [world trace fold_left s1]. rewrite <- app_assoc.
      reflexivity. }
    split; [exact Hsched |].
    split.
    { cbn [completedCounts flat_map app List.length seq]. f_equal.
      exact Hcount. }
    intros Hinv Hle. cbn [List.length] in Hle. constructor.
    + cbn [progressOk tallyOutcome n_completed n_successful n_failed].
      destruct (rb_success o); repeat split; lia.
    + apply Hok; cbn [tallyOutcome n_completed n_successful n_failed].
      * destruct (rb_success o); lia.
      * lia.
Qed.

Lemma tally_invariant outcomes :
  forall c : Counters,
    n_completed c = n_successful c + n_failed c ->
    n_completed (fold_left tallyOutcome outcomes c)
    = n_successful (fold_left tallyOutcome outcomes c)
      + n_failed (fold_left tallyOutcome outcomes c).
Proof.
  intros c Hinv. destruct (fold_tallyOutcome outcomes c) as (Hc & Hs & Hf).
  rewrite Hc, Hs, Hf.
  assert (List.length outcomes
          = List.length (filter rb_success outcomes)
            + List.length (filter (fun o => negb (rb_success o)) outcomes)).
  { clear. induction outcomes as [| o rest IH]; [reflexivity |].
    cbn [filter List.length]. destruct (rb_success o); cbn [negb List.length]; lia. }
  lia.
Qed.

Lemma rollbackBatches_run total rest :
  forall bi (c : Counters) (s : State),
    total = bi + List.length rest ->
    exists evs,
      rollbackBatches api sel vars total bi rest c s =
      (fold_left tallyOutcome
         (rollbackOutcomesFrom api vars (tick (world s)) (List.concat rest)) c,
       {| world := {| storage := storage (world s);
                      tick := List.length (List.concat rest) + tick (world s) |};
          trace := trace s ++ evs |})
      /\ filter isSchedule evs = expectedSchedule 1100 bi rest
      /\ completedCounts evs
         = seq (S (n_completed c)) (List.length (List.concat rest))
      /\ (n_completed c = n_successful c + n_failed c ->
          n_completed c + List.length (List.concat rest) <= List.length sel ->
          Forall (progressOk (List.length sel)) evs).
Proof.
  induction rest as [| batch rest IH]; intros bi c s Htotal.
  - exists []. cbn [rollbackBatches List.concat rollbackOutcomesFrom fold_left
                    List.length Nat.add].
    unfold dret. rewrite app_nil_r.
    split; [destruct s as [[st tk] tr]; reflexivity |].
    split; [reflexivity |]. split; [reflexivity | constructor].
  - cbn [List.length] in Htotal.
    set (outcomes := rollbackOutcomesFrom api vars (tick (world s)) batch).
    set (s1 := {| world := {| storage := storage (world s);
                              tick := List.length batch + tick (world s) |};
                  trace := (trace s ++
                     [SetCurrent ("Rolling back batch "
                        ++ JS.string_of_nat (bi + 1) ++ "/"
                        ++ JS.string_of_nat total ++ " ("
                        ++ JS.string_of_nat (List.length batch)
                        ++ " items)...")%string])
                     ++ map (Dispatch bi) batch ++ [Joined bi] |}).
    destruct (dforEach_recordRollback outcomes c s1)
      as (evs1 & Hrun1 & Hsched1 & Hcount1 & Hok1).
    set (pause := if (bi <? total - 1)%nat then [Sleep 1100] else []).
    destruct (IH (S bi) (fold_left tallyOutcome outcomes c)
                 {| world := world s1; trace := (trace s1 ++ evs1) ++ pause |}
                 ltac:(lia))
      as (evs2 & Hrun2 & Hsched2 & Hcount2 & Hok2).
    exists (SetCurrent ("Rolling back batch "
                        ++ JS.string_of_nat (bi + 1) ++ "/"
                        ++ JS.string_of_nat total ++ " ("
                        ++ JS.string_of_nat (List.length batch)
                        ++ " items)...")%string
            :: map (Dispatch bi) batch ++ Joined bi :: evs1 ++ pause ++ evs2).
    split.
    { cbn [rollbackBatches]. unfold dbind at 1.
      unfold rollbackBatch. unfold dbind at 1. unfold emit at 1.
      unfold dbind at 1. rewrite dmap_rollbackVariant.
      cbn [world storage tick trace].
      unfold dbind at 1. unfold emit at 1. cbn [world trace].
      unfold dbind at 1. fold outcomes. rewrite <- app_assoc.
      change (dforEach outcomes (recordRollback sel) c _)
        with (dforEach outcomes (recordRollback sel) c s1).
      rewrite Hrun1.
      assert (Hpause :
        ((if (bi <? total - 1)%nat then emit (Sleep 1100) else dret tt)
           {| world := world s1; trace := trace s1 ++ evs1 |})
        = (tt, {| world := world s1; trace := (trace s1 ++ evs1) ++ pause |})).
      { unfold pause. destruct (bi <? total - 1)%nat; unfold emit, dret;
          cbn [world trace]; [reflexivity | now rewrite app_nil_r]. }
      unfold dbind at 1. rewrite Hpause. unfold dret at 1.
      rewrite Hrun2. cbn [world storage tick trace s1 List.concat].
      rewrite rollbackOutcomesFrom_app, fold_left_app, length_app.
      fold outcomes. f_equal. f_equal.
      - f_equal. lia.
      - rewrite <- !app_assoc. reflexivity. }
    split.
    { cbn [filter isSchedule expectedSchedule]. rewrite filter_app.
      rewrite dispatches_scheduled. cbn [filter isSchedule].
      rewrite !filter_app, Hsched1, Hsched2. cbn [app]. f_equal. f_equal.
      unfold pause. destruct rest as [| batch' rest'].
      - destruct (Nat.ltb_spec bi (total - 1)) as [Hlt | _];
          [cbn [List.length] in Htotal; lia | reflexivity].
      - destruct (Nat.ltb_spec bi (total - 1)) as [_ | Hge];
          [reflexivity | cbn [List.length] in Htotal; lia]. }
    destruct (fold_tallyOutcome outcomes c) as (Hc & _).
    unfold outcomes in Hc at 2. rewrite length_rollbackOutcomesFrom in Hc.
    split.
    { cbn [completedCounts flat_map app].
      fold (completedCounts (map (Dispatch bi) batch ++
                             Joined bi :: evs1 ++ pause ++ evs2)).
      rewrite completedCounts_app, completedCounts_dispatch.
      cbn [app completedCounts flat_map].
      fold (completedCounts (evs1 ++ pause ++ evs2)).
      rewrite !completedCounts_app, Hcount1, Hcount2, Hc.
      replace (completedCounts pause) with (@nil nat)
        by (unfold pause; now destruct (bi <? total - 1)%nat).
      unfold outcomes. rewrite length_rollbackOutcomesFrom.
      cbn [List.concat app]. rewrite length_app, seq_app. reflexivity. }
    intros Hinv Hle. cbn [List.concat] in Hle. rewrite length_app in Hle.
    constructor; [exact I |].
    apply Forall_app. split.
    { apply Forall_forall. intros e He. apply in_map_iff in He as (v & <- & _).
      exact I. }
    constructor; [exact I |].
    apply Forall_app. split.
    { apply Hok1; [exact Hinv |]. unfold outcomes.
      rewrite length_rollbackOutcomesFrom. lia. }
    apply Forall_app. split.
    { unfold pause. destruct (bi <? total - 1)%nat; repeat constructor. }
    apply Hok2; [now apply tally_invariant | lia].
Qed.

Lemma rollbackDiscounts_run (s : State) batches :
  sel <> [] ->
  makeBatches (List.length sel) 2 sel 0 [] = Some batches ->
  List.concat batches = sel ->
  let c := fold_left tallyOutcome
             (rollbackOutcomesFrom api vars (tick (world s)) sel) noCounts in
  let w1 := {| storage := storage (world s);
               tick := List.length sel + tick (world s) |} in
  exists evs,
    rollbackDiscounts env api sel vars s =
    (RbFinished c,
     {| world := snd (createBulkOperation (history_env env) bulk_discount pricing
                        "Bulk Discount Rollback" (map (rollbackItem vars) sel)
                        None w1);
        trace := trace s ++ evs |})
    /\ filter isSchedule evs = expectedSchedule 1100 0 batches
    /\ completedCounts evs = 0 :: seq 1 (List.length sel) ++ [List.length sel]
    /\ Forall (progressOk (List.length sel)) evs
    /\ In (SetMessage (Some (rollbackMessage c))) evs.
Proof.
  intros Hsel Hbatches Hcat c w1.
  unfold rollbackDiscounts.
  assert (Hn : (List.length sel =? 0)%nat = false)
    by (destruct sel; [congruence | reflexivity]).
  rewrite Hn, Hbatches.
  do 4 (unfold dbind at 1; unfold emit at 1).
  cbn [world trace].
  unfold dbind at 1. fold noCounts.
  match goal with
  | |- context [rollbackBatches _ _ _ _ _ _ _ ?st] =>
      destruct (rollbackBatches_run (List.length batches) batches 0 noCounts st
                  eq_refl) as (evs & Hrun & Hsched & Hcount & Hok)
  end.
  rewrite Hrun. cbn [world storage tick trace] in *.
  rewrite Hcat in *. fold c. fold w1.
  unfold dbind at 1. unfold emit at 1. cbn [world trace].
  unfold dbind at 1. unfold lift at 1. cbn [world trace].
  unfold HistoryMore.createBulkHistoryEntry.
  destruct (createBulkOperation _ _ _ _ _ _ w1) as [r w2]. cbn [snd].
  unfold dbind, emit, dret. cbn [world trace].
  rewrite <- !app_assoc. cbn [app].
  eexists. split; [reflexivity |].
  pose proof (tally_invariant
                (rollbackOutcomesFrom api vars (tick (world s)) sel)
                noCounts eq_refl) as Hinv.
  fold c in Hinv.
  destruct (fold_tallyOutcome
              (rollbackOutcomesFrom api vars (tick (world s)) sel) noCounts)
    as (Hc & _).
  fold c in Hc. rewrite length_rollbackOutcomesFrom in Hc.
  cbn [noCounts n_completed Nat.add] in Hc.
  split.
  { cbn [filter isSchedule]. rewrite filter_app. cbn [filter isSchedule].
    rewrite app_nil_r. exact Hsched. }
  split.
  { cbn [completedCounts flat_map app].
    fold (completedCounts
            (evs ++ [SetProgress (List.length sel) (List.length sel)
                       (n_successful c) (n_failed c)
                       ("Rollback completed! " ++ JS.string_of_nat (n_successful c)
                        ++ " successful, " ++ JS.string_of_nat (n_failed c))%string;
                     SetMessage (Some (rollbackMessage c)); SetResults [];
                     FetchUpdatedProducts; SetSelectedVariants [];
                     SetIsApplying false])).
    rewrite completedCounts_app, Hcount. reflexivity. }
  split.
  { do 4 (constructor; [first [exact I | cbn; lia] |]).
    apply Forall_app. split.
    - apply Hok; [reflexivity | cbn; lia].
    - constructor; [cbn; lia |]. repeat constructor. }
  do 4 right. apply in_or_app. right. right. left. reflexivity.
Qed.

(** X29: [rollbackDiscounts] records the whole selection, whatever the
    calls returned: the history gets one aggregate entry and one entry for
    each selected variant, all with status success; the aggregate counts
    every selected variant as successful and none as failed, and cannot be
    rolled back; the closing message is a success message.  The screen's
    own counters tell the successful calls from the failed ones. *)
Theorem rollbackDiscounts_history (s : State) :
  sel <> [] ->
  exists c (s' : State) main children,
    rollbackDiscounts env api sel vars s = (RbFinished c, s')
    /\ n_successful c
       = List.length (filter rb_success
                        (rollbackOutcomesFrom api vars (tick (world s)) sel))
    /\ n_successful c + n_failed c = List.length sel
    /\ storage (world s')
       = firstn MAX_ENTRIES (rev children ++ main :: storage (world s))
    /\ map (fun e : UniversalHistoryEntry => History.variantId e) children
       = map Some sel
    /\ Forall (fun e : UniversalHistoryEntry => status e = History.success)
              (main :: children)
    /\ mayRollback main = false
    /\ option_map bulkOperationSummary (metadata main)
       = Some (Some {| totalItems := List.length sel;
                       successfulItems := List.length sel;
                       failedItems := 0;
                       summaryOperationType := OperationType_string bulk_discount |})
    /\ In (SetMessage (Some (msg_success,
             ("Successfully rolled back discounts for "
              ++ JS.string_of_nat (n_successful c) ++ " variants!")%string)))
          (trace s').
Proof.
  intros Hsel.
  destruct (makeBatches_spec 2 sel ltac:(lia) (List.length sel) 0 [])
    as (batches & Hrun & Hcat & _); [lia |].
  cbn [app skipn] in Hrun, Hcat.
  destruct (rollbackDiscounts_run s batches Hsel Hrun Hcat)
    as (evs & Hroll & _ & _ & _ & Hmsg).
  rewrite HistoryFacts.createBulkOperation_eq in Hroll. cbn [snd storage tick] in Hroll.
  set (outcomes := rollbackOutcomesFrom api vars (tick (world s)) sel) in *.
  destruct (fold_tallyOutcome outcomes noCounts) as (Hc & Hs & Hf).
  pose proof (tally_invariant outcomes noCounts eq_refl) as Hinv.
  unfold outcomes in Hc at 2. rewrite length_rollbackOutcomesFrom in Hc.
  cbn [noCounts n_completed n_successful n_failed Nat.add] in Hc, Hs.
  do 4 eexists. split; [exact Hroll |].
  split; [exact Hs |]. split; [lia |].
  cbn [world storage trace].
  split; [reflexivity |].
  split.
  { generalize (5 + (List.length sel + tick (world s))).
    generalize (batchIdAt (history_env env) (List.length sel + tick (world s))).
    clear. intros b t. revert t.
    induction sel as [| v l IH]; intros t; [reflexivity |].
    cbn [map entriesFrom]. f_equal. apply IH. }
  split.
  { constructor; [reflexivity |].
    eapply Forall_impl; [| apply HistoryFacts.children_shape].
    intros e (_ & _ & _ & He & _). exact He. }
  split; [reflexivity |].
  split.
  { cbn [entryAt input metadata mainEntryInput option_map bulkOperationSummary].
    now rewrite !length_map. }
  apply in_or_app. right. exact Hmsg.
Qed.

(** X30: [rollbackDiscounts] sends one call for each selected variant, in
    order, in groups of two; it awaits a whole group before the next one
    starts, with a pause of 1100 ms after every group but the last; the
    progress shown counts 0, 1, ..., N and then N once more, each time with
    total N and completed = successful + failed. *)
Theorem rollbackDiscounts_schedule (s : State) :
  sel <> [] ->
  exists batches evs,
    makeBatches (List.length sel) 2 sel 0 [] = Some batches
    /\ List.concat batches = sel
    /\ List.length batches = ceilDiv (List.length sel) 2
    /\ fullButLast 2 batches
    /\ trace (snd (rollbackDiscounts env api sel vars s)) = trace s ++ evs
    /\ filter isSchedule evs = expectedSchedule 1100 0 batches
    /\ dispatched evs = sel
    /\ completedCounts evs = 0 :: seq 1 (List.length sel) ++ [List.length sel]
    /\ Forall (progressOk (List.length sel)) evs.
Proof.
  intros Hsel.
  destruct (makeBatches_spec 2 sel ltac:(lia) (List.length sel) 0 [])
    as (batches & Hrun & Hcat & Hlen & Hfull); [lia |].
  cbn [app skipn] in Hrun, Hcat. rewrite Nat.sub_0_r in Hlen.
  destruct (rollbackDiscounts_run s batches Hsel Hrun Hcat)
    as (evs & Hroll & Hsched & Hcount & Hok & _).
  exists batches, evs.
  split; [exact Hrun |]. split; [exact Hcat |]. split; [exact Hlen |].
  split; [exact Hfull |].
  split; [now rewrite Hroll |]. split; [exact Hsched |].
  split.
  { now rewrite <- dispatched_schedule, Hsched, expectedSchedule_dispatched. }
  split; assumption.
Qed.

End RollbackRuns.

Section RollbackSamples.
Import Samples DiscountSamples SamplesMore.

Lemma rollbackDiscounts_history_witness :
  exists c (s' : State) main children,
    rollbackDiscounts thirdFails rollbackThirdFails fiveVariants [] startState
    = (RbFinished c, s')
    /\ n_successful c
       = List.length (filter rb_success
                        (rollbackOutcomesFrom rollbackThirdFails []
                           (tick (world startState)) fiveVariants))
    /\ n_successful c + n_failed c = List.length fiveVariants
    /\ storage (world s')
       = firstn MAX_ENTRIES (rev children ++ main :: storage (world startState))
    /\ map (fun e : UniversalHistoryEntry => History.variantId e) children
       = map Some fiveVariants
    /\ Forall (fun e : UniversalHistoryEntry => status e = History.success)
              (main :: children)
    /\ mayRollback main = false
    /\ option_map bulkOperationSummary (metadata main)
       = Some (Some {| totalItems := List.length fiveVariants;
                       successfulItems := List.length fiveVariants;
                       failedItems := 0;
                       summaryOperationType := OperationType_string bulk_discount |})
    /\ In (SetMessage (Some (msg_success,
             ("Successfully rolled back discounts for "
              ++ JS.string_of_nat (n_successful c) ++ " variants!")%string)))
          (trace s').
Proof.
  apply (rollbackDiscounts_history thirdFails rollbackThirdFails fiveVariants []
           startState).
  discriminate.
Defined.

Lemma rollbackDiscounts_schedule_witness :
  exists batches evs,
    makeBatches (List.length fiveVariants) 2 fiveVariants 0 [] = Some batches
    /\ List.concat batches = fiveVariants
    /\ List.length batches = ceilDiv (List.length fiveVariants) 2
    /\ fullButLast 2 batches
    /\ trace (snd (rollbackDiscounts thirdFails rollbackThirdFails fiveVariants []
                     startState))
       = trace startState ++ evs
    /\ filter isSchedule evs = expectedSchedule 1100 0 batches
    /\ dispatched evs = fiveVariants
    /\ completedCounts evs
       = 0 :: seq 1 (List.length fiveVariants) ++ [List.length fiveVariants]
    /\ Forall (progressOk (List.length fiveVariants)) evs.
Proof.
  apply (rollbackDiscounts_schedule thirdFails rollbackThirdFails fiveVariants []
           startState).
  discriminate.
Defined.

(** One call of five fails; the history still counts five successful
    items. *)
Example rollback_records_failed_call :
  let r := rollbackDiscounts thirdFails rollbackThirdFails fiveVariants []
             startState in
  fst r = RbFinished {| n_completed := 5; n_successful := 4; n_failed := 1 |}
  /\ List.length (storage (world (snd r))) = 6
  /\ option_map (fun e : UniversalHistoryEntry =>
                   option_map bulkOperationSummary (metadata e))
                (last (map Some (storage (world (snd r)))) None)
     = Some (Some (Some {| totalItems := 5; successfulItems := 5;
                           failedItems := 0;
                           summaryOperationType := "bulk_discount" |})).
Proof. vm_compute. repeat split; reflexivity. Qed.

End RollbackSamples.

End DiscountMoreFacts.

(** ** Properties of the rollback lookup on the stored array *)

Module RawHistoryFacts.
Import Json History HistoryMore LocalStorage RawHistory.
Local Open Scope list_scope.

Section Facts.

Context (JSON_parse : string -> option value).
Context (TypeError_text : value -> string -> string).
Context (attempt : value -> Slot -> Outcome RollbackResult * Slot).

Lemma member_not_null (v : value) (k : string) :
  v <> JNull -> exists x, member TypeError_text v k = Returned x.
Proof.
  intros Hv. destruct v; try (eexists; reflexivity). congruence.
Qed.

Lemma find_by_id_passed entryId entries :
  Forall (passed TypeError_text entryId) entries ->
  find_by_id TypeError_text entryId entries = Returned None.
Proof.
  induction 1 as [| e rest [Hnull Hid] _ IH]; [reflexivity |].
  cbn [find_by_id]. unfold has_id in Hid.
  destruct (member_not_null e "id" Hnull) as (x & Hx).
  rewrite Hx in *. now rewrite Hid.
Qed.

Lemma find_by_id_found entryId before entry after :
  Forall (passed TypeError_text entryId) before ->
  has_id TypeError_text entryId entry = true ->
  find_by_id TypeError_text entryId (before ++ entry :: after)
  = Returned (Some entry).
Proof.
  intros Hbefore Hentry.
  induction Hbefore as [| e rest [Hnull Hid] _ IH].
  - cbn [app find_by_id]. unfold has_id in Hentry.
    destruct (member TypeError_text entry "id"); [| discriminate].
    now rewrite Hentry.
  - cbn [app find_by_id]. unfold has_id in Hid.
    destruct (member_not_null e "id" Hnull) as (x & Hx).
    rewrite Hx in *. now rewrite Hid.
Qed.

(** A null element that the lookup reads makes it throw. *)
Lemma find_by_id_null entryId before after :
  Forall (passed TypeError_text entryId) before ->
  find_by_id TypeError_text entryId (before ++ JNull :: after)
  = Threw (typeError TypeError_text JNull "id").
Proof.
  induction 1 as [| e rest [Hnull Hid] _ IH]; [reflexivity |].
  cbn [app find_by_id]. unfold has_id in Hid.
  destruct (member_not_null e "id" Hnull) as (x & Hx).
  rewrite Hx in *. now rewrite Hid.
Qed.

(** C7, amended: when the stored value is an array and none of the
    elements that the lookup reads is null - all of them when no element
    has the id, those before the entry otherwise - then on an id that no
    element has, on an entry whose [rollbackData.canRollback] is absent or
    falsy, and on an entry whose rollback type is [file_restore],
    [rollbackOperation] returns (it does not throw) a result with
    [success = false], and the slot is as before. *)
Theorem rollbackOperation_ineligible_stored entryId (slot : Slot) entries :
  getAllEntries JSON_parse slot = JArr entries ->
  (Forall (passed TypeError_text entryId) entries
   \/ exists before entry after,
        entries = before ++ entry :: after
        /\ Forall (passed TypeError_text entryId) before
        /\ has_id TypeError_text entryId entry = true
        /\ ineligible TypeError_text entry) ->
  exists result,
    rollbackOperation JSON_parse TypeError_text attempt entryId slot
    = (Returned result, slot)
    /\ r_success result = false
    /\ affectedEntries result = [].
Proof.
  intros Hstored Hwhy. unfold rollbackOperation. rewrite Hstored.
  destruct Hwhy as [Hnone | (before & entry & after & -> & Hbefore & Hid & Hwhy)].
  - rewrite (find_by_id_passed entryId entries Hnone).
    eexists. split; [reflexivity |]. split; reflexivity.
  - rewrite (find_by_id_found entryId before entry after Hbefore Hid).
    destruct Hwhy as (data & Hdata & Hwhy). rewrite Hdata.
    destruct (truthy_opt (optional_member data "canRollback")) eqn:Hcan;
      cbn [negb].
    + destruct Hwhy as [Hno | Hfile]; [discriminate |].
      assert (Hother :
                is_string (optional_member data "rollbackType") "api_call"
                || is_string (optional_member data "rollbackType")
                     "batch_operation" = false).
      { unfold is_string in *.
        destruct (optional_member data "rollbackType") as [[] |];
          try discriminate.
        apply String.eqb_eq in Hfile. subst. reflexivity. }
      rewrite Hother, Hfile.
      eexists. split; [reflexivity |]. split; reflexivity.
    + eexists. split; [reflexivity |]. split; reflexivity.
Qed.

(** Outside these cases nothing that the try block throws escapes
    either. *)
Lemma rollbackOperation_try_is_caught entryId (slot : Slot) entries before
    entry after :
  getAllEntries JSON_parse slot = JArr entries ->
  entries = before ++ entry :: after ->
  Forall (passed TypeError_text entryId) before ->
  has_id TypeError_text entryId entry = true ->
  exists result slot',
    rollbackOperation JSON_parse TypeError_text attempt entryId slot
    = (Returned result, slot').
Proof.
  intros Hstored -> Hbefore Hid. unfold rollbackOperation. rewrite Hstored.
  rewrite (find_by_id_found entryId before entry after Hbefore Hid).
  unfold has_id in Hid.
  destruct entry; try discriminate. cbn [member].
  destruct (negb _); [do 2 eexists; reflexivity |].
  destruct (_ || _).
  - destruct (attempt _ slot) as [[result | t] slot'];
      do 2 eexists; reflexivity.
  - destruct (is_string _ "file_restore"); do 2 eexists; reflexivity.
Qed.

End Facts.

Section Samples.
Import Samples SamplesMore.

Lemma rollbackOperation_ineligible_stored_witness :
  exists result,
    rollbackOperation history_parse engineText idleAttempt "hist_a"
                      (Some storedText)
    = (Returned result, Some storedText)
    /\ r_success result = false
    /\ affectedEntries result = [].
Proof.
  apply (rollbackOperation_ineligible_stored history_parse engineText
           idleAttempt "hist_a" (Some storedText)
           [JNum (JS.of_Z 1); JObj [("id", JStr "hist_a")]]).
  - reflexivity.
  - right. exists [JNum (JS.of_Z 1)], (JObj [("id", JStr "hist_a")]), [].
    split; [reflexivity |].
    split; [repeat constructor; discriminate |].
    split; [reflexivity |].
    exists None. split; [reflexivity |]. left. reflexivity.
Defined.

(** C7, as stated, fails: [importHistory] accepts the text of an array
    with a null element, and on that store the lookup of an id that no
    element has reads [null.id]: a TypeError, thrown before the try block,
    escapes to the caller.  On a stored value that is not an array the
    call of [find] throws. *)
Lemma rollback_lookup_throws :
  importHistory sample_parse "[1,null]" None = (true, Some "[1,null]")
  /\ rollbackOperation sample_parse engineText idleAttempt "hist_a"
                       (Some "[1,null]")
     = (Threw (ErrorObj "TypeError"
                        "Cannot read properties of null (reading 'id')"),
        Some "[1,null]")
  /\ exists t,
       rollbackOperation sample_parse engineText idleAttempt "hist_a"
                         (Some "{}")
       = (Threw t, Some "{}").
Proof.
  split; [reflexivity |]. split; [reflexivity |].
  eexists. reflexivity.
Qed.

End Samples.

End RawHistoryFacts.

